(** * tcpm: Tiny Cooperative Process Management library

    A shallow embedding of [src/tcpm/src/tcpm.c] and theorems about it;
    the theorems named C1 to C10 state the documented properties of the
    library as far as the code has them.

    The embedding is sequential: every function of the C file is a
    function on an explicit program state, atomics are read and written
    in program order, and [atomic_compare_exchange_weak] succeeds whenever
    the compared values agree (no spurious failure).  Undefined behaviour
    of the C program (null or out-of-range dereference, division by zero,
    a call through a null function pointer) is the result [Fault]; a loop
    that has not left after [fuel] iterations is the result [OutOfFuel]. *)

From Stdlib Require Import ZArith Lia List Bool.
From stdpp Require Import base option list gmap.

Open Scope Z_scope.

(** ** Machine integers *)

(** [uint32_t] arithmetic wraps around modulo 2^32. *)
Definition wrap32 (z : Z) : Z := z mod 4294967296.

(** The cast [(int32_t)x] of a [uint32_t], two's complement. *)
Definition to_int32 (z : Z) : Z := (z + 2147483648) mod 4294967296 - 2147483648.

(** [(int32_t)(a) - (int32_t)(b)] stored in an [int32_t], computed the way
    two's complement hardware does it (the subtraction wraps). *)
Definition diff_int32 (a b : Z) : Z := to_int32 (to_int32 a - to_int32 b).

(** ** Results of running C code *)

Inductive Res (A : Type) : Type :=
| Ok (a : A)
| Fault
| OutOfFuel.
Arguments Ok {A} a.
Arguments Fault {A}.
Arguments OutOfFuel {A}.

(** ** Pointers *)

(** A [void*] of the program is null, the address of a slot of the process
    table ([&dq->processes[i]]) or an address in user memory. *)
Inductive ptr : Type :=
| NULL
| PProc (i : nat)
| PUser (a : Z).

#[global] Instance ptr_eq_dec : EqDecision ptr.
Proof. solve_decision. Defined.

Definition is_null (p : ptr) : bool :=
  match p with NULL => true | _ => false end.

(** The [ElementRelease] function pointer of a queue: null, the runtime's
    own [processRelease] (the run queue), or a user function. *)
Inductive ElementRelease : Type :=
| ER_NULL
| ER_processRelease
| ER_user (f : nat).

(** ** Atomic primitives *)

(** [atomic_compare_exchange_weak(obj, &expected, desired)] on a cell
    holding [cur]: the result, the new cell and the new [expected]. *)
Definition cas {A : Type} (eqb : A -> A -> bool) (cur expected desired : A)
  : bool * A * A :=
  if eqb cur expected then (true, desired, expected) else (false, cur, cur).

(** [spinLock]: [expected = false; while( !cas(lock, &expected, true) );] *)
Fixpoint spin_until (fuel : nat) (lock expected desired : bool) : Res bool :=
  match fuel with
  | O => OutOfFuel
  | S fuel' =>
      let '(ok, lock', expected') := cas Bool.eqb lock expected desired in
      if ok then Ok lock' else spin_until fuel' lock' expected' desired
  end.

Definition spinLock (fuel : nat) (lock : bool) : Res bool :=
  spin_until fuel lock false true.

Definition spinUnlock (fuel : nat) (lock : bool) : Res bool :=
  spin_until fuel lock true false.

(** [spinTryLock]: one compare-exchange; the result and the new lock. *)
Definition spinTryLock (lock : bool) : bool * bool :=
  let '(ok, lock', _) := cas Bool.eqb lock false true in (ok, lock').

(** ** Lock-free bounded queue *)

Record Element : Type := mkElement {
  el_seq : Z;
  el_data : ptr
}.

Record BoundedQueue : Type := mkBoundedQueue {
  bq_first : Z;
  bq_last : Z;
  bq_cap : Z;
  bq_elements : option (list Element);   (* [None]: the null pointer *)
  bq_elementRelease : ElementRelease
}.

(** A zeroed [BoundedQueue], as [calloc] and [memset] leave it. *)
Definition BoundedQueue_zero : BoundedQueue :=
  mkBoundedQueue 0 0 0 None ER_NULL.

Definition BoundedQueue_init (cap : Z) (elementRelease : ElementRelease)
  : BoundedQueue :=
  {| bq_first := 0;
     bq_last := 0;
     bq_cap := cap;
     bq_elements :=
       Some (map (fun i : nat => mkElement (Z.of_nat i) NULL)
                 (seq 0 (Z.to_nat cap)));
     bq_elementRelease := elementRelease |}.

(** [bq->elements[i]] *)
Definition element_at (bq : BoundedQueue) (i : Z) : Res Element :=
  match bq_elements bq with
  | None => Fault
  | Some els =>
      match els !! Z.to_nat i with
      | Some el => Ok el
      | None => Fault
      end
  end.

Definition store_element (bq : BoundedQueue) (i : Z) (el : Element)
  : option (list Element) :=
  match bq_elements bq with
  | None => None
  | Some els => Some (<[Z.to_nat i := el]> els)
  end.

(** The loop of [BoundedQueue_push] with the two stores that follow it.
    [last] is the local variable. *)
Fixpoint BoundedQueue_push_loop (fuel : nat) (bq : BoundedQueue) (last : Z)
    (data : ptr) : Res (bool * BoundedQueue) :=
  match fuel with
  | O => OutOfFuel
  | S fuel' =>
      if bq_cap bq =? 0 then Fault else
      let idx := last mod bq_cap bq in
      match element_at bq idx with
      | Ok el =>
          let seq := el_seq el in
          let diff := diff_int32 seq last in
          if diff =? 0 then
            let '(ok, cur, _) := cas Z.eqb (bq_last bq) last (wrap32 (last + 1)) in
            if ok then
              Ok (true,
                  {| bq_first := bq_first bq;
                     bq_last := cur;
                     bq_cap := bq_cap bq;
                     bq_elements :=
                       store_element bq idx (mkElement (wrap32 (last + 1)) data);
                     bq_elementRelease := bq_elementRelease bq |})
            else BoundedQueue_push_loop fuel' bq (bq_last bq) data
          else if diff <? 0 then Ok (false, bq)
          else BoundedQueue_push_loop fuel' bq (bq_last bq) data
      | Fault => Fault
      | OutOfFuel => OutOfFuel
      end
  end.

Definition BoundedQueue_push (fuel : nat) (bq : BoundedQueue) (data : ptr)
  : Res (bool * BoundedQueue) :=
  BoundedQueue_push_loop fuel bq (bq_last bq) data.

(** The loop of [BoundedQueue_pop] with the load and the store that follow
    it.  The result [NULL] is the empty answer. *)
Fixpoint BoundedQueue_pop_loop (fuel : nat) (bq : BoundedQueue) (first : Z)
  : Res (ptr * BoundedQueue) :=
  match fuel with
  | O => OutOfFuel
  | S fuel' =>
      if bq_cap bq =? 0 then Fault else
      let idx := first mod bq_cap bq in
      match element_at bq idx with
      | Ok el =>
          let seq := el_seq el in
          let diff := diff_int32 seq (wrap32 (first + 1)) in
          if diff =? 0 then
            let '(ok, cur, _) := cas Z.eqb (bq_first bq) first (wrap32 (first + 1)) in
            if ok then
              Ok (el_data el,
                  {| bq_first := cur;
                     bq_last := bq_last bq;
                     bq_cap := bq_cap bq;
                     bq_elements :=
                       store_element bq idx
                         (mkElement (wrap32 (first + bq_cap bq)) (el_data el));
                     bq_elementRelease := bq_elementRelease bq |})
            else BoundedQueue_pop_loop fuel' bq (bq_first bq)
          else if diff <? 0 then Ok (NULL, bq)
          else BoundedQueue_pop_loop fuel' bq (bq_first bq)
      | Fault => Fault
      | OutOfFuel => OutOfFuel
      end
  end.

Definition BoundedQueue_pop (fuel : nat) (bq : BoundedQueue)
  : Res (ptr * BoundedQueue) :=
  BoundedQueue_pop_loop fuel bq (bq_first bq).

(** ** Abstraction of a queue state

    [queue_rep bq F l]: the queue [bq] stores the payloads [l], oldest
    first, after [F] successful pops.  [F] and [F + length l] are the
    unbounded values of the two cursors; the program keeps them modulo
    2^32.  Position [p] of the stream lives in slot [p mod cap]. *)

(** The cursor value [L] can be reduced modulo 2^32 and then modulo [cap]
    without changing the slot: either [cap] divides 2^32 or no counter has
    wrapped yet. *)
Definition wrap_safe (cap L : Z) : Prop :=
  (cap | 4294967296) \/ L + cap < 4294967296.

Definition slot_of (cap p : Z) : nat := Z.to_nat (p mod cap).

Definition slots_ok (cap F : Z) (l : list ptr) (els : list Element) : Prop :=
  forall p, F <= p < F + cap ->
    exists el, els !! slot_of cap p = Some el /\
      if p <? F + Z.of_nat (length l)
      then el_seq el = wrap32 (p + 1) /\ l !! Z.to_nat (p - F) = Some (el_data el)
      else el_seq el = wrap32 p.

Record queue_rep (bq : BoundedQueue) (F : Z) (l : list ptr) : Prop := {
  qr_cap : 1 <= bq_cap bq <= 2147483648;
  qr_ghost : 0 <= F;
  qr_len : Z.of_nat (length l) <= bq_cap bq;
  qr_first : bq_first bq = wrap32 F;
  qr_last : bq_last bq = wrap32 (F + Z.of_nat (length l));
  qr_safe : wrap_safe (bq_cap bq) (F + Z.of_nat (length l));
  qr_slots : exists els, bq_elements bq = Some els /\
               length els = Z.to_nat (bq_cap bq) /\
               slots_ok (bq_cap bq) F l els
}.

(** ** Sequential executions of a queue *)

Inductive QueueOp : Type :=
| QPush (x : ptr)
| QPop.

Inductive QueueAnswer : Type :=
| APush (ok : bool)
| APop (x : ptr).

(** Run the program's queue on a sequence of calls, collecting the values
    the calls return. *)
Fixpoint run_queue (fuel : nat) (bq : BoundedQueue) (ops : list QueueOp)
  : Res (list QueueAnswer * BoundedQueue) :=
  match ops with
  | [] => Ok ([], bq)
  | QPush x :: ops' =>
      match BoundedQueue_push fuel bq x with
      | Ok (ok, bq') =>
          match run_queue fuel bq' ops' with
          | Ok (ans, bq'') => Ok (APush ok :: ans, bq'')
          | Fault => Fault
          | OutOfFuel => OutOfFuel
          end
      | Fault => Fault
      | OutOfFuel => OutOfFuel
      end
  | QPop :: ops' =>
      match BoundedQueue_pop fuel bq with
      | Ok (x, bq') =>
          match run_queue fuel bq' ops' with
          | Ok (ans, bq'') => Ok (APop x :: ans, bq'')
          | Fault => Fault
          | OutOfFuel => OutOfFuel
          end
      | Fault => Fault
      | OutOfFuel => OutOfFuel
      end
  end.

(** The queue the specification describes: a list of at most [cap]
    payloads; push fails when [cap] are stored, pop answers the empty value
    when none is and the oldest payload otherwise. *)
Definition fifo_push (cap : Z) (stored : list ptr) (x : ptr)
  : bool * list ptr :=
  if Z.of_nat (length stored) <? cap then (true, stored ++ [x])
  else (false, stored).

Definition fifo_pop (stored : list ptr) : ptr * list ptr :=
  match stored with
  | [] => (NULL, [])
  | x :: rest => (x, rest)
  end.

Fixpoint fifo_run (cap : Z) (stored : list ptr) (ops : list QueueOp)
  : list QueueAnswer * list ptr :=
  match ops with
  | [] => ([], stored)
  | QPush x :: ops' =>
      let '(ok, stored') := fifo_push cap stored x in
      let '(ans, final) := fifo_run cap stored' ops' in
      (APush ok :: ans, final)
  | QPop :: ops' =>
      let '(x, stored') := fifo_pop stored in
      let '(ans, final) := fifo_run cap stored' ops' in
      (APop x :: ans, final)
  end.

(** Number of push calls in an execution. *)
Fixpoint push_count (ops : list QueueOp) : Z :=
  match ops with
  | [] => 0
  | QPush _ :: ops' => 1 + push_count ops'
  | QPop :: ops' => push_count ops'
  end.

Definition pushes_non_null (ops : list QueueOp) : Prop :=
  Forall (fun op => op <> QPush NULL) ops.

(** Payloads of the pushes that answered [true], in call order. *)
Fixpoint accepted (ops : list QueueOp) (ans : list QueueAnswer) : list ptr :=
  match ops, ans with
  | QPush x :: ops', APush true :: ans' => x :: accepted ops' ans'
  | _ :: ops', _ :: ans' => accepted ops' ans'
  | _, _ => []
  end.

(** Payloads handed out by the pops that did not answer empty, in call
    order. *)
Fixpoint delivered (ans : list QueueAnswer) : list ptr :=
  match ans with
  | [] => []
  | APop x :: ans' => if is_null x then delivered ans' else x :: delivered ans'
  | APush _ :: ans' => delivered ans'
  end.

(** A push followed by a pop, [n] times over. *)
Definition queue_cycle : list QueueOp := [QPush (PUser 1); QPop].

Definition queue_cycles (n : N) : list QueueOp := N.iter n (app queue_cycle) [].

Definition cycle_answers (n : N) : list QueueAnswer :=
  N.iter n (app [APush true; APop (PUser 1)]) [].

(** The empty queue of capacity 3 whose cursors have just wrapped. *)
Definition wrapped_queue : BoundedQueue :=
  mkBoundedQueue 0 0 3
    (Some [mkElement 2 (PUser 1); mkElement 0 (PUser 1); mkElement 1 (PUser 1)])
    ER_NULL.

(** ** Process table and runtime *)

Inductive ProcessState : Type := PS_RUNNING | PS_WAITING.

Inductive ProcessContinuation : Type :=
| PCT_STOP
| PCT_WAIT_MESSAGE
| PCT_CONTINUE.

Inductive SendResult : Type := SEND_SUCCESS | SEND_FAIL | ACTOR_IS_DEAD.

Inductive MessageAction : Type := MA_KEEP | MA_REMOVE.

Inductive DQState : Type := DQS_RUNNING | DQS_STOPPED.

(** A [ProcessQueue*]: null or the address of the runtime. *)
Inductive pqref : Type := PQ_NULL | PQ_this.

(** Modelled from the spec: the header [internals.h] with the declarations
    of [Process], [PID], [ProcessQueue] and [ProcessSpawnParameters] is not
    part of the sources; the fields are those the C file reads and writes,
    with the types section 3 of the specification gives them.  The
    generation counter [gen] is an atomic integer incremented with
    [atomic_fetch_add]; it is taken to be 32 bits wide like the other
    counters of the program.  Function pointers are [option nat]: [None]
    is the null pointer and [Some f] names the user function [f]. *)
Record Process : Type := mkProcess {
  p_id : Z;
  p_gen : Z;
  p_parent : ptr;
  p_processQueue : pqref;
  p_handler : option nat;
  p_releaseState : option nat;
  p_state : ptr;
  p_runningState : ProcessState;
  p_maxMessagePerCycle : Z;
  p_messageQueue : BoundedQueue;
  p_releaseLock : bool
}.

Record PID : Type := mkPID {
  pid_pq : pqref;
  pid_id : Z;
  pid_gen : Z
}.

Record ProcessSpawnParameters : Type := mkSpawnParameters {
  sp_handler : option nat;
  sp_initialState : ptr;
  sp_releaseState : option nat;
  sp_messageRelease : option nat;
  sp_messageCap : Z;
  sp_maxMessagePerCycle : Z
}.

Inductive ThreadState : Type := TH_RUNNING | TH_JOINED.

Record ProcessQueue : Type := mkProcessQueue {
  pq_processCap : Z;
  pq_threadCount : Z;
  pq_threads : list ThreadState;
  pq_runQueue : BoundedQueue;
  pq_procPool : BoundedQueue;
  pq_processes : list Process;
  pq_procCount : Z;
  pq_state : DQState;
  pq_currentProcess : gmap nat ptr   (* the thread-specific key, per thread *)
}.

(** A slot of the process table as [calloc] leaves it. *)
Definition Process_zero : Process :=
  {| p_id := 0; p_gen := 0; p_parent := NULL; p_processQueue := PQ_NULL;
     p_handler := None; p_releaseState := None; p_state := NULL;
     p_runningState := PS_RUNNING; p_maxMessagePerCycle := 0;
     p_messageQueue := BoundedQueue_zero; p_releaseLock := false |}.

Definition null_PID : PID := {| pid_pq := PQ_NULL; pid_id := 0; pid_gen := 0 |}.

Definition ElementRelease_of (f : option nat) : ElementRelease :=
  match f with
  | None => ER_NULL
  | Some f => ER_user f
  end.

(** *** Field updates *)

Definition set_gen (g : Z) (p : Process) : Process :=
  {| p_id := p_id p; p_gen := g; p_parent := p_parent p;
     p_processQueue := p_processQueue p; p_handler := p_handler p;
     p_releaseState := p_releaseState p; p_state := p_state p;
     p_runningState := p_runningState p;
     p_maxMessagePerCycle := p_maxMessagePerCycle p;
     p_messageQueue := p_messageQueue p; p_releaseLock := p_releaseLock p |}.

Definition set_runningState (s : ProcessState) (p : Process) : Process :=
  {| p_id := p_id p; p_gen := p_gen p; p_parent := p_parent p;
     p_processQueue := p_processQueue p; p_handler := p_handler p;
     p_releaseState := p_releaseState p; p_state := p_state p;
     p_runningState := s;
     p_maxMessagePerCycle := p_maxMessagePerCycle p;
     p_messageQueue := p_messageQueue p; p_releaseLock := p_releaseLock p |}.

Definition set_messageQueue (q : BoundedQueue) (p : Process) : Process :=
  {| p_id := p_id p; p_gen := p_gen p; p_parent := p_parent p;
     p_processQueue := p_processQueue p; p_handler := p_handler p;
     p_releaseState := p_releaseState p; p_state := p_state p;
     p_runningState := p_runningState p;
     p_maxMessagePerCycle := p_maxMessagePerCycle p;
     p_messageQueue := q; p_releaseLock := p_releaseLock p |}.

Definition set_releaseLock (b : bool) (p : Process) : Process :=
  {| p_id := p_id p; p_gen := p_gen p; p_parent := p_parent p;
     p_processQueue := p_processQueue p; p_handler := p_handler p;
     p_releaseState := p_releaseState p; p_state := p_state p;
     p_runningState := p_runningState p;
     p_maxMessagePerCycle := p_maxMessagePerCycle p;
     p_messageQueue := p_messageQueue p; p_releaseLock := b |}.

Definition set_elements (els : option (list Element)) (bq : BoundedQueue)
  : BoundedQueue :=
  {| bq_first := bq_first bq; bq_last := bq_last bq; bq_cap := bq_cap bq;
     bq_elements := els; bq_elementRelease := bq_elementRelease bq |}.

Definition set_threads (t : list ThreadState) (q : ProcessQueue) : ProcessQueue :=
  {| pq_processCap := pq_processCap q; pq_threadCount := pq_threadCount q;
     pq_threads := t; pq_runQueue := pq_runQueue q;
     pq_procPool := pq_procPool q; pq_processes := pq_processes q;
     pq_procCount := pq_procCount q; pq_state := pq_state q;
     pq_currentProcess := pq_currentProcess q |}.

Definition set_runQueue (b : BoundedQueue) (q : ProcessQueue) : ProcessQueue :=
  {| pq_processCap := pq_processCap q; pq_threadCount := pq_threadCount q;
     pq_threads := pq_threads q; pq_runQueue := b;
     pq_procPool := pq_procPool q; pq_processes := pq_processes q;
     pq_procCount := pq_procCount q; pq_state := pq_state q;
     pq_currentProcess := pq_currentProcess q |}.

Definition set_procPool (b : BoundedQueue) (q : ProcessQueue) : ProcessQueue :=
  {| pq_processCap := pq_processCap q; pq_threadCount := pq_threadCount q;
     pq_threads := pq_threads q; pq_runQueue := pq_runQueue q;
     pq_procPool := b; pq_processes := pq_processes q;
     pq_procCount := pq_procCount q; pq_state := pq_state q;
     pq_currentProcess := pq_currentProcess q |}.

Definition set_processes (ps : list Process) (q : ProcessQueue) : ProcessQueue :=
  {| pq_processCap := pq_processCap q; pq_threadCount := pq_threadCount q;
     pq_threads := pq_threads q; pq_runQueue := pq_runQueue q;
     pq_procPool := pq_procPool q; pq_processes := ps;
     pq_procCount := pq_procCount q; pq_state := pq_state q;
     pq_currentProcess := pq_currentProcess q |}.

Definition set_procCount (c : Z) (q : ProcessQueue) : ProcessQueue :=
  {| pq_processCap := pq_processCap q; pq_threadCount := pq_threadCount q;
     pq_threads := pq_threads q; pq_runQueue := pq_runQueue q;
     pq_procPool := pq_procPool q; pq_processes := pq_processes q;
     pq_procCount := c; pq_state := pq_state q;
     pq_currentProcess := pq_currentProcess q |}.

Definition set_state (s : DQState) (q : ProcessQueue) : ProcessQueue :=
  {| pq_processCap := pq_processCap q; pq_threadCount := pq_threadCount q;
     pq_threads := pq_threads q; pq_runQueue := pq_runQueue q;
     pq_procPool := pq_procPool q; pq_processes := pq_processes q;
     pq_procCount := pq_procCount q; pq_state := s;
     pq_currentProcess := pq_currentProcess q |}.

Definition set_currentProcess (m : gmap nat ptr) (q : ProcessQueue)
  : ProcessQueue :=
  {| pq_processCap := pq_processCap q; pq_threadCount := pq_threadCount q;
     pq_threads := pq_threads q; pq_runQueue := pq_runQueue q;
     pq_procPool := pq_procPool q; pq_processes := pq_processes q;
     pq_procCount := pq_procCount q; pq_state := pq_state q;
     pq_currentProcess := m |}.

(** *** The three kinds of queue of a runtime *)

Inductive QueueLoc : Type :=
| QRun
| QPool
| QInbox (i : nat).

(** *** Observable steps

    The model records, in program order, the steps the claims speak
    about: lock operations, generation bumps, calls of user functions,
    queue operations, frees, joins and yields. *)
Inductive Event : Type :=
| EvLock (i : nat)
| EvTryLock (i : nat) (ok : bool)
| EvUnlock (i : nat)
| EvGen (i : nat) (g : Z)
| EvHandler (i : nat) (f : nat) (rs : ProcessState) (state msg : ptr)
    (r : ProcessContinuation)
| EvReleaseState (f : nat) (x : ptr)
| EvElementRelease (f : nat) (x : ptr)
| EvPush (q : QueueLoc) (x : ptr) (ok : bool)
| EvPop (q : QueueLoc) (x : ptr)
| EvFree (q : QueueLoc)
| EvJoin (t : nat)
| EvYield.

(** *** User code

    Handlers and destructors are the user's.  A destructor acts on user
    memory [U] only.  A handler receives the runtime and may call back into
    it, so it acts on the runtime and on user memory; it is run by thread
    [tid] on [(state, msg)]. *)
Class UserCode (U : Type) : Type := {
  user_release : nat -> ptr -> U -> U;
  user_handler : nat -> nat -> ptr -> ptr -> ProcessQueue -> U ->
                 Res (ProcessContinuation * ProcessQueue * U)
}.

Record World (U : Type) : Type := mkWorld {
  w_pq : ProcessQueue;
  w_user : U;
  w_trace : list Event
}.
Arguments mkWorld {U} _ _ _.
Arguments w_pq {U} _.
Arguments w_user {U} _.
Arguments w_trace {U} _.

(** ** The functions of the runtime *)

Section Runtime.

Context {U : Type} {UC : UserCode U}.

(** Code that reads and writes the program state and may fault or spin. *)
Definition M (A : Type) : Type := World U -> Res (A * World U).

Definition ret {A : Type} (a : A) : M A := fun w => Ok (a, w).

Definition bind {A B : Type} (m : M A) (k : A -> M B) : M B :=
  fun w =>
    match m w with
    | Ok (a, w') => k a w'
    | Fault => Fault
    | OutOfFuel => OutOfFuel
    end.

Definition fault {A : Type} : M A := fun _ => Fault.

Definition out_of_fuel {A : Type} : M A := fun _ => OutOfFuel.

Definition lift {A : Type} (r : Res A) : M A :=
  fun w =>
    match r with
    | Ok a => Ok (a, w)
    | Fault => Fault
    | OutOfFuel => OutOfFuel
    end.

Notation "'do' x <- m ; k" := (bind m (fun x => k))
  (at level 10, x name, m at level 100, k at level 200).

Definition get_pq : M ProcessQueue := fun w => Ok (w_pq w, w).

Definition modify_pq (f : ProcessQueue -> ProcessQueue) : M unit :=
  fun w => Ok (tt, mkWorld (f (w_pq w)) (w_user w) (w_trace w)).

Definition modify_user (f : U -> U) : M unit :=
  fun w => Ok (tt, mkWorld (w_pq w) (f (w_user w)) (w_trace w)).

Definition emit (e : Event) : M unit :=
  fun w => Ok (tt, mkWorld (w_pq w) (w_user w) (w_trace w ++ [e])).

(** [dq->processes[i]], read and written through a [Process*]. *)
Definition get_proc (i : nat) : M Process :=
  do q <- get_pq;
  match pq_processes q !! i with
  | Some p => ret p
  | None => fault
  end.

Definition modify_proc (i : nat) (f : Process -> Process) : M unit :=
  do p <- get_proc i;
  modify_pq (fun q => set_processes (<[i := f p]> (pq_processes q)) q).

(** The cast of a [void*] to a pointer to [Process], then a dereference. *)
Definition as_proc (p : ptr) : M nat :=
  match p with
  | PProc i => ret i
  | _ => fault
  end.

Definition get_queue (loc : QueueLoc) : M BoundedQueue :=
  match loc with
  | QRun => do q <- get_pq; ret (pq_runQueue q)
  | QPool => do q <- get_pq; ret (pq_procPool q)
  | QInbox i => do p <- get_proc i; ret (p_messageQueue p)
  end.

Definition set_queue (loc : QueueLoc) (bq : BoundedQueue) : M unit :=
  match loc with
  | QRun => modify_pq (set_runQueue bq)
  | QPool => modify_pq (set_procPool bq)
  | QInbox i => modify_proc i (set_messageQueue bq)
  end.

(** [BoundedQueue_push(&q, x)] and [BoundedQueue_pop(&q)] on a queue of the
    runtime. *)
Definition push_at (fuel : nat) (loc : QueueLoc) (x : ptr) : M bool :=
  do bq <- get_queue loc;
  do r <- lift (BoundedQueue_push fuel bq x);
  do _ <- set_queue loc (snd r);
  do _ <- emit (EvPush loc x (fst r));
  ret (fst r).

Definition pop_at (fuel : nat) (loc : QueueLoc) : M ptr :=
  do bq <- get_queue loc;
  do r <- lift (BoundedQueue_pop fuel bq);
  do _ <- set_queue loc (snd r);
  do _ <- emit (EvPop loc (fst r));
  ret (fst r).

(** [pthread_getspecific] and [pthread_setspecific] on [dq->currentProcess]
    for the calling thread. *)
Definition tls_get (tid : nat) : M ptr :=
  do q <- get_pq; ret (default NULL (pq_currentProcess q !! tid)).

Definition tls_set (tid : nat) (p : ptr) : M unit :=
  modify_pq (fun q => set_currentProcess (<[tid := p]> (pq_currentProcess q)) q).

(** Calls of user destructors. *)
Definition call_releaseState (f : nat) (x : ptr) : M unit :=
  do _ <- emit (EvReleaseState f x); modify_user (user_release f x).

(** A call through [bq->elementRelease].  [pr] is what the pointer to
    [processRelease] does. *)
Definition call_elementRelease (pr : ptr -> M unit) (er : ElementRelease)
    (x : ptr) : M unit :=
  match er with
  | ER_NULL => fault
  | ER_processRelease => pr x
  | ER_user f =>
      do _ <- emit (EvElementRelease f x); modify_user (user_release f x)
  end.

(** The loop of [BoundedQueue_release]:
    [while( (element = BoundedQueue_pop(bq)) ) bq->elementRelease(element);] *)
Fixpoint release_loop (pr : ptr -> M unit) (n fuel : nat) (loc : QueueLoc)
  : M unit :=
  match n with
  | O => out_of_fuel
  | S n' =>
      do element <- pop_at fuel loc;
      if is_null element then ret tt
      else
        do bq <- get_queue loc;
        do _ <- call_elementRelease pr (bq_elementRelease bq) element;
        release_loop pr n' fuel loc
  end.

Definition BoundedQueue_release (pr : ptr -> M unit) (fuel : nat)
    (loc : QueueLoc) : M unit :=
  do bq <- get_queue loc;
  do _ <- match bq_elementRelease bq with
  | ER_NULL => ret tt
  | _ => release_loop pr fuel fuel loc
  end;
  do bq <- get_queue loc;
  do _ <- set_queue loc (set_elements None bq);
  emit (EvFree loc).

(** A call of the user handler [f] of slot [i]; the step recorded carries
    the running state the process was dispatched in. *)
Definition call_handler (i f : nat) (tid : nat) (rs : ProcessState)
    (state msg : ptr) : M ProcessContinuation :=
  fun w =>
    match user_handler f tid state msg (w_pq w) (w_user w) with
    | Ok (r, q, u) =>
        Ok (r, mkWorld q u (w_trace w ++ [EvHandler i f rs state msg r]))
    | Fault => Fault
    | OutOfFuel => OutOfFuel
    end.

(** [atomic_fetch_add(&proc->gen, 1)] on slot [i]. *)
Definition fetch_add_gen (i : nat) : M unit :=
  do p <- get_proc i;
  do _ <- modify_proc i (set_gen (wrap32 (p_gen p + 1)));
  emit (EvGen i (wrap32 (p_gen p + 1))).

(** [processRelease].  The inbox of a process carries a user destructor or
    none: [processRelease] is [static] and [ProcessQueue_spawn] installs
    [parameters->messageRelease]; a pointer to [processRelease] there would
    be called on a message, which is a fault. *)
Definition processRelease (fuel : nat) (proc : ptr) : M unit :=
  do i <- as_proc proc;
  do p <- get_proc i;
  do l <- lift (spinLock fuel (p_releaseLock p));
  do _ <- modify_proc i (set_releaseLock l);
  do _ <- emit (EvLock i);
  do _ <- fetch_add_gen i;
  do p <- get_proc i;
  do _ <- match p_releaseState p with
  | Some f => call_releaseState f (p_state p)
  | None => ret tt
  end;
  do _ <- BoundedQueue_release (fun _ => fault) fuel (QInbox i);
  do p <- get_proc i;
  do _ <- match p_processQueue p with
  | PQ_NULL => fault
  | PQ_this => do _ <- push_at fuel QPool proc; ret tt
  end;
  do p <- get_proc i;
  do l <- lift (spinUnlock fuel (p_releaseLock p));
  do _ <- modify_proc i (set_releaseLock l);
  emit (EvUnlock i).

(** [handleProcess], run by worker thread [tid]. *)
Definition handleProcess (fuel : nat) (tid : nat) (proc : ptr) (msg : ptr)
  : M bool :=
  do _ <- tls_set tid proc;
  do i <- as_proc proc;
  do p <- get_proc i;
  match p_handler p with
  | None => fault
  | Some f =>
      do r <- call_handler i f tid (p_runningState p) (p_state p) msg;
      match r with
      | PCT_STOP => do _ <- processRelease fuel proc; ret false
      | PCT_WAIT_MESSAGE =>
          do _ <- modify_proc i (set_runningState PS_WAITING); ret true
      | PCT_CONTINUE =>
          do _ <- modify_proc i (set_runningState PS_RUNNING); ret true
      end
  end.

(** The inner loop of [threadWorker]:
    [while( msgCount < proc->maxMessagePerCycle && pushActorBack )]. *)
Fixpoint batch_loop (n fuel : nat) (tid : nat) (proc : ptr) (msgCount : Z)
    (pushActorBack : bool) : M bool :=
  match n with
  | O => out_of_fuel
  | S n' =>
      do i <- as_proc proc;
      do p <- get_proc i;
      if (msgCount <? p_maxMessagePerCycle p) && pushActorBack then
        match p_runningState p with
        | PS_RUNNING =>
            do b <- handleProcess fuel tid proc NULL;
            batch_loop n' fuel tid proc (wrap32 (msgCount + 1)) b
        | PS_WAITING =>
            do msg <- pop_at fuel (QInbox i);
            if is_null msg then ret pushActorBack
            else
              do b <- handleProcess fuel tid proc msg;
              batch_loop n' fuel tid proc (wrap32 (msgCount + 1)) b
        end
      else ret pushActorBack
  end.

(** [while( BoundedQueue_push(&q, x) == false ) pthread_yield();] *)
Fixpoint push_retry (n fuel : nat) (loc : QueueLoc) (x : ptr) : M unit :=
  match n with
  | O => out_of_fuel
  | S n' =>
      do ok <- push_at fuel loc x;
      if ok then ret tt
      else do _ <- emit EvYield; push_retry n' fuel loc x
  end.

(** [while( (proc = BoundedQueue_pop(&q)) == NULL ) pthread_yield();] *)
Fixpoint pop_retry (n fuel : nat) (loc : QueueLoc) : M ptr :=
  match n with
  | O => out_of_fuel
  | S n' =>
      do x <- pop_at fuel loc;
      if is_null x then do _ <- emit EvYield; pop_retry n' fuel loc
      else ret x
  end.

(** One iteration of the outer loop of [threadWorker]: the visit of one
    process. *)
Definition worker_visit (fuel : nat) (tid : nat) : M unit :=
  do proc <- pop_at fuel QRun;
  if is_null proc then emit EvYield
  else
    do pushActorBack <- batch_loop fuel fuel tid proc 0 true;
    if pushActorBack then push_retry fuel fuel QRun proc
    else
      do q <- get_pq;
      modify_pq (set_procCount (wrap32 (pq_procCount q - 1))).

Fixpoint threadWorker (n fuel : nat) (tid : nat) : M unit :=
  match n with
  | O => out_of_fuel
  | S n' =>
      do q <- get_pq;
      match pq_state q with
      | DQS_RUNNING => do _ <- worker_visit fuel tid; threadWorker n' fuel tid
      | DQS_STOPPED => ret tt
      end
  end.

(** [pthread_join] on every worker; joining a thread twice is undefined. *)
Fixpoint join_threads (threads : list ThreadState) (t : nat)
  : M (list ThreadState) :=
  match threads with
  | [] => ret []
  | TH_RUNNING :: rest =>
      do _ <- emit (EvJoin t);
      do rest' <- join_threads rest (S t);
      ret (TH_JOINED :: rest')
  | TH_JOINED :: _ => fault
  end.

Definition ProcessQueue_release (fuel : nat) : M unit :=
  do q <- get_pq;
  match pq_state q with
  | DQS_RUNNING =>
      do _ <- modify_pq (set_state DQS_STOPPED);
      do q <- get_pq;
      do threads <- join_threads (pq_threads q) 0%nat;
      do _ <- modify_pq (set_threads threads);
      BoundedQueue_release (processRelease fuel) fuel QRun
  | DQS_STOPPED => ret tt
  end.

Definition Process_sendMessage (fuel : nat) (dest : PID) (message : ptr)
    (ma : MessageAction) : M SendResult :=
  match pid_pq dest with
  | PQ_NULL => fault
  | PQ_this =>
      let i := Z.to_nat (pid_id dest) in
      do destProc <- get_proc i;
      let '(locked, l) := spinTryLock (p_releaseLock destProc) in
      do _ <- modify_proc i (set_releaseLock l);
      do _ <- emit (EvTryLock i locked);
      if locked then
        do destProc <- get_proc i;
        if negb (pid_gen dest =? p_gen destProc) then
          do l <- lift (spinUnlock fuel (p_releaseLock destProc));
          do _ <- modify_proc i (set_releaseLock l);
          do _ <- emit (EvUnlock i);
          ret ACTOR_IS_DEAD
        else
          do ok <- push_at fuel (QInbox i) message;
          if ok then ret SEND_SUCCESS
          else
            do _ <- match ma with
            | MA_KEEP => ret tt
            | MA_REMOVE =>
                do destProc <- get_proc i;
                call_elementRelease (fun _ => fault)
                  (bq_elementRelease (p_messageQueue destProc)) message
            end;
            ret SEND_FAIL
      else ret SEND_FAIL
  end.

Definition Process_receiveMessage (fuel : nat) (tid : nat) : M ptr :=
  do proc <- tls_get tid;
  do i <- as_proc proc;
  pop_at fuel (QInbox i).

Definition Process_self (tid : nat) : M PID :=
  do proc <- tls_get tid;
  do i <- as_proc proc;
  do p <- get_proc i;
  ret {| pid_pq := PQ_this; pid_id := p_id p; pid_gen := p_gen p |}.

(** [Process_parent].  The source declares the parameter [PID proc], then
    declares a local [proc] and uses [dq], which is not in scope; the body
    is read like that of its sibling [Process_self], with [dq] the runtime. *)
Definition Process_parent (tid : nat) : M PID :=
  do proc <- tls_get tid;
  do i <- as_proc proc;
  do p <- get_proc i;
  do j <- as_proc (p_parent p);
  do parent <- get_proc j;
  ret {| pid_pq := PQ_this; pid_id := p_id parent; pid_gen := p_gen parent |}.

Definition ProcessQueue_spawn (fuel : nat) (tid : nat)
    (parameters : ProcessSpawnParameters) : M PID :=
  do q <- get_pq;
  let procCount := pq_procCount q in
  do _ <- modify_pq (set_procCount (wrap32 (procCount + 1)));
  if procCount <? pq_processCap q then
    do proc <- pop_retry fuel fuel QPool;
    do parent <- tls_get tid;
    do i <- as_proc proc;
    do _ <- modify_proc i (fun p =>
      {| p_id := p_id p;
         p_gen := p_gen p;
         p_parent := parent;
         p_processQueue := PQ_this;
         p_handler := sp_handler parameters;
         p_releaseState := sp_releaseState parameters;
         p_state := sp_initialState parameters;
         p_runningState := PS_RUNNING;
         p_maxMessagePerCycle :=
           if sp_messageCap parameters >? sp_maxMessagePerCycle parameters
           then sp_maxMessagePerCycle parameters
           else sp_messageCap parameters;
         p_messageQueue :=
           BoundedQueue_init (sp_messageCap parameters)
             (ElementRelease_of (sp_messageRelease parameters));
         p_releaseLock := false |});
    do _ <- push_retry fuel fuel QRun proc;
    do p <- get_proc i;
    ret {| pid_pq := PQ_this; pid_id := p_id p; pid_gen := p_gen p |}
  else
    do q <- get_pq;
    do _ <- modify_pq (set_procCount (wrap32 (pq_procCount q - 1)));
    do _ <- match sp_releaseState parameters with
    | Some f => call_releaseState f (sp_initialState parameters)
    | None => ret tt
    end;
    ret null_PID.

End Runtime.

(** [ProcessQueue_init]: the pool is filled with every slot of the table.
    The worker threads it starts are the [TH_RUNNING] entries. *)
Fixpoint fill_pool (fuel : nat) (slots : list nat) (pool : BoundedQueue)
  : Res BoundedQueue :=
  match slots with
  | [] => Ok pool
  | p :: rest =>
      match BoundedQueue_push fuel pool (PProc p) with
      | Ok (_, pool') => fill_pool fuel rest pool'
      | Fault => Fault
      | OutOfFuel => OutOfFuel
      end
  end.

Definition ProcessQueue_init (fuel : nat) (procCap threadCount : Z)
  : Res ProcessQueue :=
  match fill_pool fuel (seq 0 (Z.to_nat procCap))
          (BoundedQueue_init procCap ER_NULL) with
  | Ok pool =>
      Ok {| pq_processCap := procCap;
            pq_threadCount := threadCount;
            pq_threads := replicate (Z.to_nat threadCount) TH_RUNNING;
            pq_runQueue := BoundedQueue_init procCap ER_processRelease;
            pq_procPool := pool;
            pq_processes :=
              map (fun p : nat => set_gen 0
                     (mkProcess (Z.of_nat p) 0 NULL PQ_NULL None None NULL
                        PS_RUNNING 0 BoundedQueue_zero false))
                  (seq 0 (Z.to_nat procCap));
            pq_procCount := 0;
            pq_state := DQS_RUNNING;
            pq_currentProcess := ∅ |}
  | Fault => Fault
  | OutOfFuel => OutOfFuel
  end.

(** The world after the store [dq->processes[i] = p']. *)
Definition with_proc {U : Type} (i : nat) (p' : Process) (w : World U)
  : World U :=
  mkWorld (set_processes (<[i := p']> (pq_processes (w_pq w))) (w_pq w))
          (w_user w) (w_trace w).

(** The queue at a location, and the world after a store to it. *)
Definition queue_of {U : Type} (loc : QueueLoc) (w : World U)
  : option BoundedQueue :=
  match loc with
  | QRun => Some (pq_runQueue (w_pq w))
  | QPool => Some (pq_procPool (w_pq w))
  | QInbox i => p_messageQueue <$> pq_processes (w_pq w) !! i
  end.

Definition with_queue {U : Type} (loc : QueueLoc) (bq : BoundedQueue)
    (w : World U) : World U :=
  match loc with
  | QRun => mkWorld (set_runQueue bq (w_pq w)) (w_user w) (w_trace w)
  | QPool => mkWorld (set_procPool bq (w_pq w)) (w_user w) (w_trace w)
  | QInbox i =>
      match pq_processes (w_pq w) !! i with
      | Some p => with_proc i (set_messageQueue bq p) w
      | None => w
      end
  end.

(** The world after the steps [es] were recorded. *)
Definition add_trace {U : Type} (es : list Event) (w : World U) : World U :=
  mkWorld (w_pq w) (w_user w) (w_trace w ++ es).

(** The runtime after thread [tid] stored slot [i] in its thread-specific
    key. *)
Definition entered (tid i : nat) (q : ProcessQueue) : ProcessQueue :=
  set_currentProcess (<[tid := PProc i]> (pq_currentProcess q)) q.

(** The world after user code changed user memory. *)
Definition with_user {U : Type} (u : U) (w : World U) : World U :=
  mkWorld (w_pq w) u (w_trace w).

(** The steps recorded while a queue that stores [msgs] is drained through
    the user destructor [f], and what the destructor calls do to user
    memory. *)
Definition drain_events (loc : QueueLoc) (f : nat) (msgs : list ptr)
  : list Event :=
  flat_map (fun m => [EvPop loc m; EvElementRelease f m]) msgs
  ++ [EvPop loc NULL].

Definition released {U : Type} {UC : UserCode U} (f : nat) (msgs : list ptr)
    (u : U) : U :=
  fold_left (fun u m => user_release f m u) msgs u.

(** What a retirement records and does to user memory: the destructor of
    the user state, if any, then the drain of the inbox through its
    destructor, if any. *)
Definition state_events (rs : option nat) (st : ptr) : list Event :=
  match rs with
  | Some f => [EvReleaseState f st]
  | None => []
  end.

Definition inbox_events (i : nat) (fm : option nat) (msgs : list ptr)
  : list Event :=
  match fm with
  | Some f => drain_events (QInbox i) f msgs
  | None => []
  end.

Definition retire_events (i : nat) (p : Process) (fm : option nat)
    (msgs : list ptr) : list Event :=
  [EvLock i; EvGen i (wrap32 (p_gen p + 1))]
  ++ state_events (p_releaseState p) (p_state p)
  ++ inbox_events i fm msgs
  ++ [EvFree (QInbox i); EvPush QPool (PProc i) true; EvUnlock i].

Definition retire_user {U : Type} {UC : UserCode U} (p : Process)
    (fm : option nat) (msgs : list ptr) (u : U) : U :=
  let u1 := match p_releaseState p with
            | Some f => user_release f (p_state p) u
            | None => u
            end in
  match fm with
  | Some f => released f msgs u1
  | None => u1
  end.

(** The slot [p] once retired: generation bumped, inbox [inbox'] freed,
    lock released. *)
Definition retired_slot (p : Process) (inbox' : BoundedQueue) : Process :=
  set_releaseLock false
    (set_messageQueue (set_elements None inbox')
       (set_gen (wrap32 (p_gen p + 1)) p)).

(** ** What a worker visit relies on *)

(** A queue that is well formed and can take one more payload. *)
Definition has_room (bq : BoundedQueue) : Prop :=
  exists F l,
    queue_rep bq F l /\
    Z.of_nat (length l) < bq_cap bq /\
    wrap_safe (bq_cap bq) (F + Z.of_nat (length l) + 1).






Definition is_stop (e : Event) : bool :=
  match e with
  | EvHandler _ _ _ _ _ PCT_STOP => true
  | _ => false
  end.

Definition stop_returned (evs : list Event) : bool :=
  existsb is_stop evs.

(** ** Executions of the runtime *)

(** The calls a sequential execution is made of: calls of the public
    functions by thread [tid], and visits of a worker (one iteration of the
    outer loop of [threadWorker]). *)
Inductive Call : Type :=
| CSpawn (tid : nat) (parameters : ProcessSpawnParameters)
| CSend (dest : PID) (message : ptr) (ma : MessageAction)
| CReceive (tid : nat)
| CSelf (tid : nat)
| CParent (tid : nat)
| CVisit (tid : nat)
| CRelease.

Definition run_call {U : Type} {UC : UserCode U} (fuel : nat) (c : Call)
  : M unit :=
  match c with
  | CSpawn tid parameters =>
      bind (ProcessQueue_spawn fuel tid parameters) (fun _ => ret tt)
  | CSend dest message ma =>
      bind (Process_sendMessage fuel dest message ma) (fun _ => ret tt)
  | CReceive tid => bind (Process_receiveMessage fuel tid) (fun _ => ret tt)
  | CSelf tid => bind (Process_self tid) (fun _ => ret tt)
  | CParent tid => bind (Process_parent tid) (fun _ => ret tt)
  | CVisit tid => worker_visit fuel tid
  | CRelease => ProcessQueue_release fuel
  end.

Fixpoint run_calls {U : Type} {UC : UserCode U} (fuel : nat) (cs : list Call)
  : M unit :=
  match cs with
  | [] => ret tt
  | c :: cs' => bind (run_call fuel c) (fun _ => run_calls fuel cs')
  end.

(** Number of generation bumps of slot [i] among recorded steps. *)
Definition is_bump (i : nat) (e : Event) : bool :=
  match e with
  | EvGen j _ => Nat.eqb j i
  | _ => false
  end.

Definition gen_bumps (i : nat) (evs : list Event) : nat :=
  length (List.filter (is_bump i) evs).

(** The generation [g] after [k] increments of the 32-bit counter. *)
Definition gen_after (k : nat) (g : Z) : Z :=
  Nat.iter k (fun g => wrap32 (g + 1)) g.

(** How the runtime may change between two points of an execution in
    which slot [i] was retired [bumps i] times: every slot stays, keeps its
    id, and its generation has been incremented [bumps i] times; a stopped
    runtime stays stopped; a joined thread stays joined. *)
Definition pq_evolves (bumps : nat -> nat) (q q' : ProcessQueue) : Prop :=
  (forall i p, pq_processes q !! i = Some p ->
     exists p', pq_processes q' !! i = Some p' /\
                p_id p' = p_id p /\
                p_gen p' = gen_after (bumps i) (p_gen p)) /\
  (pq_state q = DQS_STOPPED -> pq_state q' = DQS_STOPPED) /\
  (forall t, pq_threads q !! t = Some TH_JOINED ->
             pq_threads q' !! t = Some TH_JOINED).

Definition evolves {U : Type} (w w' : World U) : Prop :=
  exists evs,
    w_trace w' = w_trace w ++ evs /\
    pq_evolves (fun i => gen_bumps i evs) (w_pq w) (w_pq w').

(** Handlers that leave ids and generations alone and neither restart the
    runtime nor revive a thread; the public functions a handler can call
    ([ProcessQueue_spawn], [Process_sendMessage], [Process_receiveMessage],
    [Process_self], [Process_parent]) are of that kind. *)
Definition handlers_evolve {U : Type} {UC : UserCode U} : Prop :=
  forall f tid st msg q u r q' u',
    user_handler f tid st msg q u = Ok (r, q', u') ->
    pq_evolves (fun _ => 0%nat) q q'.

(** Code that leaves the world in the relation [R] whenever it returns. *)
Definition respects {U A : Type} (R : World U -> World U -> Prop)
    (m : World U -> Res (A * World U)) : Prop :=
  forall w a w', m w = Ok (a, w') -> R w w'.

(** The slot [p] as [ProcessQueue_spawn] populates it. *)
Definition spawned_slot (parent : ptr) (parameters : ProcessSpawnParameters)
    (p : Process) : Process :=
  {| p_id := p_id p;
     p_gen := p_gen p;
     p_parent := parent;
     p_processQueue := PQ_this;
     p_handler := sp_handler parameters;
     p_releaseState := sp_releaseState parameters;
     p_state := sp_initialState parameters;
     p_runningState := PS_RUNNING;
     p_maxMessagePerCycle :=
       if sp_messageCap parameters >? sp_maxMessagePerCycle parameters
       then sp_maxMessagePerCycle parameters
       else sp_messageCap parameters;
     p_messageQueue :=
       BoundedQueue_init (sp_messageCap parameters)
         (ElementRelease_of (sp_messageRelease parameters));
     p_releaseLock := false |}.

(** The world after a store to [dq->procCount]. *)
Definition with_procCount {U : Type} (c : Z) (w : World U) : World U :=
  mkWorld (set_procCount c (w_pq w)) (w_user w) (w_trace w).

(** ** A sample of user code and of runtimes

    Used to run the theorems on concrete inputs.  User memory counts the
    destructor calls; handler 0 stops at once, handler 1 waits for a
    message, every other handler continues.  None calls back into the
    runtime. *)
Definition sample_code : UserCode nat :=
  {| user_release := fun _ _ u => S u;
     user_handler := fun f _ _ _ q u =>
       Ok (match f with
           | O => PCT_STOP
           | S O => PCT_WAIT_MESSAGE
           | _ => PCT_CONTINUE
           end, q, u) |}.

(** Spawn parameters: handler [h], a state with destructor 7, an inbox of
    four messages with destructor 8, batches of three. *)
Definition sample_parameters (h : nat) : ProcessSpawnParameters :=
  {| sp_handler := Some h;
     sp_initialState := PUser 100;
     sp_releaseState := Some 7%nat;
     sp_messageRelease := Some 8%nat;
     sp_messageCap := 4;
     sp_maxMessagePerCycle := 3 |}.

Definition no_runtime : ProcessQueue :=
  mkProcessQueue 0 0 [] BoundedQueue_zero BoundedQueue_zero [] 0 DQS_STOPPED ∅.

(** The world reached from [ProcessQueue_init procCap 1] by the calls [cs]
    with the sample code ([no_runtime] if a call does not return). *)
Definition sample_world (procCap : Z) (cs : list Call) : World nat :=
  match ProcessQueue_init 2 procCap 1 with
  | Ok q =>
      match run_calls (UC := sample_code) 8 cs (mkWorld q O []) with
      | Ok (_, w) => w
      | _ => mkWorld no_runtime O []
      end
  | _ => mkWorld no_runtime O []
  end.

(** The main thread is thread 9; the worker is thread 0. *)
Definition main_thread : nat := 9%nat.


(** ** Checking the abstraction on a concrete queue

    [check_rep bq F l] decides sufficient conditions for [queue_rep bq F l]
    on a queue whose counters have not wrapped. *)
Definition check_slot (cap F : Z) (l : list ptr) (els : list Element)
    (k : nat) : bool :=
  let p := F + Z.of_nat k in
  match els !! slot_of cap p with
  | None => false
  | Some el =>
      if p <? F + Z.of_nat (length l)
      then (el_seq el =? wrap32 (p + 1)) &&
           bool_decide (l !! Z.to_nat (p - F) = Some (el_data el))
      else el_seq el =? wrap32 p
  end.

Definition check_rep (bq : BoundedQueue) (F : Z) (l : list ptr) : bool :=
  (1 <=? bq_cap bq) && (bq_cap bq <=? 2147483648) && (0 <=? F) &&
  (Z.of_nat (length l) <=? bq_cap bq) &&
  (bq_first bq =? wrap32 F) &&
  (bq_last bq =? wrap32 (F + Z.of_nat (length l))) &&
  (F + Z.of_nat (length l) + bq_cap bq <? 4294967296) &&
  match bq_elements bq with
  | None => false
  | Some els =>
      Nat.eqb (length els) (Z.to_nat (bq_cap bq)) &&
      forallb (check_slot (bq_cap bq) F l els) (seq 0 (Z.to_nat (bq_cap bq)))
  end.


(** The world after thread [tid] made slot [i] its current process. *)
Definition with_entered {U : Type} (tid i : nat) (w : World U) : World U :=
  mkWorld (entered tid i (w_pq w)) (w_user w) (w_trace w).

(** ** Churning one slot *)

(** On a runtime with a single slot: the worker visits the process, whose
    handler (sample handler 0) stops it at once, and the main thread spawns
    the next process in the slot just freed. *)
Definition churn : list Call :=
  [CVisit 0%nat; CSpawn main_thread (sample_parameters 0)].

Definition churns (n : N) : list Call := N.iter n (app churn) [].

(** Slot 0 as [ProcessQueue_spawn] leaves it for [sample_parameters h] when
    the slot's generation is [g]. *)
Definition live_slot (h : nat) (g : Z) : Process :=
  spawned_slot NULL (sample_parameters h) (set_gen g Process_zero).

(** The single-slot runtime after [k] churns: slot 0 is live with generation
    [k] modulo [2^32] and is the only entry of the run queue; the pool is
    empty. *)
Record churn_inv (k : Z) (w : World nat) : Prop := {
  ci_cap : pq_processCap (w_pq w) = 1;
  ci_count : pq_procCount (w_pq w) = 1;
  ci_pool : queue_rep (pq_procPool (w_pq w)) (k + 1) [];
  ci_pool_cap : bq_cap (pq_procPool (w_pq w)) = 1;
  ci_run : queue_rep (pq_runQueue (w_pq w)) k [PProc 0];
  ci_run_cap : bq_cap (pq_runQueue (w_pq w)) = 1;
  ci_slot : pq_processes (w_pq w) !! 0%nat = Some (live_slot 0 (wrap32 k));
  ci_main : pq_currentProcess (w_pq w) !! main_thread = None
}.

(** The slot table as [ProcessQueue_init] lays it out and every function
    keeps it: the id of a slot is its index, and generations are 32-bit
    values. *)
Definition slots_wf (q : ProcessQueue) : Prop :=
  forall i p, pq_processes q !! i = Some p ->
    p_id p = Z.of_nat i /\ 0 <= p_gen p < 4294967296.

(** A slot that [processRelease] can retire with fuel [fuel]: it points back
    to the runtime, and its inbox has no destructor or is a well-formed
    queue of non-null messages short enough to be drained. *)
Definition retirable (fuel : nat) (p : Process) : Prop :=
  p_processQueue p = PQ_this /\
  exists fm F msgs,
    bq_elementRelease (p_messageQueue p) = ElementRelease_of fm /\
    (fm <> None ->
     queue_rep (p_messageQueue p) F msgs /\
     Forall (fun m => m <> NULL) msgs) /\
    (length msgs + 2 <= fuel)%nat.

(** ** Spawning several processes *)

(** [ProcessQueue_spawn] called by thread [tid] once for each entry of
    [ps], in order; the PIDs it returns. *)
Fixpoint spawn_many {U : Type} {UC : UserCode U} (fuel tid : nat)
    (ps : list ProcessSpawnParameters) : M (list PID) :=
  match ps with
  | [] => ret []
  | parameters :: ps' =>
      bind (ProcessQueue_spawn fuel tid parameters) (fun pid =>
        bind (spawn_many fuel tid ps') (fun pids => ret (pid :: pids)))
  end.

(** A runtime in which the first [k] slots are live, in spawn order on the
    run queue, and the others are in the pool. *)
Record filled (cap : Z) (k : nat) (q : ProcessQueue) : Prop := {
  fl_cap : pq_processCap q = cap;
  fl_count : pq_procCount q = Z.of_nat k;
  fl_pool : queue_rep (pq_procPool q) (Z.of_nat k)
              (map PProc (seq k (Z.to_nat cap - k)));
  fl_pool_cap : bq_cap (pq_procPool q) = cap;
  fl_run : queue_rep (pq_runQueue q) 0 (map PProc (seq 0 k));
  fl_run_cap : bq_cap (pq_runQueue q) = cap;
  fl_slots : forall i, (i < Z.to_nat cap)%nat ->
               exists p, pq_processes q !! i = Some p /\
                         p_id p = Z.of_nat i /\ p_gen p = 0
}.

(** The sample runtime after its first spawn (handler [h]), with the inbox
    of process 0 filled to its capacity by hand. *)
Definition sample_full_inbox (h : nat) : World nat :=
  let w := sample_world 2 [CSpawn main_thread (sample_parameters h)] in
  match pq_processes (w_pq w) !! 0%nat,
        run_queue 1 (BoundedQueue_init 4 (ER_user 8))
          [QPush (PUser 1); QPush (PUser 2); QPush (PUser 3); QPush (PUser 4)]
  with
  | Some p, Ok (_, bq) => with_proc 0 (set_messageQueue bq p) w
  | _, _ => w
  end.

(** Parameters with a batch bound of 0, and parameters without a handler. *)
Definition sample_parameters_no_batch : ProcessSpawnParameters :=
  {| sp_handler := Some 2%nat;
     sp_initialState := PUser 100;
     sp_releaseState := Some 7%nat;
     sp_messageRelease := Some 8%nat;
     sp_messageCap := 4;
     sp_maxMessagePerCycle := 0 |}.

Definition sample_parameters_no_handler : ProcessSpawnParameters :=
  {| sp_handler := None;
     sp_initialState := PUser 100;
     sp_releaseState := Some 7%nat;
     sp_messageRelease := Some 8%nat;
     sp_messageCap := 4;
     sp_maxMessagePerCycle := 3 |}.

(** Parameters with an inbox of capacity 0. *)
Definition sample_parameters_no_inbox : ProcessSpawnParameters :=
  {| sp_handler := Some 2%nat;
     sp_initialState := PUser 100;
     sp_releaseState := Some 7%nat;
     sp_messageRelease := Some 8%nat;
     sp_messageCap := 0;
     sp_maxMessagePerCycle := 3 |}.


(** ** A process that waits for ever *)



(** ** Churning three slots *)



(** End of the embedding. *)

(** * Theorems *)

Example push_pop_3 :
  match BoundedQueue_push 1 (BoundedQueue_init 3 ER_NULL) (PUser 7) with
  | Ok (true, q) => BoundedQueue_pop 1 q
  | _ => Fault
  end = Ok (PUser 7, mkBoundedQueue 1 1 3
              (Some [mkElement 3 (PUser 7); mkElement 1 NULL; mkElement 2 NULL])
              ER_NULL).
Proof. reflexivity. Qed.

(** ** Arithmetic of the 32-bit counters *)

Ltac zmod :=
  unfold wrap32, to_int32, diff_int32 in *; Z.div_mod_to_equations; lia.

Lemma wrap32_small z : 0 <= z < 4294967296 -> wrap32 z = z.
Proof. intros. unfold wrap32. apply Z.mod_small. lia. Qed.

Lemma wrap32_range z : 0 <= wrap32 z < 4294967296.
Proof. unfold wrap32. apply Z.mod_pos_bound. lia. Qed.

Lemma wrap32_add_l a b : wrap32 (wrap32 a + b) = wrap32 (a + b).
Proof. unfold wrap32. apply Zplus_mod_idemp_l. Qed.

Lemma to_int32_wrap32 z : to_int32 (wrap32 z) = to_int32 z.
Proof.
  unfold to_int32, wrap32.
  f_equal. rewrite Zplus_mod_idemp_l. reflexivity.
Qed.

Lemma to_int32_congr x r k :
  -2147483648 <= r < 2147483648 -> x = r + k * 4294967296 -> to_int32 x = r.
Proof.
  intros Hr ->. unfold to_int32.
  replace (r + k * 4294967296 + 2147483648)
    with (r + 2147483648 + k * 4294967296) by lia.
  rewrite Z_mod_plus_full, Z.mod_small; lia.
Qed.

Lemma to_int32_decomp x : exists k, to_int32 x = x + k * 4294967296.
Proof.
  unfold to_int32.
  exists (- ((x + 2147483648) / 4294967296)).
  pose proof (Z_div_mod_eq_full (x + 2147483648) 4294967296). lia.
Qed.

(** The signed difference of two counters is their true difference as long
    as that difference fits an [int32_t]. *)
Lemma diff_int32_spec a b :
  -2147483648 <= a - b < 2147483648 ->
  diff_int32 (wrap32 a) (wrap32 b) = a - b.
Proof.
  intros H. unfold diff_int32. rewrite !to_int32_wrap32.
  destruct (to_int32_decomp a) as [ka Ha], (to_int32_decomp b) as [kb Hb].
  apply to_int32_congr with (k := ka - kb); lia.
Qed.

Lemma mod_inj_window c a p q :
  0 < c -> a <= p < a + c -> a <= q < a + c -> p mod c = q mod c -> p = q.
Proof.
  intros Hc Hp Hq E.
  pose proof (Z_div_mod_eq_full p c). pose proof (Z_div_mod_eq_full q c).
  assert (c * (p / c - q / c) = p - q) by lia.
  assert (-1 < p / c - q / c < 1) by nia.
  assert (p / c - q / c = 0) by lia. nia.
Qed.

Lemma mod_wrap32_divide c z :
  0 < c -> (c | 4294967296) -> wrap32 z mod c = z mod c.
Proof.
  intros Hc Hd. unfold wrap32. apply Z.mod_mod_divide. exact Hd.
Qed.

(** ** One iteration of the queue loops *)

Lemma push_loop_take fuel bq el x :
  bq_cap bq <> 0 ->
  element_at bq (bq_last bq mod bq_cap bq) = Ok el ->
  diff_int32 (el_seq el) (bq_last bq) = 0 ->
  BoundedQueue_push (S fuel) bq x =
    Ok (true,
        {| bq_first := bq_first bq;
           bq_last := wrap32 (bq_last bq + 1);
           bq_cap := bq_cap bq;
           bq_elements :=
             store_element bq (bq_last bq mod bq_cap bq)
               (mkElement (wrap32 (bq_last bq + 1)) x);
           bq_elementRelease := bq_elementRelease bq |}).
Proof.
  intros Hc He Hd. unfold BoundedQueue_push. simpl.
  destruct (Z.eqb_spec (bq_cap bq) 0) as [|_]; [contradiction|].
  rewrite He, Hd. simpl. unfold cas. rewrite Z.eqb_refl. reflexivity.
Qed.

Lemma push_loop_full fuel bq el x :
  bq_cap bq <> 0 ->
  element_at bq (bq_last bq mod bq_cap bq) = Ok el ->
  diff_int32 (el_seq el) (bq_last bq) < 0 ->
  BoundedQueue_push (S fuel) bq x = Ok (false, bq).
Proof.
  intros Hc He Hd. unfold BoundedQueue_push. simpl.
  destruct (Z.eqb_spec (bq_cap bq) 0) as [|_]; [contradiction|].
  rewrite He.
  destruct (Z.eqb_spec (diff_int32 (el_seq el) (bq_last bq)) 0); [lia|].
  destruct (Z.ltb_spec (diff_int32 (el_seq el) (bq_last bq)) 0); [reflexivity|lia].
Qed.

Lemma pop_loop_take fuel bq el :
  bq_cap bq <> 0 ->
  element_at bq (bq_first bq mod bq_cap bq) = Ok el ->
  diff_int32 (el_seq el) (wrap32 (bq_first bq + 1)) = 0 ->
  BoundedQueue_pop (S fuel) bq =
    Ok (el_data el,
        {| bq_first := wrap32 (bq_first bq + 1);
           bq_last := bq_last bq;
           bq_cap := bq_cap bq;
           bq_elements :=
             store_element bq (bq_first bq mod bq_cap bq)
               (mkElement (wrap32 (bq_first bq + bq_cap bq)) (el_data el));
           bq_elementRelease := bq_elementRelease bq |}).
Proof.
  intros Hc He Hd. unfold BoundedQueue_pop. simpl.
  destruct (Z.eqb_spec (bq_cap bq) 0) as [|_]; [contradiction|].
  rewrite He, Hd. simpl. unfold cas. rewrite Z.eqb_refl. reflexivity.
Qed.

Lemma pop_loop_empty fuel bq el :
  bq_cap bq <> 0 ->
  element_at bq (bq_first bq mod bq_cap bq) = Ok el ->
  diff_int32 (el_seq el) (wrap32 (bq_first bq + 1)) < 0 ->
  BoundedQueue_pop (S fuel) bq = Ok (NULL, bq).
Proof.
  intros Hc He Hd. unfold BoundedQueue_pop. simpl.
  destruct (Z.eqb_spec (bq_cap bq) 0) as [|_]; [contradiction|].
  rewrite He.
  destruct (Z.eqb_spec (diff_int32 (el_seq el) (wrap32 (bq_first bq + 1))) 0); [lia|].
  destruct (Z.ltb_spec (diff_int32 (el_seq el) (wrap32 (bq_first bq + 1))) 0);
    [reflexivity|lia].
Qed.

(** ** The queue refines a bounded FIFO list *)

Lemma wrap_safe_slot cap L X :
  0 < cap -> wrap_safe cap L -> 0 <= X <= L -> wrap32 X mod cap = X mod cap.
Proof.
  intros Hc [Hd|Hs] HX.
  - apply mod_wrap32_divide; assumption.
  - rewrite wrap32_small; [reflexivity | lia].
Qed.

Lemma slot_of_inj cap a p q :
  0 < cap -> a <= p < a + cap -> a <= q < a + cap ->
  slot_of cap p = slot_of cap q -> p = q.
Proof.
  intros Hc Hp Hq E. unfold slot_of in E.
  apply (mod_inj_window cap a); try assumption.
  pose proof (Z.mod_pos_bound p cap Hc). pose proof (Z.mod_pos_bound q cap Hc).
  lia.
Qed.

Lemma slot_of_lt cap p : 0 < cap -> (slot_of cap p < Z.to_nat cap)%nat.
Proof.
  intros Hc. unfold slot_of. pose proof (Z.mod_pos_bound p cap Hc). lia.
Qed.

Lemma queue_rep_init cap rel :
  1 <= cap <= 2147483648 -> queue_rep (BoundedQueue_init cap rel) 0 [].
Proof.
  intros Hc. constructor; simpl; try lia; try reflexivity.
  - right. lia.
  - eexists. split; [reflexivity|]. split.
    + rewrite length_map, length_seq. reflexivity.
    + intros p Hp. exists (mkElement p NULL). split.
      * unfold slot_of. rewrite Z.mod_small by lia.
        rewrite list_lookup_fmap, lookup_seq_lt by lia. simpl.
        f_equal. f_equal. lia.
      * match goal with |- context [?a <? ?b] => destruct (Z.ltb_spec a b) end;
          [simpl in *; lia|].
        simpl. rewrite wrap32_small; [reflexivity | lia].
Qed.

Ltac ltb_in H :=
  simpl length in H;
  match type of H with
  | context [Z.ltb ?a ?b] =>
      first
        [ rewrite (proj2 (Z.ltb_lt a b)) in H by lia
        | rewrite (proj2 (Z.ltb_ge a b)) in H by lia ]
  end.

Ltac ltb_goal :=
  simpl length;
  match goal with
  | |- context [Z.ltb ?a ?b] =>
      first
        [ rewrite (proj2 (Z.ltb_lt a b)) by lia
        | rewrite (proj2 (Z.ltb_ge a b)) by lia ]
  end.

Lemma element_at_slot bq els cap p el :
  bq_elements bq = Some els -> els !! slot_of cap p = Some el ->
  element_at bq (p mod cap) = Ok el.
Proof.
  intros He Hl. unfold element_at. rewrite He. unfold slot_of in Hl.
  rewrite Hl. reflexivity.
Qed.

Lemma push_rep_ok fuel bq F l x :
  queue_rep bq F l ->
  Z.of_nat (length l) < bq_cap bq ->
  wrap_safe (bq_cap bq) (F + Z.of_nat (length l) + 1) ->
  exists bq',
    BoundedQueue_push (S fuel) bq x = Ok (true, bq') /\
    queue_rep bq' F (l ++ [x]) /\
    bq_cap bq' = bq_cap bq /\
    bq_elementRelease bq' = bq_elementRelease bq.
Proof.
  intros [Hcap HF Hlen Hfirst Hlast Hsafe (els & Hels & Hsize & Hslots)] Hroom Hsafe'.
  remember (F + Z.of_nat (length l)) as L eqn:HL.
  assert (Hidx : bq_last bq mod bq_cap bq = L mod bq_cap bq).
  { rewrite Hlast. apply (wrap_safe_slot _ L); [lia | assumption | lia]. }
  destruct (Hslots L) as (el & Hlk & Hel); [lia|].
  ltb_in Hel.
  eexists. split; [|split; [|split]].
  - apply push_loop_take with (el := el).
    + lia.
    + rewrite Hidx. eapply element_at_slot; eassumption.
    + rewrite Hel, Hlast. rewrite diff_int32_spec; lia.
  - constructor; simpl; try assumption.
    + rewrite length_app. simpl. lia.
    + rewrite length_app. simpl. rewrite Hlast, wrap32_add_l. f_equal. lia.
    + rewrite length_app. simpl.
      replace (F + Z.of_nat (length l + 1)) with (L + 1) by lia. assumption.
    + unfold store_element. rewrite Hels. eexists. split; [reflexivity|]. split.
      * rewrite length_insert. assumption.
      * intros p Hp. rewrite Hidx. fold (slot_of (bq_cap bq) L).
        rewrite length_app. simpl length.
        destruct (Z.eq_dec p L) as [->|Hne].
        -- eexists. split.
           ++ apply list_lookup_insert_eq. rewrite Hsize.
              apply slot_of_lt. lia.
           ++ ltb_goal. split.
              ** rewrite Hlast, wrap32_add_l. reflexivity.
              ** rewrite lookup_app_r by lia.
                 replace (Z.to_nat (L - F) - length l)%nat with 0%nat by lia.
                 reflexivity.
        -- destruct (Hslots p Hp) as (el' & Hlk' & Hel').
           exists el'. split.
           ++ rewrite list_lookup_insert_ne; [assumption|].
              intros E. apply Hne. symmetry.
              apply (slot_of_inj (bq_cap bq) F); [lia | lia | lia | assumption].
           ++ destruct (Z_lt_le_dec p L); ltb_in Hel'; ltb_goal.
              ** destruct Hel' as [Hs Hd]. split; [assumption|].
                 rewrite lookup_app_l by lia. assumption.
              ** assumption.
  - reflexivity.
  - reflexivity.
Qed.

Lemma push_rep_full fuel bq F l x :
  queue_rep bq F l ->
  2 <= bq_cap bq ->
  Z.of_nat (length l) = bq_cap bq ->
  BoundedQueue_push (S fuel) bq x = Ok (false, bq).
Proof.
  intros [Hcap HF Hlen Hfirst Hlast Hsafe (els & Hels & Hsize & Hslots)] H2 Hfull.
  remember (F + Z.of_nat (length l)) as L eqn:HL.
  assert (Hidx : bq_last bq mod bq_cap bq = F mod bq_cap bq).
  { rewrite Hlast. rewrite (wrap_safe_slot _ L); [| lia | assumption | lia].
    rewrite HL, Hfull.
    rewrite <- (Z.mul_1_l (bq_cap bq)) at 1. apply Z_mod_plus_full. }
  destruct (Hslots F) as (el & Hlk & Hel); [lia|].
  ltb_in Hel. destruct Hel as [Hseq _].
  apply push_loop_full with (el := el).
  - lia.
  - rewrite Hidx. eapply element_at_slot; eassumption.
  - rewrite Hseq, Hlast. rewrite diff_int32_spec; lia.
Qed.

Lemma pop_rep_ok fuel bq F x l :
  queue_rep bq F (x :: l) ->
  exists bq',
    BoundedQueue_pop (S fuel) bq = Ok (x, bq') /\
    queue_rep bq' (F + 1) l /\
    bq_cap bq' = bq_cap bq /\
    bq_elementRelease bq' = bq_elementRelease bq.
Proof.
  intros [Hcap HF Hlen Hfirst Hlast Hsafe (els & Hels & Hsize & Hslots)].
  simpl length in *.
  remember (F + Z.of_nat (S (length l))) as L eqn:HL.
  assert (Hidx : bq_first bq mod bq_cap bq = F mod bq_cap bq).
  { rewrite Hfirst. apply (wrap_safe_slot _ L); [lia | assumption | lia]. }
  destruct (Hslots F) as (el & Hlk & Hel); [lia|].
  ltb_in Hel. destruct Hel as [Hseq Hdat].
  replace (Z.to_nat (F - F)) with 0%nat in Hdat by lia. simpl in Hdat.
  injection Hdat as Hdat.
  eexists. split; [|split; [|split]].
  - rewrite Hdat. apply pop_loop_take with (el := el).
    + lia.
    + rewrite Hidx. eapply element_at_slot; eassumption.
    + rewrite Hseq, Hfirst, wrap32_add_l. rewrite diff_int32_spec; lia.
  - constructor; simpl; try lia.
    + rewrite Hfirst, wrap32_add_l. reflexivity.
    + rewrite Hlast. f_equal. lia.
    + replace (F + 1 + Z.of_nat (length l)) with L by lia. assumption.
    + unfold store_element. rewrite Hels. eexists. split; [reflexivity|]. split.
      * rewrite length_insert. assumption.
      * intros p Hp. rewrite Hidx. fold (slot_of (bq_cap bq) F).
        destruct (Z.eq_dec p (F + bq_cap bq)) as [->|Hne].
        -- eexists. split.
           ++ replace (slot_of (bq_cap bq) (F + bq_cap bq))
                with (slot_of (bq_cap bq) F).
              ** apply list_lookup_insert_eq. rewrite Hsize.
                 apply slot_of_lt. lia.
              ** unfold slot_of. f_equal.
                 rewrite <- (Z.mul_1_l (bq_cap bq)) at 2.
                 symmetry. apply Z_mod_plus_full.
           ++ ltb_goal. simpl. rewrite Hfirst, wrap32_add_l. reflexivity.
        -- destruct (Hslots p) as (el' & Hlk' & Hel'); [lia|].
           exists el'. split.
           ++ rewrite list_lookup_insert_ne; [assumption|].
              intros E.
              assert (F = p); [|lia].
              apply (slot_of_inj (bq_cap bq) F); [lia | lia | lia | assumption].
           ++ destruct (Z_lt_le_dec p L); ltb_in Hel'; ltb_goal.
              ** destruct Hel' as [Hs Hd]. split; [assumption|].
                 replace (Z.to_nat (p - F)) with (S (Z.to_nat (p - (F + 1))))
                   in Hd by lia.
                 exact Hd.
              ** assumption.
  - reflexivity.
  - reflexivity.
Qed.

Lemma pop_rep_empty fuel bq F :
  queue_rep bq F [] ->
  BoundedQueue_pop (S fuel) bq = Ok (NULL, bq).
Proof.
  intros [Hcap HF Hlen Hfirst Hlast Hsafe (els & Hels & Hsize & Hslots)].
  simpl length in *.
  assert (Hidx : bq_first bq mod bq_cap bq = F mod bq_cap bq).
  { rewrite Hfirst. apply (wrap_safe_slot _ (F + Z.of_nat 0)); [lia | assumption | lia]. }
  destruct (Hslots F) as (el & Hlk & Hel); [lia|].
  ltb_in Hel.
  apply pop_loop_empty with (el := el).
  - lia.
  - rewrite Hidx. eapply element_at_slot; eassumption.
  - rewrite Hel, Hfirst, wrap32_add_l. rewrite diff_int32_spec; lia.
Qed.

Lemma wrap_safe_le cap L L' : wrap_safe cap L -> L' <= L -> wrap_safe cap L'.
Proof. intros [H|H] Hle; [left; assumption | right; lia]. Qed.

Lemma push_count_nonneg ops : 0 <= push_count ops.
Proof. induction ops as [|[x|] ops IH]; simpl; lia. Qed.

(** Every execution from a well-formed state answers as the bounded FIFO
    list does and ends in a well-formed state. *)
Lemma run_queue_refines fuel ops :
  forall bq F l,
    queue_rep bq F l ->
    2 <= bq_cap bq ->
    wrap_safe (bq_cap bq) (F + Z.of_nat (length l) + push_count ops) ->
    exists bq' F',
      run_queue (S fuel) bq ops = Ok (fst (fifo_run (bq_cap bq) l ops), bq') /\
      queue_rep bq' F' (snd (fifo_run (bq_cap bq) l ops)) /\
      bq_cap bq' = bq_cap bq /\
      bq_elementRelease bq' = bq_elementRelease bq /\
      F' + Z.of_nat (length (snd (fifo_run (bq_cap bq) l ops)))
        <= F + Z.of_nat (length l) + push_count ops.
Proof.
  induction ops as [|[x|] ops IH]; intros bq F l Hrep H2 Hsafe.
  - exists bq, F. simpl. repeat (split; [auto|]). lia.
  - pose proof (push_count_nonneg ops) as Hpc.
    cbn [run_queue fifo_run push_count] in *. unfold fifo_push.
    destruct (Z.ltb_spec (Z.of_nat (length l)) (bq_cap bq)) as [Hroom|Hfull].
    + destruct (push_rep_ok fuel bq F l x Hrep Hroom) as (bq1 & Hpush & Hrep1 & Hc1 & Hr1).
      { eapply wrap_safe_le; [eassumption | lia]. }
      rewrite Hpush.
      destruct (IH bq1 F (l ++ [x]) Hrep1) as (bq2 & F2 & Hrun & Hrep2 & Hc2 & Hr2 & Hb2).
      { lia. }
      { rewrite Hc1, length_app. simpl.
        eapply wrap_safe_le; [eassumption | lia]. }
      rewrite Hrun. rewrite Hc1 in *.
      destruct (fifo_run (bq_cap bq) (l ++ [x]) ops) as [ans final]. simpl in *.
      exists bq2, F2. split; [reflexivity|]. split; [assumption|]. split; [congruence|].
      split; [congruence|]. rewrite ?length_app in Hb2; simpl length in *; lia.
    + pose proof (qr_len _ _ _ Hrep).
      rewrite (push_rep_full fuel bq F l x Hrep H2) by lia.
      destruct (IH bq F l Hrep H2) as (bq2 & F2 & Hrun & Hrep2 & Hc2 & Hr2 & Hb2).
      { eapply wrap_safe_le; [eassumption | lia]. }
      rewrite Hrun.
      destruct (fifo_run (bq_cap bq) l ops) as [ans final]. simpl in *.
      exists bq2, F2. split; [reflexivity|]. split; [assumption|]. split; [assumption|].
      split; [assumption|]. simpl length in *; lia.
  - cbn [run_queue fifo_run push_count] in *.
    destruct l as [|y l]; cbn [fifo_pop].
    + rewrite (pop_rep_empty fuel bq F Hrep).
      destruct (IH bq F [] Hrep H2 Hsafe) as (bq2 & F2 & Hrun & Hrep2 & Hc2 & Hr2 & Hb2).
      rewrite Hrun.
      destruct (fifo_run (bq_cap bq) [] ops) as [ans final]. simpl in *.
      exists bq2, F2. split; [reflexivity|]. split; [assumption|]. split; [assumption|].
      split; [assumption|]. simpl length in *; lia.
    + destruct (pop_rep_ok fuel bq F y l Hrep) as (bq1 & Hpop & Hrep1 & Hc1 & Hr1).
      rewrite Hpop.
      destruct (IH bq1 (F + 1) l Hrep1) as (bq2 & F2 & Hrun & Hrep2 & Hc2 & Hr2 & Hb2).
      { lia. }
      { rewrite Hc1. eapply wrap_safe_le; [eassumption | simpl length; lia]. }
      rewrite Hrun. rewrite Hc1 in *.
      destruct (fifo_run (bq_cap bq) l ops) as [ans final]. simpl in *.
      exists bq2, F2. split; [reflexivity|]. split; [assumption|]. split; [congruence|].
      split; [congruence|]. rewrite ?length_app in Hb2; simpl length in *; lia.
Qed.

(** In the list model, what was accepted is what was delivered followed by
    what is still stored: first in, first out, nothing twice, nothing lost. *)
Lemma fifo_run_conservation cap ops :
  forall l,
    pushes_non_null ops ->
    Forall (fun x => x <> NULL) l ->
    l ++ accepted ops (fst (fifo_run cap l ops)) =
    delivered (fst (fifo_run cap l ops)) ++ snd (fifo_run cap l ops).
Proof.
  induction ops as [|[x|] ops IH]; intros l Hnn Hl.
  - simpl. apply app_nil_r.
  - inversion Hnn as [|? ? Hx Hnn']; subst.
    cbn [fifo_run]. unfold fifo_push.
    destruct (Z.ltb_spec (Z.of_nat (length l)) cap).
    + specialize (IH (l ++ [x]) Hnn').
      destruct (fifo_run cap (l ++ [x]) ops) as [ans final]. simpl in *.
      rewrite <- IH.
      * rewrite <- app_assoc. reflexivity.
      * apply Forall_app. split; [assumption|].
        constructor; [congruence | constructor].
    + specialize (IH l Hnn' Hl).
      destruct (fifo_run cap l ops) as [ans final]. simpl in *. exact IH.
  - inversion Hnn as [|? ? Hx Hnn']; subst.
    cbn [fifo_run]. destruct l as [|y l]; cbn [fifo_pop].
    + specialize (IH [] Hnn' Hl).
      destruct (fifo_run cap [] ops) as [ans final]. simpl in *. exact IH.
    + inversion Hl as [|? ? Hy Hl']; subst.
      specialize (IH l Hnn' Hl').
      destruct (fifo_run cap l ops) as [ans final]. simpl in *.
      destruct y; simpl; try contradiction; rewrite IH; reflexivity.
Qed.

Lemma fifo_run_non_null cap ops :
  forall l,
    pushes_non_null ops ->
    Forall (fun x => x <> NULL) l ->
    Forall (fun x => x <> NULL) (snd (fifo_run cap l ops)).
Proof.
  induction ops as [|[x|] ops IH]; intros l Hnn Hl.
  - exact Hl.
  - inversion Hnn as [|? ? Hx Hnn']; subst.
    cbn [fifo_run]. unfold fifo_push.
    destruct (Z.ltb_spec (Z.of_nat (length l)) cap).
    + specialize (IH (l ++ [x]) Hnn').
      destruct (fifo_run cap (l ++ [x]) ops) as [ans final]. simpl in *.
      apply IH. apply Forall_app. split; [assumption|].
      constructor; [congruence | constructor].
    + specialize (IH l Hnn' Hl).
      destruct (fifo_run cap l ops) as [ans final]. exact IH.
  - inversion Hnn as [|? ? Hx Hnn']; subst.
    cbn [fifo_run]. destruct l as [|y l]; cbn [fifo_pop].
    + specialize (IH [] Hnn' Hl).
      destruct (fifo_run cap [] ops) as [ans final]. exact IH.
    + inversion Hl as [|? ? Hy Hl']; subst.
      specialize (IH l Hnn' Hl').
      destruct (fifo_run cap l ops) as [ans final]. exact IH.
Qed.

(** C3 (as amended): on a queue of capacity [2 <= cap <= 2^31], every
    sequential execution of pushes of non-null payloads and pops, started
    from [BoundedQueue_init] and in which the cursors stay wrap-safe
    ([cap] divides 2^32, or the pushes made plus [cap] stay below 2^32),
    answers exactly as a FIFO list bounded by [cap]: what was accepted is
    what was delivered followed by what is still stored; the capacity and
    the number of slots are unchanged; the next push answers [false] and
    changes nothing when [cap] payloads are stored and is accepted
    otherwise; the next pop answers empty and changes nothing when nothing
    is stored and hands out the oldest payload otherwise. *)
Theorem BoundedQueue_bounded_fifo (cap : Z) (rel : ElementRelease)
    (ops : list QueueOp) (fuel : nat) :
  2 <= cap <= 2147483648 ->
  wrap_safe cap (push_count ops + 1) ->
  pushes_non_null ops ->
  exists bq F,
    run_queue (S fuel) (BoundedQueue_init cap rel) ops
      = Ok (fst (fifo_run cap [] ops), bq) /\
    queue_rep bq F (snd (fifo_run cap [] ops)) /\
    accepted ops (fst (fifo_run cap [] ops))
      = delivered (fst (fifo_run cap [] ops)) ++ snd (fifo_run cap [] ops) /\
    bq_cap bq = cap /\
    (exists els, bq_elements bq = Some els /\ length els = Z.to_nat cap) /\
    Z.of_nat (length (snd (fifo_run cap [] ops))) <= cap /\
    (forall x,
       (Z.of_nat (length (snd (fifo_run cap [] ops))) = cap ->
        BoundedQueue_push (S fuel) bq x = Ok (false, bq)) /\
       (Z.of_nat (length (snd (fifo_run cap [] ops))) < cap ->
        exists bq', BoundedQueue_push (S fuel) bq x = Ok (true, bq') /\
                    queue_rep bq' F (snd (fifo_run cap [] ops) ++ [x]))) /\
    (snd (fifo_run cap [] ops) = [] ->
     BoundedQueue_pop (S fuel) bq = Ok (NULL, bq)) /\
    (forall x rest,
       snd (fifo_run cap [] ops) = x :: rest ->
       x <> NULL /\
       exists bq', BoundedQueue_pop (S fuel) bq = Ok (x, bq') /\
                   queue_rep bq' (F + 1) rest).
Proof.
  intros Hcap Hsafe Hnn.
  pose proof (push_count_nonneg ops) as Hpc.
  assert (Hinit : queue_rep (BoundedQueue_init cap rel) 0 [])
    by (apply queue_rep_init; lia).
  destruct (run_queue_refines fuel ops _ 0 [] Hinit) as (bq & F & Hrun & Hrep & Hc & Hr & Hb).
  { simpl. lia. }
  { simpl. eapply wrap_safe_le; [eassumption | lia]. }
  simpl bq_cap in *.
  pose proof (fifo_run_conservation cap ops [] Hnn (List.Forall_nil _)) as Hcons.
  pose proof (fifo_run_non_null cap ops [] Hnn (List.Forall_nil _)) as Hstored.
  simpl in Hcons.
  set (stored := snd (fifo_run cap [] ops)) in *.
  exists bq, F.
  split; [exact Hrun|]. split; [exact Hrep|]. split; [exact Hcons|].
  split; [exact Hc|].
  split.
  { destruct (qr_slots _ _ _ Hrep) as (els & He & Hl & _).
    exists els. rewrite <- Hc. auto. }
  split.
  { rewrite <- Hc. apply (qr_len _ _ _ Hrep). }
  split; [|split].
  - intros x. split.
    + intros Hfull. apply (push_rep_full fuel bq F stored x Hrep); lia.
    + intros Hroom.
      destruct (push_rep_ok fuel bq F stored x Hrep) as (bq' & Hp & Hrep' & _).
      * lia.
      * rewrite Hc.
        eapply wrap_safe_le; [eassumption | simpl in Hb; lia].
      * exists bq'. auto.
  - intros Hempty. rewrite Hempty in Hrep. apply (pop_rep_empty fuel bq F Hrep).
  - intros x rest Hx. rewrite Hx in Hrep, Hstored.
    split; [inversion Hstored; assumption|].
    destruct (pop_rep_ok fuel bq F x rest Hrep) as (bq' & Hp & Hrep' & _).
    exists bq'. auto.
Qed.

(** A queue of capacity 1 that has accepted two payloads: its only slot
    carries sequence number 2 while the consumer cursor is still 0. *)
Lemma pop_cap1_spins fuel :
  BoundedQueue_pop fuel
    (mkBoundedQueue 0 2 1 (Some [mkElement 2 (PUser 2)]) ER_NULL) = OutOfFuel.
Proof.
  unfold BoundedQueue_pop. simpl bq_first.
  induction fuel as [|fuel IH]; [reflexivity|].
  cbn [BoundedQueue_pop_loop]. exact IH.
Qed.

(** ** The cursors at the 32-bit wrap, capacity 3 *)

Lemma run_queue_app fuel ops1 : forall ops2 bq ans1 bq1,
  run_queue fuel bq ops1 = Ok (ans1, bq1) ->
  run_queue fuel bq (ops1 ++ ops2)
    = match run_queue fuel bq1 ops2 with
      | Ok (ans2, bq2) => Ok (ans1 ++ ans2, bq2)
      | Fault => Fault
      | OutOfFuel => OutOfFuel
      end.
Proof.
  induction ops1 as [|[x|] ops1 IH]; intros ops2 bq ans1 bq1 H.
  - injection H as <- <-. cbn [app].
    destruct (run_queue fuel bq ops2) as [[ans2 bq2]| |]; reflexivity.
  - cbn [run_queue app] in *.
    destruct (BoundedQueue_push fuel bq x) as [[ok bq']| |]; try discriminate.
    destruct (run_queue fuel bq' ops1) as [[ans bq'']| |] eqn:E; try discriminate.
    injection H as <- <-. rewrite (IH ops2 bq' ans bq'' E).
    destruct (run_queue fuel bq'' ops2) as [[ans2 bq2]| |]; reflexivity.
  - cbn [run_queue app] in *.
    destruct (BoundedQueue_pop fuel bq) as [[y bq']| |]; try discriminate.
    destruct (run_queue fuel bq' ops1) as [[ans bq'']| |] eqn:E; try discriminate.
    injection H as <- <-. rewrite (IH ops2 bq' ans bq'' E).
    destruct (run_queue fuel bq'' ops2) as [[ans2 bq2]| |]; reflexivity.
Qed.

Lemma queue_cycle_run fuel bq F :
  queue_rep bq F [] ->
  wrap_safe (bq_cap bq) (F + 1) ->
  exists bq',
    run_queue (S fuel) bq queue_cycle
      = Ok ([APush true; APop (PUser 1)], bq') /\
    queue_rep bq' (F + 1) [] /\
    bq_cap bq' = bq_cap bq /\
    bq_elementRelease bq' = bq_elementRelease bq.
Proof.
  intros Hrep Hsafe.
  pose proof (qr_cap _ _ _ Hrep) as Hcap.
  destruct (push_rep_ok fuel bq F [] (PUser 1) Hrep)
    as (bq1 & Hpush & Hrep1 & Hc1 & Hr1).
  { simpl. lia. }
  { eapply wrap_safe_le; [exact Hsafe | simpl; lia]. }
  destruct (pop_rep_ok fuel bq1 F (PUser 1) [] Hrep1)
    as (bq2 & Hpop & Hrep2 & Hc2 & Hr2).
  exists bq2. split; [|split; [exact Hrep2|split; congruence]].
  unfold queue_cycle. cbn [run_queue]. rewrite Hpush, Hpop. reflexivity.
Qed.

Lemma queue_cycles_succ n : queue_cycles (N.succ n) = queue_cycle ++ queue_cycles n.
Proof. unfold queue_cycles. apply N.iter_succ. Qed.

Lemma cycle_answers_succ n :
  cycle_answers (N.succ n) = [APush true; APop (PUser 1)] ++ cycle_answers n.
Proof. unfold cycle_answers. apply N.iter_succ. Qed.

(** As long as no cursor wraps, [n] cycles succeed, whatever [n]. *)
Lemma queue_cycles_run fuel n : forall bq F,
  queue_rep bq F [] ->
  wrap_safe (bq_cap bq) (F + Z.of_N n) ->
  exists bq',
    run_queue (S fuel) bq (queue_cycles n) = Ok (cycle_answers n, bq') /\
    queue_rep bq' (F + Z.of_N n) [] /\
    bq_cap bq' = bq_cap bq /\
    bq_elementRelease bq' = bq_elementRelease bq.
Proof.
  induction n as [|n IH] using N.peano_ind; intros bq F Hrep Hsafe.
  - exists bq. split; [reflexivity|]. rewrite Z.add_0_r. auto.
  - destruct (queue_cycle_run fuel bq F Hrep) as (bq1 & Hrun1 & Hrep1 & Hc1 & Hr1).
    { eapply wrap_safe_le; [exact Hsafe | lia]. }
    destruct (IH bq1 (F + 1) Hrep1) as (bq2 & Hrun2 & Hrep2 & Hc2 & Hr2).
    { rewrite Hc1. eapply wrap_safe_le; [exact Hsafe | lia]. }
    exists bq2. split; [|split; [|split; congruence]].
    + rewrite queue_cycles_succ, cycle_answers_succ.
      rewrite (run_queue_app _ _ _ _ _ _ Hrun1), Hrun2. reflexivity.
    + replace (F + Z.of_N (N.succ n)) with (F + 1 + Z.of_N n) by lia.
      exact Hrep2.
Qed.

Lemma queue_cycles_add n m :
  queue_cycles (n + m) = queue_cycles n ++ queue_cycles m.
Proof.
  induction n as [|n IH] using N.peano_ind.
  - reflexivity.
  - rewrite N.add_succ_l, !queue_cycles_succ, IH, app_assoc. reflexivity.
Qed.

Lemma cycle_answers_add n m :
  cycle_answers (n + m) = cycle_answers n ++ cycle_answers m.
Proof.
  induction n as [|n IH] using N.peano_ind.
  - reflexivity.
  - rewrite N.add_succ_l, !cycle_answers_succ, IH, app_assoc. reflexivity.
Qed.

Lemma wrapped_queue_push_spins x fuel :
  BoundedQueue_push fuel wrapped_queue x = OutOfFuel.
Proof.
  unfold BoundedQueue_push. simpl bq_last.
  induction fuel as [|fuel IH]; [reflexivity|].
  cbn [BoundedQueue_push_loop]. exact IH.
Qed.

Lemma wrapped_queue_pop_spins fuel :
  BoundedQueue_pop fuel wrapped_queue = OutOfFuel.
Proof.
  unfold BoundedQueue_pop. simpl bq_first.
  induction fuel as [|fuel IH]; [reflexivity|].
  cbn [BoundedQueue_pop_loop]. exact IH.
Qed.

(** [2^32] cycles on the queue of capacity 3 all succeed and leave it in
    the state [wrapped_queue]. *)
Lemma queue_cycles_wrap :
  run_queue 1 (BoundedQueue_init 3 ER_NULL) (queue_cycles 4294967296)
    = Ok (cycle_answers 4294967296, wrapped_queue).
Proof.
  destruct (queue_cycles_run 0 4294967292 (BoundedQueue_init 3 ER_NULL) 0)
    as (bq & Hrun & Hrep & Hc & Hr).
  { apply queue_rep_init. lia. }
  { right. reflexivity. }
  change 4294967296%N with (4294967292 + 4)%N.
  rewrite queue_cycles_add, cycle_answers_add.
  rewrite (run_queue_app _ _ _ _ _ _ Hrun).
  pose proof (qr_first _ _ _ Hrep) as Hfirst.
  pose proof (qr_last _ _ _ Hrep) as Hlast.
  destruct (qr_slots _ _ _ Hrep) as (els & Hels & Hlen & Hslots).
  clear Hrep Hrun.
  destruct bq as [first last cap elements release].
  cbn [bq_first bq_last bq_cap bq_elements bq_elementRelease]
    in Hfirst, Hlast, Hc, Hr, Hels, Hlen, Hslots.
  vm_compute in Hc, Hr.
  subst first last cap elements release.
  change (Z.to_nat 3) with 3%nat in Hlen.
  destruct els as [|[s0 d0] [|[s1 d1] [|[s2 d2] [|]]]]; try discriminate Hlen.
  change (0 + Z.of_N 4294967292) with 4294967292 in Hslots.
  destruct (Hslots 4294967292) as (e0 & He0 & Hs0); [lia|].
  destruct (Hslots 4294967293) as (e1 & He1 & Hs1); [lia|].
  destruct (Hslots 4294967294) as (e2 & He2 & Hs2); [lia|].
  vm_compute in He0, He1, He2, Hs0, Hs1, Hs2.
  injection He0 as <-. injection He1 as <-. injection He2 as <-.
  cbn [el_seq] in Hs0, Hs1, Hs2. subst s0 s1 s2.
  assert (Hlast4 :
    run_queue 1
      (mkBoundedQueue (wrap32 (0 + Z.of_N 4294967292))
         (wrap32 (0 + Z.of_N 4294967292 + Z.of_nat (length (@nil ptr)))) 3
         (Some [mkElement 4294967292 d0; mkElement 4294967293 d1;
                mkElement 4294967294 d2]) ER_NULL)
      (queue_cycles 4)
    = Ok (cycle_answers 4, wrapped_queue)) by (vm_compute; reflexivity).
  rewrite Hlast4. reflexivity.
Qed.

(** C3 (counterexample): the claim fails at capacity 1, for a null payload
    and at the 32-bit wrap of the cursors.  (1) On a queue of capacity 1
    that stores one payload, hence [cap] payloads, a second push answers
    [true] and overwrites the first payload, where the bounded FIFO list
    answers [false]; the following pop never returns.  (2) On a queue of
    capacity 2 that stores the null payload, pop answers the empty value
    although one payload is stored, and consumes it.  (3) On a queue of
    capacity 3, which does not divide [2^32], [2^32] pushes each followed
    by its pop all succeed and leave the queue empty with its cursors back
    at 0 and its sequence numbers out of step: from then on neither a push
    nor a pop returns. *)
Lemma BoundedQueue_bounded_fifo_counterexample :
  (run_queue 1 (BoundedQueue_init 1 ER_NULL) [QPush (PUser 1); QPush (PUser 2)]
     = Ok ([APush true; APush true],
           mkBoundedQueue 0 2 1 (Some [mkElement 2 (PUser 2)]) ER_NULL) /\
   fifo_run 1 [] [QPush (PUser 1); QPush (PUser 2)]
     = ([APush true; APush false], [PUser 1]) /\
   forall fuel,
     BoundedQueue_pop fuel
       (mkBoundedQueue 0 2 1 (Some [mkElement 2 (PUser 2)]) ER_NULL) = OutOfFuel)
  /\
  (run_queue 1 (BoundedQueue_init 2 ER_NULL) [QPush NULL; QPop]
     = Ok ([APush true; APop NULL],
           mkBoundedQueue 1 1 2 (Some [mkElement 2 NULL; mkElement 1 NULL]) ER_NULL) /\
   fifo_run 2 [] [QPush NULL] = ([APush true], [NULL]))
  /\
  (run_queue 1 (BoundedQueue_init 3 ER_NULL) (queue_cycles 4294967296)
     = Ok (cycle_answers 4294967296, wrapped_queue) /\
   (forall fuel x, BoundedQueue_push fuel wrapped_queue x = OutOfFuel) /\
   (forall fuel, BoundedQueue_pop fuel wrapped_queue = OutOfFuel)).
Proof.
  split; [split; [reflexivity | split; [reflexivity | exact pop_cap1_spins]]|].
  split; [split; reflexivity|].
  split; [exact queue_cycles_wrap|].
  split.
  - intros fuel x. apply wrapped_queue_push_spins.
  - exact wrapped_queue_pop_spins.
Qed.

(** C3 (witness): a queue of capacity 3 driven through a full cycle. *)
Lemma BoundedQueue_bounded_fifo_witness :
  exists bq,
    run_queue 1 (BoundedQueue_init 3 ER_NULL)
      [QPop; QPush (PUser 1); QPush (PUser 2); QPush (PUser 3); QPush (PUser 4);
       QPop; QPush (PUser 5); QPop; QPop; QPop; QPop]
    = Ok ([APop NULL; APush true; APush true; APush true; APush false;
           APop (PUser 1); APush true; APop (PUser 2); APop (PUser 3);
           APop (PUser 5); APop NULL], bq).
Proof.
  destruct (BoundedQueue_bounded_fifo 3 ER_NULL
      [QPop; QPush (PUser 1); QPush (PUser 2); QPush (PUser 3); QPush (PUser 4);
       QPop; QPush (PUser 5); QPop; QPop; QPop; QPop] 0)
    as (bq & F & Hrun & _).
  - lia.
  - right. simpl. lia.
  - repeat constructor; discriminate.
  - exists bq. exact Hrun.
Defined.

(** ** Running the runtime functions symbolically *)

Section RuntimeFacts.

Context {U : Type} {UC : UserCode U}.

Implicit Types (w : World U) (p : Process) (q : ProcessQueue).

Lemma set_processes_id q : set_processes (pq_processes q) q = q.
Proof. destruct q; reflexivity. Qed.

Lemma set_releaseLock_id p : set_releaseLock (p_releaseLock p) p = p.
Proof. destruct p; reflexivity. Qed.

Lemma world_eta w : mkWorld (w_pq w) (w_user w) (w_trace w) = w.
Proof. destruct w; reflexivity. Qed.

Lemma get_proc_ok w i p :
  pq_processes (w_pq w) !! i = Some p -> get_proc i w = Ok (p, w).
Proof. intros H. unfold get_proc, bind, get_pq. rewrite H. reflexivity. Qed.

Lemma get_proc_fault w i :
  pq_processes (w_pq w) !! i = None -> get_proc i w = Fault.
Proof. intros H. unfold get_proc, bind, get_pq. rewrite H. reflexivity. Qed.

Lemma modify_proc_ok w i p f :
  pq_processes (w_pq w) !! i = Some p ->
  modify_proc i f w = Ok (tt, with_proc i (f p) w).
Proof.
  intros H. unfold modify_proc, bind. rewrite (get_proc_ok _ _ _ H).
  reflexivity.
Qed.

Lemma with_proc_lookup w i p p' :
  pq_processes (w_pq w) !! i = Some p ->
  pq_processes (w_pq (with_proc i p' w)) !! i = Some p'.
Proof.
  intros H. simpl. apply list_lookup_insert_eq.
  eapply lookup_lt_Some; eassumption.
Qed.

Lemma with_proc_lookup_ne w i j p' :
  i <> j ->
  pq_processes (w_pq (with_proc i p' w)) !! j = pq_processes (w_pq w) !! j.
Proof. intros H. simpl. apply list_lookup_insert_ne. assumption. Qed.

Lemma with_proc_same w i p :
  pq_processes (w_pq w) !! i = Some p -> with_proc i p w = w.
Proof.
  intros H. unfold with_proc. rewrite list_insert_id by assumption.
  rewrite set_processes_id. apply world_eta.
Qed.

Lemma with_proc_twice w i p1 p2 :
  with_proc i p2 (with_proc i p1 w) = with_proc i p2 w.
Proof.
  unfold with_proc. simpl. rewrite list_insert_insert_eq. reflexivity.
Qed.

Lemma spinLock_ok fuel l : spinLock (S (S fuel)) l = Ok true.
Proof. destruct l; reflexivity. Qed.

Lemma spinUnlock_ok fuel l : spinUnlock (S (S fuel)) l = Ok false.
Proof. destruct l; reflexivity. Qed.

Lemma spinUnlock_held fuel : spinUnlock (S fuel) true = Ok false.
Proof. reflexivity. Qed.

End RuntimeFacts.

Section QueueAtLocation.

Context {U : Type} {UC : UserCode U}.

Implicit Types (w : World U) (p : Process) (q : ProcessQueue).

Lemma get_queue_ok w loc bq :
  queue_of loc w = Some bq -> get_queue loc w = Ok (bq, w).
Proof.
  destruct loc as [| |i]; simpl; intros H.
  - injection H as <-. reflexivity.
  - injection H as <-. reflexivity.
  - destruct (pq_processes (w_pq w) !! i) as [p|] eqn:E; [|discriminate].
    injection H as <-. unfold bind. rewrite (get_proc_ok _ _ _ E). reflexivity.
Qed.

Lemma set_queue_ok w loc bq0 bq :
  queue_of loc w = Some bq0 -> set_queue loc bq w = Ok (tt, with_queue loc bq w).
Proof.
  destruct loc as [| |i]; simpl; intros H; try reflexivity.
  destruct (pq_processes (w_pq w) !! i) as [p|] eqn:E; [|discriminate].
  apply modify_proc_ok. assumption.
Qed.

Lemma queue_of_with_queue w loc bq0 bq :
  queue_of loc w = Some bq0 -> queue_of loc (with_queue loc bq w) = Some bq.
Proof.
  destruct loc as [| |i]; simpl; intros H; try reflexivity.
  destruct (pq_processes (w_pq w) !! i) as [p|] eqn:E; [|discriminate].
  simpl. rewrite list_lookup_insert_eq by (eapply lookup_lt_Some; eassumption).
  reflexivity.
Qed.

Lemma queue_of_add_trace w loc es :
  queue_of loc (add_trace es w) = queue_of loc w.
Proof. destruct loc; reflexivity. Qed.

Lemma push_at_ok fuel w loc bq x ok bq' :
  queue_of loc w = Some bq ->
  BoundedQueue_push fuel bq x = Ok (ok, bq') ->
  push_at fuel loc x w
    = Ok (ok, add_trace [EvPush loc x ok] (with_queue loc bq' w)).
Proof.
  intros Hq Hp. unfold push_at, bind at 1.
  rewrite (get_queue_ok _ _ _ Hq). unfold bind at 1, lift. rewrite Hp.
  unfold bind at 1. simpl snd. rewrite (set_queue_ok _ _ _ _ Hq).
  reflexivity.
Qed.

Lemma pop_at_ok fuel w loc bq x bq' :
  queue_of loc w = Some bq ->
  BoundedQueue_pop fuel bq = Ok (x, bq') ->
  pop_at fuel loc w
    = Ok (x, add_trace [EvPop loc x] (with_queue loc bq' w)).
Proof.
  intros Hq Hp. unfold pop_at, bind at 1.
  rewrite (get_queue_ok _ _ _ Hq). unfold bind at 1, lift. rewrite Hp.
  unfold bind at 1. simpl snd. rewrite (set_queue_ok _ _ _ _ Hq).
  reflexivity.
Qed.

End QueueAtLocation.

(** ** Stepping through monadic code *)

Section Stepping.

Context {U : Type}.

Implicit Types (w : World U) (p : Process) (q : ProcessQueue).

Lemma bind_ok {A B : Type} (m : M A) (k : A -> M B) w a w' :
  m w = Ok (a, w') -> bind m k w = k a w'.
Proof. intros H. unfold bind. rewrite H. reflexivity. Qed.

Lemma bind_fault {A B : Type} (m : M A) (k : A -> M B) w :
  m w = Fault -> bind m k w = Fault.
Proof. intros H. unfold bind. rewrite H. reflexivity. Qed.

Lemma bind_inv {A B : Type} (m : M A) (k : A -> M B) w b w' :
  bind m k w = Ok (b, w') ->
  exists a w1, m w = Ok (a, w1) /\ k a w1 = Ok (b, w').
Proof.
  unfold bind. destruct (m w) as [[a w1]| |]; try discriminate.
  intros H. exists a, w1. auto.
Qed.

Lemma emit_ok e w : emit e w = Ok (tt, add_trace [e] w).
Proof. reflexivity. Qed.

Lemma ret_ok {A : Type} (a : A) w : ret a w = Ok (a, w).
Proof. reflexivity. Qed.

Lemma modify_user_ok f w :
  modify_user f w = Ok (tt, with_user (f (w_user w)) w).
Proof. reflexivity. Qed.

Lemma add_trace_add_trace es1 es2 w :
  add_trace es2 (add_trace es1 w) = add_trace (es1 ++ es2) w.
Proof. unfold add_trace. simpl. rewrite app_assoc. reflexivity. Qed.

Lemma add_trace_nil w : add_trace [] w = w.
Proof. unfold add_trace. rewrite app_nil_r. apply world_eta. Qed.

Lemma with_proc_add_trace i p es w :
  with_proc i p (add_trace es w) = add_trace es (with_proc i p w).
Proof. reflexivity. Qed.

Lemma with_queue_add_trace loc bq es w :
  with_queue loc bq (add_trace es w) = add_trace es (with_queue loc bq w).
Proof.
  destruct loc as [| |i]; try reflexivity.
  simpl. destruct (pq_processes (w_pq w) !! i); reflexivity.
Qed.

Lemma with_user_add_trace u es w :
  with_user u (add_trace es w) = add_trace es (with_user u w).
Proof. reflexivity. Qed.

Lemma procs_add_trace es w :
  pq_processes (w_pq (add_trace es w)) = pq_processes (w_pq w).
Proof. reflexivity. Qed.

Lemma procs_with_user u w :
  pq_processes (w_pq (with_user u w)) = pq_processes (w_pq w).
Proof. reflexivity. Qed.

End Stepping.

(** [mstep tac]: run the first action of a sequence, [tac] proving what
    that action returns. *)
Ltac mstep tac := cbv beta match; erewrite bind_ok; [ | tac ].

Ltac solve_lookup :=
  rewrite ?procs_add_trace, ?procs_with_user;
  first
    [ eassumption
    | eapply with_proc_lookup; solve_lookup ].

Ltac step_get := mstep ltac:(apply get_proc_ok; solve_lookup).
Ltac step_modify := mstep ltac:(apply modify_proc_ok; solve_lookup).
Ltac step_emit := mstep ltac:(apply emit_ok).

(** ** [Process_sendMessage] *)

Section SendMessage.

Context {U : Type} {UC : UserCode U}.

Implicit Types (w : World U) (p : Process) (q : ProcessQueue).

(** The path on which the try-lock fails. *)
Lemma Process_sendMessage_locked fuel w dest message ma p :
  pid_pq dest = PQ_this ->
  pq_processes (w_pq w) !! Z.to_nat (pid_id dest) = Some p ->
  p_releaseLock p = true ->
  Process_sendMessage fuel dest message ma w
    = Ok (SEND_FAIL, add_trace [EvTryLock (Z.to_nat (pid_id dest)) false] w).
Proof.
  intros Hpq Hp Hlock. unfold Process_sendMessage. rewrite Hpq.
  step_get. rewrite Hlock. cbn [spinTryLock cas Bool.eqb].
  step_modify. step_emit.
  rewrite <- Hlock, set_releaseLock_id, (with_proc_same _ _ _ Hp).
  reflexivity.
Qed.

(** The path on which the try-lock succeeds and the generations differ. *)
Lemma Process_sendMessage_dead fuel w dest message ma p :
  pid_pq dest = PQ_this ->
  pq_processes (w_pq w) !! Z.to_nat (pid_id dest) = Some p ->
  p_releaseLock p = false ->
  pid_gen dest <> p_gen p ->
  Process_sendMessage (S fuel) dest message ma w
    = Ok (ACTOR_IS_DEAD,
          add_trace [EvTryLock (Z.to_nat (pid_id dest)) true;
                     EvUnlock (Z.to_nat (pid_id dest))] w).
Proof.
  intros Hpq Hp Hlock Hgen. unfold Process_sendMessage. rewrite Hpq.
  step_get. rewrite Hlock. cbn [spinTryLock cas Bool.eqb].
  step_modify. step_emit. step_get.
  cbn [p_gen set_releaseLock p_releaseLock].
  destruct (Z.eqb_spec (pid_gen dest) (p_gen p)) as [E|_]; [contradiction|].
  cbn [negb]. mstep ltac:(reflexivity).
  step_modify. step_emit.
  rewrite with_proc_add_trace, add_trace_add_trace, with_proc_twice.
  replace (set_releaseLock false (set_releaseLock true p)) with p
    by (destruct p; simpl in *; subst; reflexivity).
  rewrite (with_proc_same _ _ _ Hp). reflexivity.
Qed.


Lemma queue_of_inbox w i p :
  pq_processes (w_pq w) !! i = Some p ->
  queue_of (QInbox i) w = Some (p_messageQueue p).
Proof. intros H. simpl. rewrite H. reflexivity. Qed.

(** The path on which the try-lock succeeds, the generations agree and the
    inbox accepts the message: the function returns with the lock held. *)
Lemma Process_sendMessage_success fuel w dest message ma p bq' :
  pid_pq dest = PQ_this ->
  pq_processes (w_pq w) !! Z.to_nat (pid_id dest) = Some p ->
  p_releaseLock p = false ->
  pid_gen dest = p_gen p ->
  BoundedQueue_push fuel (p_messageQueue p) message = Ok (true, bq') ->
  Process_sendMessage fuel dest message ma w
    = Ok (SEND_SUCCESS,
          add_trace [EvTryLock (Z.to_nat (pid_id dest)) true;
                     EvPush (QInbox (Z.to_nat (pid_id dest))) message true]
            (with_proc (Z.to_nat (pid_id dest))
               (set_messageQueue bq' (set_releaseLock true p)) w)).
Proof.
  intros Hpq Hp Hlock Hgen Hpush. unfold Process_sendMessage. rewrite Hpq.
  step_get. rewrite Hlock. cbn [spinTryLock cas Bool.eqb].
  step_modify. step_emit. step_get.
  cbn [p_gen set_releaseLock p_releaseLock].
  rewrite Hgen, Z.eqb_refl. cbn [negb].
  mstep ltac:(eapply push_at_ok;
              [apply queue_of_inbox; solve_lookup | exact Hpush]).
  cbn [with_queue]. rewrite procs_add_trace.
  rewrite (with_proc_lookup _ _ _ _ Hp).
  rewrite with_proc_add_trace, add_trace_add_trace, with_proc_twice.
  reflexivity.
Qed.

(** The path on which the try-lock succeeds, the generations agree and the
    inbox is full, with [MA_KEEP]: again the lock stays held. *)
Lemma Process_sendMessage_full_keep fuel w dest message p :
  pid_pq dest = PQ_this ->
  pq_processes (w_pq w) !! Z.to_nat (pid_id dest) = Some p ->
  p_releaseLock p = false ->
  pid_gen dest = p_gen p ->
  BoundedQueue_push fuel (p_messageQueue p) message
    = Ok (false, p_messageQueue p) ->
  Process_sendMessage fuel dest message MA_KEEP w
    = Ok (SEND_FAIL,
          add_trace [EvTryLock (Z.to_nat (pid_id dest)) true;
                     EvPush (QInbox (Z.to_nat (pid_id dest))) message false]
            (with_proc (Z.to_nat (pid_id dest)) (set_releaseLock true p) w)).
Proof.
  intros Hpq Hp Hlock Hgen Hpush. unfold Process_sendMessage. rewrite Hpq.
  step_get. rewrite Hlock. cbn [spinTryLock cas Bool.eqb].
  step_modify. step_emit. step_get.
  cbn [p_gen set_releaseLock p_releaseLock].
  rewrite Hgen, Z.eqb_refl. cbn [negb].
  mstep ltac:(eapply push_at_ok;
              [apply queue_of_inbox; solve_lookup | exact Hpush]).
  mstep ltac:(apply ret_ok).
  cbn [with_queue]. rewrite procs_add_trace.
  rewrite (with_proc_lookup _ _ _ _ Hp).
  rewrite with_proc_add_trace, add_trace_add_trace, with_proc_twice.
  replace (set_messageQueue (p_messageQueue p) (set_releaseLock true p))
    with (set_releaseLock true p) by (destruct p; reflexivity).
  reflexivity.
Qed.

(** A send through a PID whose generation is not the slot's returns, and
    never with [SEND_SUCCESS]. *)
Lemma Process_sendMessage_stale fuel w dest message ma p :
  pid_pq dest = PQ_this ->
  pq_processes (w_pq w) !! Z.to_nat (pid_id dest) = Some p ->
  pid_gen dest <> p_gen p ->
  exists r w',
    Process_sendMessage (S fuel) dest message ma w = Ok (r, w') /\
    r = (if p_releaseLock p then SEND_FAIL else ACTOR_IS_DEAD) /\
    w_pq w' = w_pq w /\ w_user w' = w_user w.
Proof.
  intros Hpq Hp Hgen. destruct (p_releaseLock p) eqn:Hlock.
  - eexists _, _. split; [|split; [reflexivity|]].
    + apply Process_sendMessage_locked with (p := p); assumption.
    + split; reflexivity.
  - eexists _, _. split; [|split; [reflexivity|]].
    + apply Process_sendMessage_dead with (p := p); assumption.
    + split; reflexivity.
Qed.

(** The two unguarded accesses at the head of the function. *)
Lemma Process_sendMessage_null_pq fuel w dest message ma :
  pid_pq dest = PQ_NULL ->
  Process_sendMessage fuel dest message ma w = Fault.
Proof. intros H. unfold Process_sendMessage. rewrite H. reflexivity. Qed.

Lemma Process_sendMessage_out_of_range fuel w dest message ma :
  pq_processes (w_pq w) !! Z.to_nat (pid_id dest) = None ->
  Process_sendMessage fuel dest message ma w = Fault.
Proof.
  intros H. unfold Process_sendMessage. destruct (pid_pq dest); [reflexivity|].
  apply bind_fault. apply get_proc_fault. assumption.
Qed.

End SendMessage.

(** ** Draining and freeing a queue *)

Section Release.

Context {U : Type} {UC : UserCode U}.

Implicit Types (w : World U) (p : Process) (q : ProcessQueue).

Lemma set_messageQueue_twice b1 b2 p :
  set_messageQueue b2 (set_messageQueue b1 p) = set_messageQueue b2 p.
Proof. reflexivity. Qed.

Lemma with_queue_twice w loc b1 b2 :
  with_queue loc b2 (with_queue loc b1 w) = with_queue loc b2 w.
Proof.
  destruct loc as [| |i]; try reflexivity.
  simpl. destruct (pq_processes (w_pq w) !! i) as [p|] eqn:E.
  - simpl. rewrite list_lookup_insert_eq by (eapply lookup_lt_Some; eassumption).
    rewrite with_proc_twice. reflexivity.
  - rewrite E. reflexivity.
Qed.

Lemma with_queue_with_user loc bq u w :
  with_queue loc bq (with_user u w) = with_user u (with_queue loc bq w).
Proof.
  destruct loc as [| |i]; try reflexivity.
  simpl. destruct (pq_processes (w_pq w) !! i); reflexivity.
Qed.

Lemma queue_of_with_user loc u w :
  queue_of loc (with_user u w) = queue_of loc w.
Proof. destruct loc; reflexivity. Qed.

Lemma with_user_twice u1 u2 w : with_user u2 (with_user u1 w) = with_user u2 w.
Proof. reflexivity. Qed.

Lemma with_user_same w : with_user (w_user w) w = w.
Proof. destruct w; reflexivity. Qed.

Lemma w_user_with_queue loc bq w : w_user (with_queue loc bq w) = w_user w.
Proof.
  destruct loc as [| |i]; try reflexivity.
  simpl. destruct (pq_processes (w_pq w) !! i); reflexivity.
Qed.

Lemma is_null_false (x : ptr) : x <> NULL -> is_null x = false.
Proof. destruct x; [contradiction | reflexivity | reflexivity]. Qed.

Lemma call_elementRelease_user pr f x w :
  call_elementRelease pr (ER_user f) x w
    = Ok (tt, add_trace [EvElementRelease f x]
                (with_user (user_release f x (w_user w)) w)).
Proof. reflexivity. Qed.

Lemma release_loop_S pr n fuel loc :
  release_loop pr (S n) fuel loc =
  bind (pop_at fuel loc) (fun element =>
    if is_null element then ret tt
    else bind (get_queue loc) (fun bq =>
           bind (call_elementRelease pr (bq_elementRelease bq) element)
                (fun _ => release_loop pr n fuel loc))).
Proof. reflexivity. Qed.

(** The drain loop on a well-formed queue with a user destructor hands
    every stored payload to the destructor, oldest first, and stops at the
    empty answer. *)
Lemma release_loop_user pr fuel loc f msgs :
  forall n w bq F,
    queue_of loc w = Some bq ->
    bq_elementRelease bq = ER_user f ->
    queue_rep bq F msgs ->
    Forall (fun m => m <> NULL) msgs ->
    exists bq',
      release_loop pr (S (length msgs + n)) (S fuel) loc w
        = Ok (tt, add_trace (drain_events loc f msgs)
                    (with_user (released f msgs (w_user w))
                       (with_queue loc bq' w))) /\
      queue_rep bq' (F + Z.of_nat (length msgs)) [] /\
      bq_elementRelease bq' = ER_user f /\
      bq_cap bq' = bq_cap bq.
Proof.
  induction msgs as [|m msgs IH]; intros n w bq F Hq Hrel Hrep Hnn.
  - exists bq. split; [|split; [|split]]; try assumption; try reflexivity.
    + rewrite release_loop_S.
      mstep ltac:(eapply pop_at_ok; [exact Hq | apply (pop_rep_empty fuel bq F Hrep)]).
      cbn [is_null]. unfold ret, drain_events, released. cbn [flat_map fold_left app].
      rewrite <- (w_user_with_queue loc bq w), with_user_same. reflexivity.
    + replace (F + Z.of_nat (length (@nil ptr))) with F by (simpl; lia).
      assumption.
  - inversion Hnn as [|? ? Hm Hnn']; subst.
    destruct (pop_rep_ok fuel bq F m msgs Hrep) as (bq1 & Hpop & Hrep1 & Hc1 & Hr1).
    cbn [length Nat.add]. rewrite release_loop_S.
    mstep ltac:(eapply pop_at_ok; [exact Hq | exact Hpop]).
    rewrite (is_null_false m Hm).
    mstep ltac:(apply get_queue_ok; rewrite queue_of_add_trace;
                eapply queue_of_with_queue; eassumption).
    rewrite Hr1, Hrel.
    mstep ltac:(apply call_elementRelease_user).
    match goal with
    | |- context [release_loop _ _ _ _ ?w1] =>
        destruct (IH n w1 bq1 (F + 1)) as (bq' & Hrun & Hrep' & Hr' & Hc')
    end.
    { rewrite queue_of_add_trace, queue_of_with_user, queue_of_add_trace.
      eapply queue_of_with_queue. eassumption. }
    { congruence. }
    { assumption. }
    { assumption. }
    exists bq'. split; [|split; [|split]].
    + rewrite Hrun.
      unfold drain_events, released. cbn [flat_map fold_left].
      rewrite !with_queue_add_trace, !with_queue_with_user,
        !with_queue_add_trace, with_queue_twice.
      rewrite !with_user_add_trace, !add_trace_add_trace.
      cbn [w_user add_trace with_user]. rewrite w_user_with_queue.
      rewrite <- !app_assoc. reflexivity.
    + replace (F + Z.of_nat (S (length msgs)))
        with (F + 1 + Z.of_nat (length msgs)) by lia.
      assumption.
    + assumption.
    + congruence.
Qed.


Lemma BoundedQueue_release_user pr loc f msgs n w bq F :
  queue_of loc w = Some bq ->
  bq_elementRelease bq = ER_user f ->
  queue_rep bq F msgs ->
  Forall (fun m => m <> NULL) msgs ->
  exists bq',
    BoundedQueue_release pr (S (length msgs + n)) loc w
      = Ok (tt, add_trace (drain_events loc f msgs ++ [EvFree loc])
                  (with_user (released f msgs (w_user w))
                     (with_queue loc (set_elements None bq') w))) /\
    queue_rep bq' (F + Z.of_nat (length msgs)) [] /\
    bq_elementRelease bq' = ER_user f /\
    bq_cap bq' = bq_cap bq.
Proof.
  intros Hq Hrel Hrep Hnn.
  destruct (release_loop_user pr (length msgs + n) loc f msgs n w bq F
              Hq Hrel Hrep Hnn) as (bq' & Hrun & Hrep' & Hr' & Hc').
  exists bq'. split; [|auto].
  unfold BoundedQueue_release.
  mstep ltac:(apply get_queue_ok; exact Hq).
  rewrite Hrel. mstep ltac:(exact Hrun).
  mstep ltac:(apply get_queue_ok; rewrite queue_of_add_trace, queue_of_with_user;
              eapply queue_of_with_queue; eassumption).
  mstep ltac:(eapply set_queue_ok; rewrite queue_of_add_trace, queue_of_with_user;
              eapply queue_of_with_queue; eassumption).
  rewrite emit_ok.
  rewrite !with_queue_add_trace, !with_queue_with_user, with_queue_twice.
  rewrite add_trace_add_trace. reflexivity.
Qed.

Lemma BoundedQueue_release_none pr fuel loc w bq :
  queue_of loc w = Some bq ->
  bq_elementRelease bq = ER_NULL ->
  BoundedQueue_release pr fuel loc w
    = Ok (tt, add_trace [EvFree loc] (with_queue loc (set_elements None bq) w)).
Proof.
  intros Hq Hrel. unfold BoundedQueue_release.
  mstep ltac:(apply get_queue_ok; exact Hq).
  rewrite Hrel. mstep ltac:(apply ret_ok).
  mstep ltac:(apply get_queue_ok; exact Hq).
  mstep ltac:(eapply set_queue_ok; exact Hq).
  rewrite emit_ok. reflexivity.
Qed.

End Release.

(** ** Algebra of world updates *)

Section WorldAlgebra.

Context {U : Type}.

Implicit Types (w : World U) (p : Process) (q : ProcessQueue).

Lemma with_queue_inbox_with_proc w i p0 p bq :
  pq_processes (w_pq w) !! i = Some p0 ->
  with_queue (QInbox i) bq (with_proc i p w)
    = with_proc i (set_messageQueue bq p) w.
Proof.
  intros H. cbn [with_queue].
  rewrite (with_proc_lookup _ _ _ _ H). apply with_proc_twice.
Qed.

Lemma with_proc_with_user i p u w :
  with_proc i p (with_user u w) = with_user u (with_proc i p w).
Proof. reflexivity. Qed.

Lemma with_proc_with_pool i p b w :
  with_proc i p (with_queue QPool b w) = with_queue QPool b (with_proc i p w).
Proof. reflexivity. Qed.

Lemma procs_with_pool b w :
  pq_processes (w_pq (with_queue QPool b w)) = pq_processes (w_pq w).
Proof. reflexivity. Qed.

Lemma pool_with_proc i p w :
  queue_of QPool (with_proc i p w) = queue_of QPool w.
Proof. reflexivity. Qed.

Lemma w_user_add_trace es w : w_user (add_trace es w) = w_user w.
Proof. reflexivity. Qed.

Lemma w_user_with_user u w : w_user (with_user u w) = u.
Proof. reflexivity. Qed.

Lemma w_user_with_proc i p w : w_user (with_proc i p w) = w_user w.
Proof. reflexivity. Qed.

Lemma with_pool_add_trace b es w :
  with_queue QPool b (add_trace es w) = add_trace es (with_queue QPool b w).
Proof. reflexivity. Qed.

Lemma with_pool_with_user b u w :
  with_queue QPool b (with_user u w) = with_user u (with_queue QPool b w).
Proof. reflexivity. Qed.

End WorldAlgebra.

Ltac wnorm :=
  repeat (progress
    rewrite ?with_proc_add_trace, ?with_user_add_trace, ?add_trace_add_trace,
      ?with_proc_twice, ?with_queue_add_trace, ?with_queue_with_user,
      ?with_proc_with_user, ?with_user_twice, ?w_user_add_trace,
      ?w_user_with_user, ?w_user_with_proc, ?with_pool_add_trace,
      ?with_pool_with_user, ?with_proc_with_pool).

(** ** Retirement *)

Section Retirement.

Context {U : Type} {UC : UserCode U}.

Implicit Types (w : World U) (p : Process) (q : ProcessQueue).

Lemma call_releaseState_ok f x w :
  call_releaseState f x w
    = Ok (tt, add_trace [EvReleaseState f x]
                (with_user (user_release f x (w_user w)) w)).
Proof. reflexivity. Qed.

Lemma release_state_step rs st w :
  match rs with
  | Some f => call_releaseState f st
  | None => ret tt
  end w
  = Ok (tt, add_trace (state_events rs st)
              (with_user match rs with
                         | Some f => user_release f st (w_user w)
                         | None => w_user w
                         end w)).
Proof.
  destruct rs as [f|]; [reflexivity|].
  cbn [state_events]. rewrite with_user_same, add_trace_nil. reflexivity.
Qed.

Lemma inbox_release_step pr i fm msgs n w p F :
  pq_processes (w_pq w) !! i = Some p ->
  bq_elementRelease (p_messageQueue p) = ElementRelease_of fm ->
  (fm <> None ->
   queue_rep (p_messageQueue p) F msgs /\ Forall (fun m => m <> NULL) msgs) ->
  exists inbox',
    BoundedQueue_release pr (S (length msgs + n)) (QInbox i) w
      = Ok (tt, add_trace (inbox_events i fm msgs ++ [EvFree (QInbox i)])
                  (with_user match fm with
                             | Some f => released f msgs (w_user w)
                             | None => w_user w
                             end
                     (with_proc i
                        (set_messageQueue (set_elements None inbox') p) w))) /\
    bq_cap inbox' = bq_cap (p_messageQueue p) /\
    bq_elementRelease inbox' = bq_elementRelease (p_messageQueue p).
Proof.
  intros Hp Hrel Hin.
  pose proof (queue_of_inbox _ _ _ Hp) as Hq.
  destruct fm as [f|]; cbn [ElementRelease_of] in Hrel.
  - destruct Hin as [Hrep Hnn]; [discriminate|].
    destruct (BoundedQueue_release_user pr (QInbox i) f msgs n w _ F
                Hq Hrel Hrep Hnn) as (inbox' & Hrun & _ & Hr' & Hc').
    exists inbox'. split; [|split; congruence].
    rewrite Hrun. cbn [with_queue inbox_events]. rewrite Hp. reflexivity.
  - exists (p_messageQueue p). split; [|split; reflexivity].
    rewrite (BoundedQueue_release_none _ _ _ _ _ Hq Hrel).
    cbn [with_queue inbox_events app]. rewrite Hp. reflexivity.
Qed.

Lemma processRelease_runs n w i p fm F msgs Fp pool :
  pq_processes (w_pq w) !! i = Some p ->
  p_processQueue p = PQ_this ->
  bq_elementRelease (p_messageQueue p) = ElementRelease_of fm ->
  (fm <> None ->
   queue_rep (p_messageQueue p) F msgs /\ Forall (fun m => m <> NULL) msgs) ->
  queue_rep (pq_procPool (w_pq w)) Fp pool ->
  Z.of_nat (length pool) < bq_cap (pq_procPool (w_pq w)) ->
  wrap_safe (bq_cap (pq_procPool (w_pq w))) (Fp + Z.of_nat (length pool) + 1) ->
  exists inbox' pool',
    processRelease (S (length msgs + S n)) (PProc i) w
      = Ok (tt, add_trace (retire_events i p fm msgs)
                  (with_user (retire_user p fm msgs (w_user w))
                     (with_queue QPool pool'
                        (with_proc i (retired_slot p inbox') w)))) /\
    queue_rep pool' Fp (pool ++ [PProc i]) /\
    bq_cap pool' = bq_cap (pq_procPool (w_pq w)) /\
    bq_elementRelease pool' = bq_elementRelease (pq_procPool (w_pq w)) /\
    bq_cap inbox' = bq_cap (p_messageQueue p) /\
    bq_elementRelease inbox' = bq_elementRelease (p_messageQueue p).
Proof.
  intros Hp Hpq Hrel Hinbox Hpool Hroom Hsafe.
  destruct (push_rep_ok (length msgs + S n) _ Fp pool (PProc i) Hpool Hroom Hsafe)
    as (pool' & Hpush & Hpool' & Hpc & Hpr).
  set (p2 := set_gen (wrap32 (p_gen p + 1)) (set_releaseLock true p)).
  destruct (inbox_release_step (fun _ => fault) i fm msgs (S n)
              (add_trace (state_events (p_releaseState p) (p_state p))
                 (with_user match p_releaseState p with
                            | Some f => user_release f (p_state p) (w_user w)
                            | None => w_user w
                            end
                    (add_trace [EvLock i; EvGen i (wrap32 (p_gen p + 1))]
                       (with_proc i p2 w))))
              p2 F)
    as (inbox' & Hrun & Hic & Hir).
  { solve_lookup. }
  { exact Hrel. }
  { exact Hinbox. }
  exists inbox', pool'. split; [|auto].
  unfold processRelease. cbn [as_proc].
  mstep ltac:(apply ret_ok). step_get.
  mstep ltac:(unfold lift; replace (length msgs + S n)%nat with (S (length msgs + n)) by lia;
              rewrite spinLock_ok; reflexivity).
  step_modify. step_emit.
  mstep ltac:(unfold fetch_add_gen; step_get; cbn [p_gen set_releaseLock];
              step_modify; apply emit_ok).
  step_get.
  rewrite with_proc_add_trace, add_trace_add_trace, with_proc_twice.
  cbn [p_releaseState p_state set_gen set_releaseLock app].
  mstep ltac:(apply release_state_step).
  fold p2. cbn [w_user add_trace with_proc].
  mstep ltac:(exact Hrun).
  wnorm. step_get.
  cbn [p_processQueue set_messageQueue]. unfold p2 at 1.
  cbn [p_processQueue set_gen set_releaseLock]. rewrite Hpq.
  mstep ltac:(mstep ltac:(eapply push_at_ok; [reflexivity | exact Hpush]);
              apply ret_ok).
  wnorm. step_get.
  mstep ltac:(unfold lift; replace (length msgs + S n)%nat with (S (length msgs + n)) by lia;
              rewrite spinUnlock_ok; reflexivity).
  step_modify. rewrite emit_ok. wnorm.
  unfold retire_events, retire_user, retired_slot, p2.
  rewrite <- !app_assoc. reflexivity.
Qed.

End Retirement.

(** ** Dispatch of one handler call *)

Section Dispatch.

Context {U : Type} {UC : UserCode U}.

Implicit Types (w : World U) (p : Process) (q : ProcessQueue).

Lemma tls_set_ok tid i w :
  tls_set tid (PProc i) w
    = Ok (tt, mkWorld (entered tid i (w_pq w)) (w_user w) (w_trace w)).
Proof. reflexivity. Qed.

(** [handleProcess] up to the [switch]: the thread-specific key is set, the
    handler of the slot is called on the state of the slot and [msg]. *)
Lemma handleProcess_call fuel tid i msg w p f r q' u' :
  pq_processes (w_pq w) !! i = Some p ->
  p_handler p = Some f ->
  user_handler f tid (p_state p) msg (entered tid i (w_pq w)) (w_user w)
    = Ok (r, q', u') ->
  handleProcess fuel tid (PProc i) msg w
    = match r with
      | PCT_STOP => bind (processRelease fuel (PProc i)) (fun _ => ret false)
      | PCT_WAIT_MESSAGE =>
          bind (modify_proc i (set_runningState PS_WAITING)) (fun _ => ret true)
      | PCT_CONTINUE =>
          bind (modify_proc i (set_runningState PS_RUNNING)) (fun _ => ret true)
      end (mkWorld q' u'
             (w_trace w ++
              [EvHandler i f (p_runningState p) (p_state p) msg r])).
Proof.
  intros Hp Hf Hcall. unfold handleProcess.
  mstep ltac:(apply tls_set_ok). cbn [as_proc].
  mstep ltac:(apply ret_ok).
  mstep ltac:(apply get_proc_ok; exact Hp).
  rewrite Hf.
  mstep ltac:(unfold call_handler; cbn [w_pq w_user w_trace];
              rewrite Hcall; reflexivity).
  reflexivity.
Qed.

Lemma handleProcess_null_handler fuel tid i msg w p :
  pq_processes (w_pq w) !! i = Some p ->
  p_handler p = None ->
  handleProcess fuel tid (PProc i) msg w = Fault.
Proof.
  intros Hp Hf. unfold handleProcess.
  mstep ltac:(apply tls_set_ok). cbn [as_proc].
  mstep ltac:(apply ret_ok).
  mstep ltac:(apply get_proc_ok; exact Hp).
  rewrite Hf. reflexivity.
Qed.

End Dispatch.

(** ** The batch of a worker visit *)

Section Batch.

Context {U : Type} {UC : UserCode U}.

Implicit Types (w : World U) (p : Process) (q : ProcessQueue).





Lemma processRelease_enough fuel w i p fm F msgs Fp pool :
  (length msgs + 2 <= fuel)%nat ->
  pq_processes (w_pq w) !! i = Some p ->
  p_processQueue p = PQ_this ->
  bq_elementRelease (p_messageQueue p) = ElementRelease_of fm ->
  (fm <> None ->
   queue_rep (p_messageQueue p) F msgs /\ Forall (fun m => m <> NULL) msgs) ->
  queue_rep (pq_procPool (w_pq w)) Fp pool ->
  Z.of_nat (length pool) < bq_cap (pq_procPool (w_pq w)) ->
  wrap_safe (bq_cap (pq_procPool (w_pq w))) (Fp + Z.of_nat (length pool) + 1) ->
  exists inbox' pool',
    processRelease fuel (PProc i) w
      = Ok (tt, add_trace (retire_events i p fm msgs)
                  (with_user (retire_user p fm msgs (w_user w))
                     (with_queue QPool pool'
                        (with_proc i (retired_slot p inbox') w)))) /\
    queue_rep pool' Fp (pool ++ [PProc i]) /\
    bq_cap pool' = bq_cap (pq_procPool (w_pq w)) /\
    bq_elementRelease pool' = bq_elementRelease (pq_procPool (w_pq w)) /\
    bq_cap inbox' = bq_cap (p_messageQueue p) /\
    bq_elementRelease inbox' = bq_elementRelease (p_messageQueue p).
Proof.
  intros Hfuel.
  replace fuel with (S (length msgs + S (fuel - length msgs - 2)))%nat by lia.
  apply processRelease_runs.
Qed.









Lemma batch_loop_S n fuel tid proc msgCount b :
  batch_loop (S n) fuel tid proc msgCount b =
  bind (as_proc proc) (fun i =>
    bind (get_proc i) (fun p =>
      if (msgCount <? p_maxMessagePerCycle p) && b then
        match p_runningState p with
        | PS_RUNNING =>
            bind (handleProcess fuel tid proc NULL) (fun b' =>
              batch_loop n fuel tid proc (wrap32 (msgCount + 1)) b')
        | PS_WAITING =>
            bind (pop_at fuel (QInbox i)) (fun msg =>
              if is_null msg then ret b
              else
                bind (handleProcess fuel tid proc msg) (fun b' =>
                  batch_loop n fuel tid proc (wrap32 (msgCount + 1)) b'))
        end
      else ret b)).
Proof. reflexivity. Qed.

(** Once [pushActorBack] is false the loop is left at once. *)
Lemma batch_loop_stopped n fuel tid i msgCount w p :
  pq_processes (w_pq w) !! i = Some p ->
  batch_loop (S n) fuel tid (PProc i) msgCount false w = Ok (false, w).
Proof.
  intros Hp. rewrite batch_loop_S. cbn [as_proc].
  mstep ltac:(apply ret_ok). mstep ltac:(apply get_proc_ok; exact Hp).
  rewrite andb_false_r. reflexivity.
Qed.


End Batch.

(** ** One visit of a worker *)

Section Visit.

Context {U : Type} {UC : UserCode U}.

Implicit Types (w : World U) (p : Process) (q : ProcessQueue).

Lemma push_retry_room n fuel loc x w bq :
  queue_of loc w = Some bq ->
  has_room bq ->
  exists bq' F l,
    push_retry (S n) (S fuel) loc x w
      = Ok (tt, add_trace [EvPush loc x true] (with_queue loc bq' w)) /\
    queue_rep bq F l /\
    queue_rep bq' F (l ++ [x]) /\
    bq_cap bq' = bq_cap bq /\
    bq_elementRelease bq' = bq_elementRelease bq.
Proof.
  intros Hq (F & l & Hrep & Hroom & Hsafe).
  destruct (push_rep_ok fuel bq F l x Hrep Hroom Hsafe)
    as (bq' & Hpush & Hrep' & Hc & Hr).
  exists bq', F, l. split; [|auto].
  cbn [push_retry].
  mstep ltac:(eapply push_at_ok; [exact Hq | exact Hpush]).
  reflexivity.
Qed.


End Visit.

(** ** Spawn, parent and self *)

Section SpawnParent.

Context {U : Type} {UC : UserCode U}.

Implicit Types (w : World U) (p : Process) (q : ProcessQueue).

Lemma set_procCount_back c q :
  c = pq_procCount q -> set_procCount c (set_procCount (wrap32 (c + 1)) q) = q.
Proof. intros ->. destruct q; reflexivity. Qed.

(** The admission test fails: the count is restored, the destructor of
    the initial state is called if there is one, the null PID is returned. *)
Lemma ProcessQueue_spawn_full fuel tid parameters w :
  pq_processCap (w_pq w) <= pq_procCount (w_pq w) ->
  0 <= pq_procCount (w_pq w) < 4294967296 ->
  ProcessQueue_spawn fuel tid parameters w
    = Ok (null_PID,
          add_trace (state_events (sp_releaseState parameters)
                                  (sp_initialState parameters))
            (with_user
               match sp_releaseState parameters with
               | Some f => user_release f (sp_initialState parameters) (w_user w)
               | None => w_user w
               end w)).
Proof.
  intros Hfull Hrange. unfold ProcessQueue_spawn.
  mstep ltac:(reflexivity). mstep ltac:(reflexivity).
  destruct (Z.ltb_spec (pq_procCount (w_pq w)) (pq_processCap (w_pq w))); [lia|].
  mstep ltac:(reflexivity). mstep ltac:(reflexivity).
  cbn [w_pq pq_procCount set_procCount].
  replace (wrap32 (wrap32 (pq_procCount (w_pq w) + 1) - 1))
    with (pq_procCount (w_pq w)) by (unfold wrap32; zmod).
  mstep ltac:(apply release_state_step).
  unfold ret. cbn [w_user w_trace w_pq].
  rewrite set_procCount_back by reflexivity.
  unfold add_trace, with_user. cbn [w_user w_trace w_pq]. reflexivity.
Qed.

Lemma tls_get_ok tid w :
  tls_get tid w = Ok (default NULL (pq_currentProcess (w_pq w) !! tid), w).
Proof. reflexivity. Qed.

(** [Process_parent] in a handler whose process has a parent: the PID is
    made of the parent slot's id and of its generation at the time of the
    call. *)
Lemma Process_parent_some tid w i p j parent :
  pq_currentProcess (w_pq w) !! tid = Some (PProc i) ->
  pq_processes (w_pq w) !! i = Some p ->
  p_parent p = PProc j ->
  pq_processes (w_pq w) !! j = Some parent ->
  Process_parent tid w
    = Ok ({| pid_pq := PQ_this; pid_id := p_id parent; pid_gen := p_gen parent |},
          w).
Proof.
  intros Htls Hp Hpar Hj. unfold Process_parent.
  mstep ltac:(apply tls_get_ok). rewrite Htls. cbn [default as_proc].
  mstep ltac:(apply ret_ok). step_get. rewrite Hpar. cbn [as_proc].
  mstep ltac:(apply ret_ok). step_get. reflexivity.
Qed.

(** [Process_parent] in a handler whose process was spawned from outside a
    handler: the null parent pointer is dereferenced. *)
Lemma Process_parent_none tid w i p :
  pq_currentProcess (w_pq w) !! tid = Some (PProc i) ->
  pq_processes (w_pq w) !! i = Some p ->
  p_parent p = NULL ->
  Process_parent tid w = Fault.
Proof.
  intros Htls Hp Hpar. unfold Process_parent.
  mstep ltac:(apply tls_get_ok). rewrite Htls. cbn [default as_proc].
  mstep ltac:(apply ret_ok). step_get. rewrite Hpar. reflexivity.
Qed.


End SpawnParent.

(** ** Generations along an execution *)

Section Evolution.

Context {U : Type} {UC : UserCode U}.

Implicit Types (w : World U) (p : Process) (q : ProcessQueue).

Lemma gen_bumps_app i evs1 evs2 :
  gen_bumps i (evs1 ++ evs2) = (gen_bumps i evs1 + gen_bumps i evs2)%nat.
Proof. unfold gen_bumps. rewrite List.filter_app, length_app. reflexivity. Qed.

Lemma gen_after_add a b g : gen_after (a + b) g = gen_after b (gen_after a g).
Proof.
  unfold gen_after. rewrite Nat.add_comm. apply Nat.iter_add.
Qed.

Lemma gen_after_S k g : gen_after (S k) g = wrap32 (gen_after k g + 1).
Proof. reflexivity. Qed.

Lemma gen_after_range k g :
  0 <= g < 4294967296 -> 0 <= gen_after k g < 4294967296.
Proof.
  intros Hg. destruct k as [|k]; [exact Hg|].
  rewrite gen_after_S. apply wrap32_range.
Qed.

(** [k] increments of the counter add [k] modulo 2^32. *)
Lemma gen_after_wrap k g :
  0 <= g < 4294967296 -> gen_after k g = wrap32 (g + Z.of_nat k).
Proof.
  intros Hg. induction k as [|k IH].
  - cbn. rewrite Z.add_0_r, wrap32_small; [reflexivity | exact Hg].
  - rewrite gen_after_S, IH, wrap32_add_l. f_equal. lia.
Qed.

Lemma pq_evolves_refl q : pq_evolves (fun _ => 0%nat) q q.
Proof.
  split; [|split]; auto.
  intros i p Hp. exists p. auto.
Qed.

Lemma pq_evolves_trans b1 b2 q1 q2 q3 :
  pq_evolves b1 q1 q2 -> pq_evolves b2 q2 q3 ->
  pq_evolves (fun i => (b1 i + b2 i)%nat) q1 q3.
Proof.
  intros (Hs1 & Hst1 & Ht1) (Hs2 & Hst2 & Ht2). split; [|split]; auto.
  intros i p Hp.
  destruct (Hs1 i p Hp) as (p' & Hp' & Hid' & Hg').
  destruct (Hs2 i p' Hp') as (p'' & Hp'' & Hid'' & Hg'').
  exists p''. split; [assumption|]. split; [congruence|].
  rewrite gen_after_add, <- Hg'. assumption.
Qed.

Lemma pq_evolves_ext b b' q q' :
  (forall i, b i = b' i) -> pq_evolves b q q' -> pq_evolves b' q q'.
Proof.
  intros E (Hs & Hst & Ht). split; [|split]; auto.
  intros i p Hp. destruct (Hs i p Hp) as (p' & H1 & H2 & H3).
  exists p'. rewrite <- E. auto.
Qed.

Lemma evolves_refl w : evolves w w.
Proof. exists []. rewrite app_nil_r. split; [reflexivity|]. apply pq_evolves_refl. Qed.

Lemma evolves_trans w1 w2 w3 : evolves w1 w2 -> evolves w2 w3 -> evolves w1 w3.
Proof.
  intros (e1 & Ht1 & H1) (e2 & Ht2 & H2). exists (e1 ++ e2). split.
  - rewrite Ht2, Ht1, app_assoc. reflexivity.
  - eapply pq_evolves_ext; [|eapply pq_evolves_trans; eassumption].
    intros i. cbn. rewrite gen_bumps_app. reflexivity.
Qed.

(** *** Composition *)

Lemma respects_ret {A : Type} (a : A) : respects evolves (ret (U := U) a).
Proof. intros w a' w' H. injection H as _ <-. apply evolves_refl. Qed.

Lemma respects_bind {A B : Type} (m : @M U A) (k : A -> @M U B) :
  respects evolves m -> (forall a, respects evolves (k a)) ->
  respects evolves (bind m k).
Proof.
  intros Hm Hk w b w' H. apply bind_inv in H as (a & w1 & H1 & H2).
  eapply evolves_trans; [eapply Hm | eapply Hk]; eassumption.
Qed.

Lemma respects_fault {A : Type} : respects evolves (fault (U := U) (A := A)).
Proof. intros w a w' H. discriminate. Qed.

Lemma respects_out_of_fuel {A : Type} :
  respects evolves (out_of_fuel (U := U) (A := A)).
Proof. intros w a w' H. discriminate. Qed.

Lemma respects_lift {A : Type} (r : Res A) : respects evolves (lift (U := U) r).
Proof.
  intros w a w' H. unfold lift in H. destruct r; try discriminate.
  injection H as _ <-. apply evolves_refl.
Qed.

Lemma respects_get_pq : respects evolves (get_pq (U := U)).
Proof. intros w a w' H. injection H as _ <-. apply evolves_refl. Qed.

(** *** Primitive steps *)

Lemma evolves_pq (f : ProcessQueue -> ProcessQueue) w :
  pq_evolves (fun _ => 0%nat) (w_pq w) (f (w_pq w)) ->
  evolves w (mkWorld (f (w_pq w)) (w_user w) (w_trace w)).
Proof.
  intros H. exists []. cbn. rewrite app_nil_r. split; [reflexivity|]. exact H.
Qed.

Lemma respects_modify_pq (f : ProcessQueue -> ProcessQueue) :
  (forall q, pq_evolves (fun _ => 0%nat) q (f q)) ->
  respects evolves (modify_pq (U := U) f).
Proof.
  intros Hf w a w' H. injection H as _ <-. apply evolves_pq. apply Hf.
Qed.

Lemma respects_modify_user (f : U -> U) : respects evolves (modify_user f).
Proof.
  intros w a w' H. injection H as _ <-.
  apply (evolves_pq (fun q => q)). apply pq_evolves_refl.
Qed.

Lemma respects_emit e :
  (forall i, is_bump i e = false) -> respects evolves (emit (U := U) e).
Proof.
  intros He w a w' H. injection H as _ <-. exists [e]. split; [reflexivity|].
  eapply pq_evolves_ext; [|apply pq_evolves_refl].
  intros i. unfold gen_bumps. cbn. rewrite He. reflexivity.
Qed.

Lemma pq_evolves_set_slot q i p p' :
  pq_processes q !! i = Some p ->
  p_id p' = p_id p -> p_gen p' = p_gen p ->
  pq_evolves (fun _ => 0%nat) q (set_processes (<[i := p']> (pq_processes q)) q).
Proof.
  intros Hp Hid Hgen. split; [|split]; auto.
  intros j pj Hj. cbn. destruct (decide (i = j)) as [->|Hne].
  - exists p'. rewrite list_lookup_insert_eq by (eapply lookup_lt_Some; eassumption).
    assert (pj = p) by congruence. subst pj. auto.
  - exists pj. rewrite list_lookup_insert_ne by assumption. auto.
Qed.

Lemma respects_get_proc i : respects evolves (get_proc (U := U) i).
Proof.
  intros w a w' H. unfold get_proc, bind, get_pq in H.
  destruct (pq_processes (w_pq w) !! i); [|discriminate].
  injection H as _ <-. apply evolves_refl.
Qed.

Lemma respects_modify_proc i (f : Process -> Process) :
  (forall p, p_id (f p) = p_id p /\ p_gen (f p) = p_gen p) ->
  respects evolves (modify_proc (U := U) i f).
Proof.
  intros Hf w a w' H. unfold modify_proc in H.
  apply bind_inv in H as (p & w1 & H1 & H2).
  unfold get_proc, bind, get_pq in H1.
  destruct (pq_processes (w_pq w) !! i) as [p0|] eqn:E; [|discriminate].
  injection H1 as <- <-. injection H2 as _ <-.
  apply (evolves_pq (fun q => set_processes (<[i := f p0]> (pq_processes q)) q)).
  eapply pq_evolves_set_slot; [eassumption | apply Hf | apply Hf].
Qed.

Lemma respects_fetch_add_gen i : respects evolves (fetch_add_gen (U := U) i).
Proof.
  intros w a w' H. unfold fetch_add_gen in H.
  apply bind_inv in H as (p & w1 & H1 & H2).
  unfold get_proc, bind, get_pq in H1.
  destruct (pq_processes (w_pq w) !! i) as [p0|] eqn:E; [|discriminate].
  injection H1 as <- <-.
  rewrite (bind_ok _ _ _ _ _ (modify_proc_ok _ _ _ _ E)) in H2.
  injection H2 as _ <-.
  exists [EvGen i (wrap32 (p_gen p0 + 1))]. split; [reflexivity|].
  split; [|split]; auto.
  intros j pj Hj. cbn [w_pq add_trace with_proc set_processes pq_processes].
  unfold gen_bumps. cbn [List.filter is_bump].
  destruct (Nat.eqb_spec i j) as [->|Hne].
  - eexists. rewrite list_lookup_insert_eq by (eapply lookup_lt_Some; eassumption).
    assert (pj = p0) by congruence. subst pj.
    split; [reflexivity|]. split; reflexivity.
  - exists pj. rewrite list_lookup_insert_ne by assumption. auto.
Qed.

End Evolution.

Ltac resp_pq :=
  intros; split; [|split];
  [ intros ? ? ?; eexists; split; [eassumption | split; reflexivity]
  | auto
  | auto ].

Ltac resp :=
  repeat first
    [ assumption
    | match goal with H : forall _, respects _ _ |- _ => apply H end
    | match goal with H : forall _ _, respects _ _ |- _ => apply H end
    | apply respects_ret
    | apply respects_fault
    | apply respects_out_of_fuel
    | apply respects_lift
    | apply respects_get_pq
    | apply respects_get_proc
    | apply respects_fetch_add_gen
    | apply respects_modify_user
    | apply respects_emit; intros; reflexivity
    | apply respects_modify_proc; intros; split; reflexivity
    | apply respects_modify_pq; resp_pq
    | apply respects_bind; [ | intros ? ]
    | match goal with
      | |- context [match ?x with _ => _ end] => destruct x
      end ].

Section EvolutionOfCalls.

Context {U : Type} {UC : UserCode U}.

Hypothesis Hhandlers : handlers_evolve.

Implicit Types (w : World U) (p : Process) (q : ProcessQueue).

Lemma respects_get_queue loc : respects evolves (get_queue (U := U) loc).
Proof. unfold get_queue. resp. Qed.

Lemma respects_set_queue loc bq : respects evolves (set_queue (U := U) loc bq).
Proof. unfold set_queue. resp. Qed.

Lemma respects_push_at fuel loc x : respects evolves (push_at (U := U) fuel loc x).
Proof.
  unfold push_at. pose proof respects_get_queue. pose proof respects_set_queue.
  resp.
Qed.

Lemma respects_pop_at fuel loc : respects evolves (pop_at (U := U) fuel loc).
Proof.
  unfold pop_at. pose proof respects_get_queue. pose proof respects_set_queue.
  resp.
Qed.

Lemma respects_tls_get tid : respects evolves (tls_get (U := U) tid).
Proof. unfold tls_get. resp. Qed.

Lemma respects_tls_set tid x : respects evolves (tls_set (U := U) tid x).
Proof. unfold tls_set. resp. Qed.

Lemma respects_as_proc x : respects evolves (as_proc (U := U) x).
Proof. unfold as_proc. resp. Qed.

Lemma respects_call_releaseState f x : respects evolves (call_releaseState f x).
Proof. unfold call_releaseState. resp. Qed.

Lemma respects_call_elementRelease pr er x :
  (forall y, respects evolves (pr y)) ->
  respects evolves (call_elementRelease pr er x).
Proof. intros Hpr. unfold call_elementRelease. resp. Qed.

Lemma respects_release_loop pr n fuel loc :
  (forall y, respects evolves (pr y)) ->
  respects evolves (release_loop pr n fuel loc).
Proof.
  intros Hpr. induction n as [|n IH]; cbn [release_loop].
  - resp.
  - pose proof (respects_pop_at fuel loc). pose proof (respects_get_queue loc).
    apply respects_bind; [assumption|]. intros x.
    destruct (is_null x); [resp|].
    apply respects_bind; [assumption|]. intros bq.
    apply respects_bind; [apply respects_call_elementRelease; exact Hpr|].
    intros _. exact IH.
Qed.

Lemma respects_BoundedQueue_release pr fuel loc :
  (forall y, respects evolves (pr y)) ->
  respects evolves (BoundedQueue_release pr fuel loc).
Proof.
  intros Hpr. unfold BoundedQueue_release.
  apply respects_bind; [apply respects_get_queue|]. intros bq.
  apply respects_bind.
  - destruct (bq_elementRelease bq); [resp | |];
      apply respects_release_loop; exact Hpr.
  - intros _. apply respects_bind; [apply respects_get_queue|]. intros bq'.
    apply respects_bind; [apply respects_set_queue|]. intros _. resp.
Qed.

Lemma respects_processRelease fuel x :
  respects evolves (processRelease (UC := UC) fuel x).
Proof.
  unfold processRelease.
  apply respects_bind; [apply respects_as_proc|]. intros i.
  apply respects_bind; [resp|]. intros p.
  apply respects_bind; [resp|]. intros l.
  apply respects_bind; [resp|]. intros _.
  apply respects_bind; [resp|]. intros _.
  apply respects_bind; [resp|]. intros _.
  apply respects_bind; [resp|]. intros p1.
  apply respects_bind.
  { destruct (p_releaseState p1); [apply respects_call_releaseState | resp]. }
  intros _.
  apply respects_bind.
  { apply respects_BoundedQueue_release. intros y. resp. }
  intros _.
  apply respects_bind; [resp|]. intros p2.
  apply respects_bind.
  { destruct (p_processQueue p2); [resp|].
    apply respects_bind; [apply respects_push_at | intros; resp]. }
  intros _. resp.
Qed.

Lemma respects_call_handler i f tid rs st msg :
  respects evolves (call_handler i f tid rs st msg).
Proof.
  intros w r w' H. unfold call_handler in H.
  destruct (user_handler f tid st msg (w_pq w) (w_user w))
    as [[[r0 q'] u']| |] eqn:E; try discriminate.
  injection H as _ <-.
  exists [EvHandler i f rs st msg r0]. split; [reflexivity|].
  eapply pq_evolves_ext; [|eapply Hhandlers; exact E].
  intros j. reflexivity.
Qed.

Lemma respects_handleProcess fuel tid x msg :
  respects evolves (handleProcess fuel tid x msg).
Proof.
  unfold handleProcess.
  apply respects_bind; [apply respects_tls_set|]. intros _.
  apply respects_bind; [apply respects_as_proc|]. intros i.
  apply respects_bind; [resp|]. intros p.
  destruct (p_handler p) as [f|]; [|resp].
  apply respects_bind; [apply respects_call_handler|]. intros r.
  destruct r.
  - apply respects_bind; [apply respects_processRelease | intros; resp].
  - resp.
  - resp.
Qed.

Lemma respects_batch_loop n fuel tid x :
  forall msgCount b, respects evolves (batch_loop n fuel tid x msgCount b).
Proof.
  induction n as [|n IH]; intros msgCount b; cbn [batch_loop]; [resp|].
  apply respects_bind; [apply respects_as_proc|]. intros i.
  apply respects_bind; [resp|]. intros p.
  destruct ((msgCount <? p_maxMessagePerCycle p) && b); [|resp].
  destruct (p_runningState p).
  - apply respects_bind; [apply respects_handleProcess|]. intros b'. apply IH.
  - apply respects_bind; [apply respects_pop_at|]. intros msg.
    destruct (is_null msg); [resp|].
    apply respects_bind; [apply respects_handleProcess|]. intros b'. apply IH.
Qed.

Lemma respects_push_retry n fuel loc x :
  respects evolves (push_retry (U := U) n fuel loc x).
Proof.
  induction n as [|n IH]; cbn [push_retry]; [resp|].
  apply respects_bind; [apply respects_push_at|]. intros ok.
  destruct ok; [resp|]. apply respects_bind; [resp | intros; exact IH].
Qed.

Lemma respects_pop_retry n fuel loc :
  respects evolves (pop_retry (U := U) n fuel loc).
Proof.
  induction n as [|n IH]; cbn [pop_retry]; [resp|].
  apply respects_bind; [apply respects_pop_at|]. intros x.
  destruct (is_null x); [|resp]. apply respects_bind; [resp | intros; exact IH].
Qed.

Lemma respects_worker_visit fuel tid : respects evolves (worker_visit fuel tid).
Proof.
  unfold worker_visit.
  apply respects_bind; [apply respects_pop_at|]. intros x.
  destruct (is_null x); [resp|].
  apply respects_bind; [apply respects_batch_loop|]. intros b.
  destruct b; [apply respects_push_retry | resp].
Qed.


Lemma join_threads_inv threads : forall t w l' w',
  join_threads (U := U) threads t w = Ok (l', w') ->
  Forall (fun s => s = TH_RUNNING) threads /\
  Forall (fun s => s = TH_JOINED) l' /\
  length l' = length threads /\
  w_pq w' = w_pq w /\
  exists evs, w_trace w' = w_trace w ++ evs /\ forall i, gen_bumps i evs = 0%nat.
Proof.
  induction threads as [|s threads IH]; intros t w l' w' H.
  - injection H as <- <-. repeat split; auto. exists [].
    rewrite app_nil_r. auto.
  - destruct s; [|discriminate]. cbn [join_threads] in H.
    rewrite (bind_ok _ _ _ _ _ (emit_ok _ _)) in H.
    apply bind_inv in H as (rest' & w1 & H1 & H2). injection H2 as <- <-.
    destruct (IH _ _ _ _ H1) as (Hr & Hj & Hl & Hq & evs & Htr & Hb).
    split; [constructor; auto|]. split; [constructor; auto|].
    split; [simpl; congruence|]. split; [rewrite Hq; reflexivity|].
    exists (EvJoin t :: evs). split.
    + rewrite Htr. cbn. rewrite <- app_assoc. reflexivity.
    + intros i. unfold gen_bumps in *. cbn. apply Hb.
Qed.

Lemma respects_ProcessQueue_release fuel :
  respects evolves (ProcessQueue_release (UC := UC) fuel).
Proof.
  intros w a w' H. unfold ProcessQueue_release in H.
  rewrite (bind_ok _ _ _ _ _ (eq_refl : get_pq w = Ok (w_pq w, w))) in H.
  destruct (pq_state (w_pq w)) eqn:Est.
  2:{ injection H as _ <-. apply evolves_refl. }
  rewrite (bind_ok _ _ _ _ _
             (eq_refl : modify_pq (set_state DQS_STOPPED) w = Ok (tt, _))) in H.
  rewrite (bind_ok _ _ _ _ _ (eq_refl : get_pq _ = Ok (_, _))) in H.
  cbn [w_pq pq_threads set_state] in H.
  apply bind_inv in H as (l' & w1 & H1 & H2).
  apply bind_inv in H2 as ([] & w2 & H2 & H3).
  injection H2 as <-.
  destruct (join_threads_inv _ _ _ _ _ H1) as (Hr & Hj & Hl & Hq & evs & Htr & Hb).
  eapply evolves_trans;
    [|eapply respects_BoundedQueue_release;
      [intros y; apply respects_processRelease | exact H3]].
  exists evs. split; [exact Htr|]. cbn [w_pq]. rewrite Hq.
  split; [|split].
  - intros i p Hp. exists p. rewrite Hb. auto.
  - reflexivity.
  - intros t Ht. exfalso.
    rewrite Forall_lookup in Hr. specialize (Hr _ _ Ht). discriminate.
Qed.

Lemma respects_Process_sendMessage fuel dest message ma :
  respects evolves (Process_sendMessage (UC := UC) fuel dest message ma).
Proof.
  unfold Process_sendMessage. destruct (pid_pq dest); [resp|].
  apply respects_bind; [resp|]. intros p.
  destruct (spinTryLock (p_releaseLock p)) as [locked l].
  apply respects_bind; [resp|]. intros _.
  apply respects_bind; [resp|]. intros _.
  destruct locked; [|resp].
  apply respects_bind; [resp|]. intros p1.
  destruct (negb (pid_gen dest =? p_gen p1)); [resp|].
  apply respects_bind; [apply respects_push_at|]. intros ok.
  destruct ok; [resp|].
  apply respects_bind; [|intros; resp].
  destruct ma; [resp|].
  apply respects_bind; [resp|]. intros p2.
  apply respects_call_elementRelease. intros y. resp.
Qed.

Lemma respects_Process_receiveMessage fuel tid :
  respects evolves (Process_receiveMessage (U := U) fuel tid).
Proof.
  unfold Process_receiveMessage.
  apply respects_bind; [apply respects_tls_get|]. intros x.
  apply respects_bind; [apply respects_as_proc|]. intros i.
  apply respects_pop_at.
Qed.

Lemma respects_Process_self tid : respects evolves (Process_self (U := U) tid).
Proof.
  unfold Process_self.
  apply respects_bind; [apply respects_tls_get|]. intros x.
  apply respects_bind; [apply respects_as_proc|]. intros i. resp.
Qed.

Lemma respects_Process_parent tid :
  respects evolves (Process_parent (U := U) tid).
Proof.
  unfold Process_parent.
  apply respects_bind; [apply respects_tls_get|]. intros x.
  apply respects_bind; [apply respects_as_proc|]. intros i.
  apply respects_bind; [resp|]. intros p.
  apply respects_bind; [apply respects_as_proc|]. intros j. resp.
Qed.

Lemma respects_ProcessQueue_spawn fuel tid parameters :
  respects evolves (ProcessQueue_spawn (UC := UC) fuel tid parameters).
Proof.
  unfold ProcessQueue_spawn.
  apply respects_bind; [resp|]. intros q.
  apply respects_bind; [resp|]. intros _.
  destruct (pq_procCount q <? pq_processCap q).
  - apply respects_bind; [apply respects_pop_retry|]. intros x.
    apply respects_bind; [apply respects_tls_get|]. intros parent.
    apply respects_bind; [apply respects_as_proc|]. intros i.
    apply respects_bind; [resp|]. intros _.
    apply respects_bind; [apply respects_push_retry|]. intros _. resp.
  - apply respects_bind; [resp|]. intros q1.
    apply respects_bind; [resp|]. intros _.
    apply respects_bind; [|intros; resp].
    destruct (sp_releaseState parameters);
      [apply respects_call_releaseState | resp].
Qed.

Lemma respects_run_call fuel c : respects evolves (run_call fuel c).
Proof.
  destruct c; cbn [run_call].
  - apply respects_bind; [apply respects_ProcessQueue_spawn | intros; resp].
  - apply respects_bind; [apply respects_Process_sendMessage | intros; resp].
  - apply respects_bind; [apply respects_Process_receiveMessage | intros; resp].
  - apply respects_bind; [apply respects_Process_self | intros; resp].
  - apply respects_bind; [apply respects_Process_parent | intros; resp].
  - apply respects_worker_visit.
  - apply respects_ProcessQueue_release.
Qed.

(** Along every execution, whatever the calls: slots stay, ids stay, and
    the generation of slot [i] is its initial generation incremented once
    per retirement of the slot. *)
Lemma respects_run_calls fuel cs : respects evolves (run_calls fuel cs).
Proof.
  induction cs as [|c cs IH]; cbn [run_calls]; [resp|].
  apply respects_bind; [apply respects_run_call | intros; exact IH].
Qed.

End EvolutionOfCalls.

(** ** Admission of a new process *)

Section SpawnAdmitted.

Context {U : Type} {UC : UserCode U}.

Implicit Types (w : World U) (p : Process) (q : ProcessQueue).

Lemma pop_retry_first n fuel loc w bq F x l :
  queue_of loc w = Some bq ->
  queue_rep bq F (x :: l) ->
  x <> NULL ->
  exists bq',
    pop_retry (S n) (S fuel) loc w
      = Ok (x, add_trace [EvPop loc x] (with_queue loc bq' w)) /\
    queue_rep bq' (F + 1) l /\
    bq_cap bq' = bq_cap bq /\
    bq_elementRelease bq' = bq_elementRelease bq.
Proof.
  intros Hq Hrep Hx.
  destruct (pop_rep_ok fuel bq F x l Hrep) as (bq' & Hpop & Hrep' & Hc & Hr).
  exists bq'. split; [|auto]. cbn [pop_retry].
  mstep ltac:(eapply pop_at_ok; [exact Hq | exact Hpop]).
  rewrite (is_null_false x Hx). reflexivity.
Qed.

(** The admission test passes: a slot is taken from the pool, populated,
    and put on the run queue; the PID carries the id of the slot and its
    generation at that time. *)
Lemma ProcessQueue_spawn_admitted fuel tid parameters w i p Fp rest :
  pq_procCount (w_pq w) < pq_processCap (w_pq w) ->
  queue_rep (pq_procPool (w_pq w)) Fp (PProc i :: rest) ->
  pq_processes (w_pq w) !! i = Some p ->
  has_room (pq_runQueue (w_pq w)) ->
  exists pool' rq' Fr l,
    ProcessQueue_spawn (S fuel) tid parameters w
      = Ok ({| pid_pq := PQ_this; pid_id := p_id p; pid_gen := p_gen p |},
            add_trace [EvPop QPool (PProc i); EvPush QRun (PProc i) true]
              (with_queue QRun rq'
                 (with_proc i
                    (spawned_slot
                       (default NULL (pq_currentProcess (w_pq w) !! tid))
                       parameters p)
                    (with_queue QPool pool'
                       (with_procCount (wrap32 (pq_procCount (w_pq w) + 1)) w)))))
    /\
    queue_rep pool' (Fp + 1) rest /\
    bq_cap pool' = bq_cap (pq_procPool (w_pq w)) /\
    queue_rep (pq_runQueue (w_pq w)) Fr l /\
    queue_rep rq' Fr (l ++ [PProc i]) /\
    bq_cap rq' = bq_cap (pq_runQueue (w_pq w)) /\
    bq_elementRelease rq' = bq_elementRelease (pq_runQueue (w_pq w)).
Proof.
  intros Hadm Hpool Hp Hroom.
  set (w1 := with_procCount (wrap32 (pq_procCount (w_pq w) + 1)) w).
  destruct (pop_retry_first fuel fuel QPool w1 _ Fp (PProc i) rest eq_refl Hpool)
    as (pool' & Hpop & Hpool' & Hpc & _); [discriminate|].
  set (w2 := add_trace [EvPop QPool (PProc i)] (with_queue QPool pool' w1)) in *.
  set (slot := spawned_slot (default NULL (pq_currentProcess (w_pq w) !! tid))
                 parameters p).
  destruct (push_retry_room fuel fuel QRun (PProc i) (with_proc i slot w2)
              _ eq_refl Hroom)
    as (rq' & Fr & l & Hpush & Hrep & Hrep' & Hrc & Hrr).
  exists pool', rq', Fr, l. split; [|auto 10].
  unfold ProcessQueue_spawn.
  mstep ltac:(reflexivity). mstep ltac:(reflexivity).
  destruct (Z.ltb_spec (pq_procCount (w_pq w)) (pq_processCap (w_pq w))); [|lia].
  fold w1. mstep ltac:(exact Hpop).
  mstep ltac:(apply tls_get_ok). cbn [as_proc].
  mstep ltac:(apply ret_ok).
  mstep ltac:(apply modify_proc_ok; exact Hp).
  fold w2. change (with_proc i _ w2) with (with_proc i slot w2).
  mstep ltac:(exact Hpush).
  mstep ltac:(apply get_proc_ok; rewrite procs_add_trace;
              eapply with_proc_lookup; exact Hp).
  unfold ret, w2. cbn [slot spawned_slot p_id p_gen].
  rewrite with_proc_add_trace, with_queue_add_trace, add_trace_add_trace.
  reflexivity.
Qed.

End SpawnAdmitted.

(** ** The sample runtime *)

Example sample_spawn_three :
  w_trace (sample_world 2
    [CSpawn main_thread (sample_parameters 2);
     CSpawn main_thread (sample_parameters 2);
     CSpawn main_thread (sample_parameters 2)])
  = [EvPop QPool (PProc 0); EvPush QRun (PProc 0) true;
     EvPop QPool (PProc 1); EvPush QRun (PProc 1) true;
     EvReleaseState 7 (PUser 100)].
Proof. vm_compute. reflexivity. Qed.

Example sample_stop_retires :
  w_trace (sample_world 2 [CSpawn main_thread (sample_parameters 0); CVisit 0])
  = [EvPop QPool (PProc 0); EvPush QRun (PProc 0) true;
     EvPop QRun (PProc 0);
     EvHandler 0 0 PS_RUNNING (PUser 100) NULL PCT_STOP;
     EvLock 0; EvGen 0 1; EvReleaseState 7 (PUser 100);
     EvPop (QInbox 0) NULL; EvFree (QInbox 0);
     EvPush QPool (PProc 0) true; EvUnlock 0].
Proof. vm_compute. reflexivity. Qed.

(** * The claims *)

Section Claims.

Context {U : Type} {UC : UserCode U}.

Implicit Types (w : World U) (p : Process) (q : ProcessQueue).

(** C2 (the code at the failing input): when [Process_sendMessage]
    acquires the lock and the generations agree, it returns with the
    destination's [releaseLock] still held, both when the inbox accepts the
    message ([SEND_SUCCESS]) and when the inbox is full ([SEND_FAIL], here
    with [MA_KEEP]); the [spinUnlock] after the [if] is never reached. *)
Theorem Process_sendMessage_returns_with_lock_held
    (fuel : nat) (w : World U) (dest : PID) (message : ptr) (p : Process) :
  pid_pq dest = PQ_this ->
  pq_processes (w_pq w) !! Z.to_nat (pid_id dest) = Some p ->
  p_releaseLock p = false ->
  pid_gen dest = p_gen p ->
  (forall ma bq',
     BoundedQueue_push fuel (p_messageQueue p) message = Ok (true, bq') ->
     exists w' p',
       Process_sendMessage fuel dest message ma w = Ok (SEND_SUCCESS, w') /\
       pq_processes (w_pq w') !! Z.to_nat (pid_id dest) = Some p' /\
       p_releaseLock p' = true) /\
  (BoundedQueue_push fuel (p_messageQueue p) message
     = Ok (false, p_messageQueue p) ->
   exists w' p',
     Process_sendMessage fuel dest message MA_KEEP w = Ok (SEND_FAIL, w') /\
     pq_processes (w_pq w') !! Z.to_nat (pid_id dest) = Some p' /\
     p_releaseLock p' = true).
Proof.
  intros Hpq Hp Hlock Hgen. split.
  - intros ma bq' Hpush.
    eexists _, _. split; [|split].
    + apply Process_sendMessage_success with (p := p); eassumption.
    + rewrite procs_add_trace. eapply with_proc_lookup. exact Hp.
    + reflexivity.
  - intros Hpush.
    eexists _, _. split; [|split].
    + apply Process_sendMessage_full_keep with (p := p); eassumption.
    + rewrite procs_add_trace. eapply with_proc_lookup. exact Hp.
    + reflexivity.
Qed.

(** C6: when [ProcessQueue_spawn] is called while [procCount] has reached
    [processCap], it returns the null PID; [procCount] is back to its prior
    value and the process table, the pool and the run queue are unchanged
    (the whole runtime is); the destructor of the initial state, if one was
    supplied, has been called exactly once, and nothing else was done. *)
Theorem ProcessQueue_spawn_at_capacity
    (fuel tid : nat) (parameters : ProcessSpawnParameters) (w : World U) :
  pq_processCap (w_pq w) <= pq_procCount (w_pq w) ->
  0 <= pq_procCount (w_pq w) < 4294967296 ->
  exists w',
    ProcessQueue_spawn fuel tid parameters w = Ok (null_PID, w') /\
    null_PID = {| pid_pq := PQ_NULL; pid_id := 0; pid_gen := 0 |} /\
    w_pq w' = w_pq w /\
    w_trace w' = w_trace w ++
      match sp_releaseState parameters with
      | Some f => [EvReleaseState f (sp_initialState parameters)]
      | None => []
      end /\
    w_user w' =
      match sp_releaseState parameters with
      | Some f => user_release f (sp_initialState parameters) (w_user w)
      | None => w_user w
      end.
Proof.
  intros Hfull Hrange. eexists. split.
  - apply ProcessQueue_spawn_full; assumption.
  - repeat split.
Qed.

(** C7 (the code): [Process_parent], called in a handler, returns the PID
    made of the id and of the current generation of the slot recorded as
    parent at spawn; when the calling process has no parent (it was spawned
    from outside a handler) the null parent pointer is dereferenced: the
    call faults and no null PID is returned. *)
Theorem Process_parent_reads_parent_slot
    (tid : nat) (w : World U) (i : nat) (p : Process) :
  pq_currentProcess (w_pq w) !! tid = Some (PProc i) ->
  pq_processes (w_pq w) !! i = Some p ->
  (forall j parent,
     p_parent p = PProc j ->
     pq_processes (w_pq w) !! j = Some parent ->
     Process_parent tid w
       = Ok ({| pid_pq := PQ_this; pid_id := p_id parent;
                pid_gen := p_gen parent |}, w)) /\
  (p_parent p = NULL -> Process_parent tid w = Fault).
Proof.
  intros Htls Hp. split.
  - intros j parent Hpar Hj. eapply Process_parent_some; eassumption.
  - intros Hpar. eapply Process_parent_none; eassumption.
Qed.

(** C10: [Process_sendMessage] reads [dest.pq] and
    [dest.pq->processes[dest.id]] unguarded: a call that does not fault
    was given a PID with [dest.pq] non-null and [dest.id] below
    [processCap]; the null PID always faults. *)
Theorem Process_sendMessage_needs_valid_pid
    (fuel : nat) (w : World U) (dest : PID) (message : ptr)
    (ma : MessageAction) :
  length (pq_processes (w_pq w)) = Z.to_nat (pq_processCap (w_pq w)) ->
  0 <= pid_id dest ->
  Process_sendMessage fuel dest message ma w <> Fault ->
  pid_pq dest <> PQ_NULL /\
  pid_id dest < pq_processCap (w_pq w) /\
  Process_sendMessage fuel null_PID message ma w = Fault.
Proof.
  intros Hlen Hid Hsafe. split; [|split].
  - intros Hnull. apply Hsafe. apply Process_sendMessage_null_pq. exact Hnull.
  - destruct (Z_lt_le_dec (pid_id dest) (pq_processCap (w_pq w))) as [|Hge];
      [assumption|].
    exfalso. apply Hsafe. apply Process_sendMessage_out_of_range.
    apply lookup_ge_None. lia.
  - reflexivity.
Qed.

End Claims.

(** C2 (witness): a message sent to a process just spawned is accepted and
    the lock of its slot stays held. *)
Lemma Process_sendMessage_returns_with_lock_held_witness :
  exists w' p',
    Process_sendMessage (UC := sample_code) 1
      (mkPID PQ_this 0 0) (PUser 5) MA_REMOVE
      (sample_world 2 [CSpawn main_thread (sample_parameters 1)])
      = Ok (SEND_SUCCESS, w') /\
    pq_processes (w_pq w') !! Z.to_nat 0 = Some p' /\
    p_releaseLock p' = true.
Proof.
  eapply (proj1 (Process_sendMessage_returns_with_lock_held (UC := sample_code)
                   1 (sample_world 2 [CSpawn main_thread (sample_parameters 1)])
                   (mkPID PQ_this 0 0) (PUser 5) _
                   eq_refl eq_refl eq_refl eq_refl) MA_REMOVE).
  vm_compute. reflexivity.
Defined.

(** C6 (witness): the third spawn on a runtime of capacity 2. *)
Lemma ProcessQueue_spawn_at_capacity_witness :
  exists w',
    ProcessQueue_spawn (UC := sample_code) 2 main_thread (sample_parameters 2)
      (sample_world 2 [CSpawn main_thread (sample_parameters 2);
                       CSpawn main_thread (sample_parameters 2)])
      = Ok (null_PID, w') /\
    w_user w' = 1%nat.
Proof.
  destruct (ProcessQueue_spawn_at_capacity (UC := sample_code) 2 main_thread
              (sample_parameters 2)
              (sample_world 2 [CSpawn main_thread (sample_parameters 2);
                               CSpawn main_thread (sample_parameters 2)]))
    as (w' & Hrun & _ & _ & _ & Hu).
  - vm_compute. discriminate.
  - vm_compute. split; [discriminate | reflexivity].
  - exists w'. split; [exact Hrun | exact Hu].
Defined.

(** C10 (witness): a send that returns was given a valid PID. *)
Lemma Process_sendMessage_needs_valid_pid_witness :
  pid_pq (mkPID PQ_this 0 0) <> PQ_NULL /\
  pid_id (mkPID PQ_this 0 0) < 2 /\
  Process_sendMessage (UC := sample_code) 1 null_PID (PUser 5) MA_KEEP
    (sample_world 2 [CSpawn main_thread (sample_parameters 1)]) = Fault.
Proof.
  apply (Process_sendMessage_needs_valid_pid (UC := sample_code) 1
           (sample_world 2 [CSpawn main_thread (sample_parameters 1)])
           (mkPID PQ_this 0 0) (PUser 5) MA_KEEP).
  - vm_compute. reflexivity.
  - vm_compute. discriminate.
  - vm_compute. discriminate.
Defined.

(** C7 (witness): a process spawned by the main thread has no parent and
    the call faults; a process spawned while worker 0 still had slot 0 as
    its current process gets the PID of slot 0. *)
Lemma Process_parent_reads_parent_slot_witness :
  Process_parent 0
    (sample_world 2 [CSpawn main_thread (sample_parameters 1); CVisit 0])
    = Fault /\
  Process_parent 0
    (sample_world 2 [CSpawn main_thread (sample_parameters 1); CVisit 0;
                     CSpawn 0 (sample_parameters 1); CVisit 0; CVisit 0])
    = Ok (mkPID PQ_this 0 0,
          sample_world 2 [CSpawn main_thread (sample_parameters 1); CVisit 0;
                          CSpawn 0 (sample_parameters 1); CVisit 0; CVisit 0]).
Proof.
  split.
  - edestruct (Process_parent_reads_parent_slot 0%nat
                 (sample_world 2
                    [CSpawn main_thread (sample_parameters 1); CVisit 0]) 0%nat)
      as [_ Hnone].
    + vm_compute. reflexivity.
    + vm_compute. reflexivity.
    + apply Hnone. reflexivity.
  - edestruct (Process_parent_reads_parent_slot 0%nat
                 (sample_world 2
                    [CSpawn main_thread (sample_parameters 1); CVisit 0;
                     CSpawn 0 (sample_parameters 1); CVisit 0; CVisit 0]) 1%nat)
      as [Hsome _].
    + vm_compute. reflexivity.
    + vm_compute. reflexivity.
    + eapply eq_trans;
        [eapply (Hsome 0%nat); [reflexivity | vm_compute; reflexivity]
        | reflexivity].
Defined.

(** ** One iteration of the batch, case by case *)

Section BatchCases.

Context {U : Type} {UC : UserCode U}.

Implicit Types (w : World U) (p : Process) (q : ProcessQueue).

Lemma batch_loop_over n fuel tid i msgCount b w p :
  pq_processes (w_pq w) !! i = Some p ->
  p_maxMessagePerCycle p <= msgCount ->
  batch_loop (S n) fuel tid (PProc i) msgCount b w = Ok (b, w).
Proof.
  intros Hp Hmax. rewrite batch_loop_S. cbn [as_proc].
  mstep ltac:(apply ret_ok). mstep ltac:(apply get_proc_ok; exact Hp).
  destruct (Z.ltb_spec msgCount (p_maxMessagePerCycle p)); [lia|].
  reflexivity.
Qed.

Lemma batch_loop_running n fuel tid i msgCount w p :
  pq_processes (w_pq w) !! i = Some p ->
  msgCount < p_maxMessagePerCycle p ->
  p_runningState p = PS_RUNNING ->
  batch_loop (S n) fuel tid (PProc i) msgCount true w
    = bind (handleProcess fuel tid (PProc i) NULL)
        (fun b => batch_loop n fuel tid (PProc i) (wrap32 (msgCount + 1)) b) w.
Proof.
  intros Hp Hmax Hrs. rewrite batch_loop_S. cbn [as_proc].
  mstep ltac:(apply ret_ok). mstep ltac:(apply get_proc_ok; exact Hp).
  destruct (Z.ltb_spec msgCount (p_maxMessagePerCycle p)); [|lia].
  rewrite Hrs. reflexivity.
Qed.


Lemma batch_loop_waiting_message n fuel tid i msgCount w p F m msgs :
  pq_processes (w_pq w) !! i = Some p ->
  msgCount < p_maxMessagePerCycle p ->
  p_runningState p = PS_WAITING ->
  queue_rep (p_messageQueue p) F (m :: msgs) ->
  m <> NULL ->
  exists inbox',
    queue_rep inbox' (F + 1) msgs /\
    batch_loop (S n) (S fuel) tid (PProc i) msgCount true w
      = bind (handleProcess (S fuel) tid (PProc i) m)
          (fun b => batch_loop n (S fuel) tid (PProc i) (wrap32 (msgCount + 1)) b)
          (add_trace [EvPop (QInbox i) m]
             (with_proc i (set_messageQueue inbox' p) w)).
Proof.
  intros Hp Hmax Hrs Hrep Hm.
  destruct (pop_rep_ok fuel _ F m msgs Hrep) as (bq1 & Hpop & Hrep1 & _).
  exists bq1. split; [exact Hrep1|].
  rewrite batch_loop_S. cbn [as_proc].
  mstep ltac:(apply ret_ok). mstep ltac:(apply get_proc_ok; exact Hp).
  destruct (Z.ltb_spec msgCount (p_maxMessagePerCycle p)); [|lia].
  rewrite Hrs. cbn [andb].
  mstep ltac:(eapply pop_at_ok; [apply queue_of_inbox; exact Hp | exact Hpop]).
  rewrite (is_null_false m Hm). cbn [with_queue]. rewrite Hp. reflexivity.
Qed.

(** What [handleProcess] does with each return code of the handler. *)
Lemma handleProcess_cases fuel tid i msg w p f r q' u' p' :
  pq_processes (w_pq w) !! i = Some p ->
  p_handler p = Some f ->
  user_handler f tid (p_state p) msg (entered tid i (w_pq w)) (w_user w)
    = Ok (r, q', u') ->
  pq_processes q' !! i = Some p' ->
  handleProcess fuel tid (PProc i) msg w
    = match r with
      | PCT_CONTINUE =>
          Ok (true,
              with_proc i (set_runningState PS_RUNNING p')
                (mkWorld q' u'
                   (w_trace w ++
                    [EvHandler i f (p_runningState p) (p_state p) msg r])))
      | PCT_WAIT_MESSAGE =>
          Ok (true,
              with_proc i (set_runningState PS_WAITING p')
                (mkWorld q' u'
                   (w_trace w ++
                    [EvHandler i f (p_runningState p) (p_state p) msg r])))
      | PCT_STOP =>
          bind (processRelease fuel (PProc i)) (fun _ => ret false)
            (mkWorld q' u'
               (w_trace w ++
                [EvHandler i f (p_runningState p) (p_state p) msg r]))
      end.
Proof.
  intros Hp Hf Hcall Hp'.
  rewrite (handleProcess_call fuel tid i msg w p f r q' u' Hp Hf Hcall).
  destruct r; [reflexivity| |].
  - mstep ltac:(apply modify_proc_ok; exact Hp'). reflexivity.
  - mstep ltac:(apply modify_proc_ok; exact Hp'). reflexivity.
Qed.

End BatchCases.

(** ** Soundness of the concrete checks *)

Lemma check_rep_sound bq F l : check_rep bq F l = true -> queue_rep bq F l.
Proof.
  unfold check_rep. intros H.
  repeat (apply andb_prop in H as [H ?]).
  destruct (bq_elements bq) as [els|] eqn:Hels; [|discriminate].
  match goal with H : _ && forallb _ _ = true |- _ =>
    apply andb_prop in H as [Hlen Hall] end.
  apply Nat.eqb_eq in Hlen.
  repeat match goal with
         | H : (_ <=? _) = true |- _ => apply Z.leb_le in H
         | H : (_ <? _) = true |- _ => apply Z.ltb_lt in H
         | H : (_ =? _) = true |- _ => apply Z.eqb_eq in H
         end.
  constructor; try assumption; try lia.
  - right. lia.
  - exists els. split; [assumption|]. split; [assumption|].
    intros p Hp. rewrite forallb_forall in Hall.
    specialize (Hall (Z.to_nat (p - F))).
    unfold check_slot in Hall.
    replace (F + Z.of_nat (Z.to_nat (p - F))) with p in Hall by lia.
    destruct (els !! slot_of (bq_cap bq) p) as [el|].
    2:{ exfalso. assert (false = true); [|discriminate].
        apply Hall. apply in_seq. lia. }
    exists el. split; [reflexivity|].
    assert (Hin : In (Z.to_nat (p - F)) (seq 0 (Z.to_nat (bq_cap bq))))
      by (apply in_seq; lia).
    specialize (Hall Hin).
    destruct (p <? F + Z.of_nat (length l)).
    + apply andb_prop in Hall as [Hs Hd]. apply Z.eqb_eq in Hs.
      apply bool_decide_eq_true in Hd. auto.
    + apply Z.eqb_eq in Hall. exact Hall.
Qed.



Lemma sample_handlers_evolve : handlers_evolve (UC := sample_code).
Proof.
  intros f tid st msg q u r q' u' H. injection H as _ <- _.
  apply pq_evolves_refl.
Qed.

Section VisitClaims.

Context {U : Type} {UC : UserCode U}.

Implicit Types (w : World U) (p : Process) (q : ProcessQueue).




End VisitClaims.




Example sample_waiting_requeued :
  w_trace (sample_world 2
    [CSpawn main_thread (sample_parameters 1); CVisit 0; CVisit 0])
  = [EvPop QPool (PProc 0); EvPush QRun (PProc 0) true;
     EvPop QRun (PProc 0);
     EvHandler 0 1 PS_RUNNING (PUser 100) NULL PCT_WAIT_MESSAGE;
     EvPop (QInbox 0) NULL;
     EvPush QRun (PProc 0) true;
     EvPop QRun (PProc 0);
     EvPop (QInbox 0) NULL;
     EvPush QRun (PProc 0) true].
Proof. vm_compute. reflexivity. Qed.

(** ** The visit of a process that stops at once *)

Section VisitStop.

Context {U : Type} {UC : UserCode U}.

Implicit Types (w : World U) (p : Process) (q : ProcessQueue).

Lemma worker_visit_stop fuel tid i w p Fr rest f fm F msgs Fp pool :
  (length msgs + 3 <= fuel)%nat ->
  queue_rep (pq_runQueue (w_pq w)) Fr (PProc i :: rest) ->
  pq_processes (w_pq w) !! i = Some p ->
  p_handler p = Some f ->
  p_runningState p = PS_RUNNING ->
  0 < p_maxMessagePerCycle p ->
  p_processQueue p = PQ_this ->
  bq_elementRelease (p_messageQueue p) = ElementRelease_of fm ->
  (fm <> None ->
   queue_rep (p_messageQueue p) F msgs /\ Forall (fun m => m <> NULL) msgs) ->
  queue_rep (pq_procPool (w_pq w)) Fp pool ->
  Z.of_nat (length pool) < bq_cap (pq_procPool (w_pq w)) ->
  wrap_safe (bq_cap (pq_procPool (w_pq w))) (Fp + Z.of_nat (length pool) + 1) ->
  (forall q u, user_handler f tid (p_state p) NULL q u = Ok (PCT_STOP, q, u)) ->
  exists rq1 inbox' pool',
    worker_visit fuel tid w
      = Ok (tt,
            with_procCount (wrap32 (pq_procCount (w_pq w) - 1))
              (add_trace
                 (EvPop QRun (PProc i)
                  :: EvHandler i f PS_RUNNING (p_state p) NULL PCT_STOP
                  :: retire_events i p fm msgs)
                 (with_user (retire_user p fm msgs (w_user w))
                    (with_queue QPool pool'
                       (with_proc i (retired_slot p inbox')
                          (with_entered tid i (with_queue QRun rq1 w))))))) /\
    queue_rep rq1 (Fr + 1) rest /\
    bq_cap rq1 = bq_cap (pq_runQueue (w_pq w)) /\
    queue_rep pool' Fp (pool ++ [PProc i]) /\
    bq_cap pool' = bq_cap (pq_procPool (w_pq w)).
Proof.
  intros Hfuel Hrun Hp Hf Hrs Hmax Hpq Hrel Hinbox Hpool Hroom Hsafe Hstop.
  destruct fuel as [|[|f0]]; try lia.
  destruct (pop_rep_ok (S f0) _ Fr (PProc i) rest Hrun)
    as (rq1 & Hpop & Hrep1 & Hc1 & _).
  set (w0 := add_trace [EvPop QRun (PProc i)] (with_queue QRun rq1 w)).
  assert (Hp0 : pq_processes (w_pq w0) !! i = Some p) by exact Hp.
  set (ev := EvHandler i f (p_runningState p) (p_state p) NULL PCT_STOP).
  set (w1 := mkWorld (entered tid i (w_pq w0)) (w_user w0) (w_trace w0 ++ [ev])).
  assert (Hp1 : pq_processes (w_pq w1) !! i = Some p) by exact Hp.
  destruct (processRelease_enough (S (S f0)) w1 i p fm F msgs Fp pool)
    as (inbox' & pool' & Hrel1 & Hpool' & Hpc & _); try assumption; try lia.
  exists rq1, inbox', pool'.
  split; [|auto].
  unfold worker_visit.
  mstep ltac:(eapply pop_at_ok; [reflexivity | exact Hpop]).
  cbn [is_null]. fold w0.
  mstep ltac:(
    rewrite (batch_loop_running (S f0) (S (S f0)) tid i 0 w0 p Hp0 Hmax Hrs);
    mstep ltac:(
      rewrite (handleProcess_cases (S (S f0)) tid i NULL w0 p f PCT_STOP _ _ p
                 Hp0 Hf (Hstop _ _) Hp0);
      mstep ltac:(exact Hrel1); apply ret_ok);
    eapply batch_loop_stopped;
    rewrite procs_add_trace, procs_with_user, procs_with_pool;
    eapply with_proc_lookup; exact Hp1).
  cbv beta match.
  mstep ltac:(reflexivity).
  unfold modify_pq, with_procCount, add_trace, with_user, with_entered, w1, w0, ev.
  cbn. rewrite Hrs, <- !app_assoc. reflexivity.
Qed.

End VisitStop.

(** ** Admission with the run queue's contents known *)

Section SpawnAt.

Context {U : Type} {UC : UserCode U}.

Lemma ProcessQueue_spawn_at fuel tid parameters (w : World U) i p Fp rest Fr l :
  pq_procCount (w_pq w) < pq_processCap (w_pq w) ->
  queue_rep (pq_procPool (w_pq w)) Fp (PProc i :: rest) ->
  pq_processes (w_pq w) !! i = Some p ->
  queue_rep (pq_runQueue (w_pq w)) Fr l ->
  Z.of_nat (length l) < bq_cap (pq_runQueue (w_pq w)) ->
  wrap_safe (bq_cap (pq_runQueue (w_pq w))) (Fr + Z.of_nat (length l) + 1) ->
  exists pool' rq',
    ProcessQueue_spawn (S fuel) tid parameters w
      = Ok ({| pid_pq := PQ_this; pid_id := p_id p; pid_gen := p_gen p |},
            add_trace [EvPop QPool (PProc i); EvPush QRun (PProc i) true]
              (with_queue QRun rq'
                 (with_proc i
                    (spawned_slot
                       (default NULL (pq_currentProcess (w_pq w) !! tid))
                       parameters p)
                    (with_queue QPool pool'
                       (with_procCount (wrap32 (pq_procCount (w_pq w) + 1)) w)))))
    /\
    queue_rep pool' (Fp + 1) rest /\
    bq_cap pool' = bq_cap (pq_procPool (w_pq w)) /\
    queue_rep rq' Fr (l ++ [PProc i]) /\
    bq_cap rq' = bq_cap (pq_runQueue (w_pq w)).
Proof.
  intros Hadm Hpool Hp Hrep Hroom Hsafe.
  set (w1 := with_procCount (wrap32 (pq_procCount (w_pq w) + 1)) w).
  destruct (pop_retry_first fuel fuel QPool w1 _ Fp (PProc i) rest eq_refl Hpool)
    as (pool' & Hpop & Hpool' & Hpc & _); [discriminate|].
  set (w2 := add_trace [EvPop QPool (PProc i)] (with_queue QPool pool' w1)) in *.
  set (slot := spawned_slot (default NULL (pq_currentProcess (w_pq w) !! tid))
                 parameters p).
  destruct (push_rep_ok fuel _ Fr l (PProc i) Hrep Hroom Hsafe)
    as (rq' & Hpush & Hrep' & Hrc & _).
  exists pool', rq'. split; [|auto].
  unfold ProcessQueue_spawn.
  mstep ltac:(reflexivity). mstep ltac:(reflexivity).
  destruct (Z.ltb_spec (pq_procCount (w_pq w)) (pq_processCap (w_pq w))); [|lia].
  fold w1. mstep ltac:(exact Hpop).
  mstep ltac:(apply tls_get_ok). cbn [as_proc].
  mstep ltac:(apply ret_ok).
  mstep ltac:(apply modify_proc_ok; exact Hp).
  fold w2. change (with_proc i _ w2) with (with_proc i slot w2).
  mstep ltac:(
    cbn [push_retry];
    mstep ltac:(eapply push_at_ok; [reflexivity | exact Hpush]);
    reflexivity).
  mstep ltac:(apply get_proc_ok; rewrite procs_add_trace;
              eapply with_proc_lookup; exact Hp).
  unfold ret, w2. cbn [slot spawned_slot p_id p_gen].
  rewrite with_proc_add_trace, with_queue_add_trace, add_trace_add_trace.
  reflexivity.
Qed.

End SpawnAt.

(** ** Churning the single slot *)

Lemma one_divides_wrap L : wrap_safe 1 L.
Proof. left. exists 4294967296. reflexivity. Qed.

Lemma churn_step k w :
  churn_inv k w ->
  exists w', run_calls (UC := sample_code) 8 churn w = Ok (tt, w') /\
             churn_inv (k + 1) w'.
Proof.
  intros [Hcap Hcount Hpool Hpc Hrun Hrc Hslot Hmain].
  destruct (worker_visit_stop (UC := sample_code) 8 0 0 w
              (live_slot 0 (wrap32 k)) k [] 0 (Some 8%nat) 0 [] (k + 1) [])
    as (rq1 & inbox' & pool' & Hvisit & Hrq1 & Hrq1c & Hpool' & Hpool'c).
  - simpl. lia.
  - exact Hrun.
  - exact Hslot.
  - reflexivity.
  - reflexivity.
  - reflexivity.
  - reflexivity.
  - reflexivity.
  - intros _. split; [|constructor].
    apply (queue_rep_init 4). lia.
  - exact Hpool.
  - rewrite Hpc. reflexivity.
  - rewrite Hpc. apply one_divides_wrap.
  - intros q u. reflexivity.
  - match type of Hvisit with _ = Ok (tt, ?x) => set (w1 := x) in * end.
    set (p1 := retired_slot (live_slot 0 (wrap32 k)) inbox') in *.
    assert (Hp1 : pq_processes (w_pq w1) !! 0%nat = Some p1).
    { apply (with_proc_lookup (with_entered 0 0 (with_queue QRun rq1 w))
               0 (live_slot 0 (wrap32 k)) p1).
      exact Hslot. }
    destruct (ProcessQueue_spawn_at (UC := sample_code) 7 main_thread
                (sample_parameters 0) w1 0 p1 (k + 1) [] (k + 1) [])
      as (pool2 & rq2 & Hspawn & Hpool2 & Hpool2c & Hrq2 & Hrq2c).
    + cbn. rewrite Hcount, Hcap. reflexivity.
    + exact Hpool'.
    + exact Hp1.
    + exact Hrq1.
    + change (bq_cap (pq_runQueue (w_pq w1))) with (bq_cap rq1).
      rewrite Hrq1c, Hrc. reflexivity.
    + apply (eq_rect 1 (fun c => wrap_safe c _) (one_divides_wrap _)).
      change (bq_cap (pq_runQueue (w_pq w1))) with (bq_cap rq1).
      rewrite Hrq1c, Hrc. reflexivity.
    + eexists. split.
      * unfold churn. cbn [run_calls run_call].
        erewrite bind_ok; [|exact Hvisit].
        erewrite bind_ok;
          [|erewrite bind_ok; [|exact Hspawn]; apply ret_ok].
        reflexivity.
      * constructor.
        -- exact Hcap.
        -- cbn. rewrite Hcount. reflexivity.
        -- exact Hpool2.
        -- change (bq_cap pool2 = 1). rewrite Hpool2c.
           change (bq_cap pool' = 1). rewrite Hpool'c. exact Hpc.
        -- exact Hrq2.
        -- change (bq_cap rq2 = 1). rewrite Hrq2c.
           change (bq_cap rq1 = 1). rewrite Hrq1c. exact Hrc.
        -- rewrite procs_add_trace.
           match goal with
           | |- pq_processes (w_pq (with_queue QRun _ (with_proc 0 ?s ?w0)))
                  !! 0%nat = _ =>
               transitivity (Some s);
               [exact (with_proc_lookup w0 0 p1 s Hp1)|]
           end.
           f_equal. unfold live_slot, spawned_slot, p1. cbn.
           rewrite lookup_insert_ne by (unfold main_thread; discriminate).
           rewrite Hmain, wrap32_add_l. reflexivity.
        -- cbn. rewrite lookup_insert_ne by (unfold main_thread; discriminate).
           exact Hmain.
Qed.

Lemma churns_succ n : churns (N.succ n) = churn ++ churns n.
Proof. unfold churns. apply N.iter_succ. Qed.

Lemma run_calls_app {U : Type} {UC : UserCode U} fuel cs1 cs2 (w w1 : World U) :
  run_calls fuel cs1 w = Ok (tt, w1) ->
  run_calls fuel (cs1 ++ cs2) w = run_calls fuel cs2 w1.
Proof.
  revert w. induction cs1 as [|c cs1 IH]; intros w H.
  - cbn in H. injection H as <-. reflexivity.
  - cbn [run_calls app] in *.
    destruct (bind_inv _ _ _ _ _ H) as (a & w0 & Hc & Hrest).
    erewrite bind_ok; [|exact Hc]. apply IH. destruct a. exact Hrest.
Qed.

Lemma run_calls_cons {U : Type} {UC : UserCode U} fuel c cs (w w1 : World U) :
  run_call fuel c w = Ok (tt, w1) ->
  run_calls fuel (c :: cs) w = run_calls fuel cs w1.
Proof.
  intros H. cbn [run_calls]. erewrite bind_ok; [|exact H]. reflexivity.
Qed.

(** [n] churns take the runtime from generation [k] to generation [k + n],
    whatever [n]. *)
Lemma churns_run n : forall k w,
  churn_inv k w ->
  exists w', run_calls (UC := sample_code) 8 (churns n) w = Ok (tt, w') /\
             churn_inv (k + Z.of_N n) w'.
Proof.
  induction n as [|n IH] using N.peano_ind; intros k w Hinv.
  - exists w. split; [reflexivity|]. rewrite Z.add_0_r. exact Hinv.
  - destruct (churn_step k w Hinv) as (w1 & Hrun1 & Hinv1).
    destruct (IH (k + 1) w1 Hinv1) as (w2 & Hrun2 & Hinv2).
    exists w2. split.
    + rewrite churns_succ. rewrite (run_calls_app _ _ _ _ _ Hrun1). exact Hrun2.
    + replace (k + Z.of_N (N.succ n)) with (k + 1 + Z.of_N n) by lia.
      exact Hinv2.
Qed.

(** The single-slot sample runtime after its first spawn. *)
Lemma churn_inv_start :
  churn_inv 0 (sample_world 1 [CSpawn main_thread (sample_parameters 0)]).
Proof.
  constructor; try (vm_compute; reflexivity).
  - apply check_rep_sound. vm_compute. reflexivity.
  - apply check_rep_sound. vm_compute. reflexivity.
Qed.

(** ** Retirement *)

Section RetirementClaim.

Context {U : Type} {UC : UserCode U}.

Implicit Types (w : World U) (p : Process) (q : ProcessQueue).

Lemma gen_after_small k g :
  0 <= g -> g + Z.of_nat k < 4294967296 ->
  gen_after k g = g + Z.of_nat k.
Proof.
  intros Hg Hk. rewrite gen_after_wrap by lia. apply wrap32_small. lia.
Qed.

(** The order of the steps of a retirement, and the generations along an
    execution.  When the handler of slot [i] returns [PCT_STOP],
    [handleProcess] retires the slot and answers [false]; the retirement
    records the lock first and the unlock last, and in between, in this
    order, increments [gen] (modulo [2^32]), calls [releaseState] on the
    user state if there is one, drains the inbox through the message
    destructor and frees it, and pushes the slot onto [procPool].  With
    handlers that leave ids and generations alone, along any sequence of
    calls the generation of a slot is its old generation plus the number of
    its retirements, modulo [2^32]: it does not decrease as long as that
    sum stays below [2^32]. *)
Theorem processRelease_order_and_generation :
  handlers_evolve (UC := UC) ->
  (forall fuel tid i msg w p f q' u' p' fm F msgs Fp pool,
     pq_processes (w_pq w) !! i = Some p ->
     p_handler p = Some f ->
     user_handler f tid (p_state p) msg (entered tid i (w_pq w)) (w_user w)
       = Ok (PCT_STOP, q', u') ->
     pq_processes q' !! i = Some p' ->
     p_processQueue p' = PQ_this ->
     bq_elementRelease (p_messageQueue p') = ElementRelease_of fm ->
     (fm <> None ->
      queue_rep (p_messageQueue p') F msgs /\
      Forall (fun m => m <> NULL) msgs) ->
     queue_rep (pq_procPool q') Fp pool ->
     Z.of_nat (length pool) < bq_cap (pq_procPool q') ->
     wrap_safe (bq_cap (pq_procPool q')) (Fp + Z.of_nat (length pool) + 1) ->
     (length msgs + 2 <= fuel)%nat ->
     exists w' p'',
       handleProcess fuel tid (PProc i) msg w = Ok (false, w') /\
       w_trace w'
         = w_trace w
           ++ [EvHandler i f (p_runningState p) (p_state p) msg PCT_STOP]
           ++ [EvLock i; EvGen i (wrap32 (p_gen p' + 1))]
           ++ state_events (p_releaseState p') (p_state p')
           ++ inbox_events i fm msgs
           ++ [EvFree (QInbox i); EvPush QPool (PProc i) true; EvUnlock i] /\
       w_user w' = retire_user p' fm msgs u' /\
       pq_processes (w_pq w') !! i = Some p'' /\
       p_gen p'' = wrap32 (p_gen p' + 1) /\
       (p_gen p' + 1 < 4294967296 -> 0 <= p_gen p' ->
        p_gen p'' = p_gen p' + 1) /\
       p_releaseLock p'' = false /\
       bq_elements (p_messageQueue p'') = None /\
       queue_rep (pq_procPool (w_pq w')) Fp (pool ++ [PProc i])) /\
  (forall fuel cs w0 w1 j (q : Process),
     run_calls fuel cs w0 = Ok (tt, w1) ->
     pq_processes (w_pq w0) !! j = Some q ->
     0 <= p_gen q < 4294967296 ->
     exists (q' : Process) evs,
       w_trace w1 = w_trace w0 ++ evs /\
       pq_processes (w_pq w1) !! j = Some q' /\
       p_gen q' = wrap32 (p_gen q + Z.of_nat (gen_bumps j evs)) /\
       (p_gen q + Z.of_nat (gen_bumps j evs) < 4294967296 ->
        p_gen q' = p_gen q + Z.of_nat (gen_bumps j evs) /\
        p_gen q <= p_gen q')).
Proof.
  intros Hhandlers. split.
  - intros fuel tid i msg w p f q' u' p' fm F msgs Fp pool
      Hp Hf Hcall Hp' Hpq Hrel Hinbox Hpool Hroom Hsafe Hfuel.
    set (ev := EvHandler i f (p_runningState p) (p_state p) msg PCT_STOP).
    set (w1 := mkWorld q' u' (w_trace w ++ [ev])).
    destruct (processRelease_enough fuel w1 i p' fm F msgs Fp pool)
      as (inbox' & pool' & Hrun & Hpool' & _); try assumption.
    eexists _, (retired_slot p' inbox').
    split; [|split; [|split; [|split; [|split; [|split; [|split; [|split]]]]]]].
    + rewrite (handleProcess_cases fuel tid i msg w p f PCT_STOP q' u' p'
                 Hp Hf Hcall Hp').
      fold ev. fold w1. erewrite bind_ok; [|exact Hrun]. reflexivity.
    + cbn. unfold retire_events. rewrite <- !app_assoc. reflexivity.
    + reflexivity.
    + rewrite procs_add_trace, procs_with_user, procs_with_pool.
      apply (with_proc_lookup w1 i p'). exact Hp'.
    + reflexivity.
    + intros Hlt Hge. cbn. apply wrap32_small. lia.
    + reflexivity.
    + reflexivity.
    + exact Hpool'.
  - intros fuel cs w0 w1 j q Hrun Hq Hgen.
    destruct (respects_run_calls Hhandlers fuel cs w0 tt w1 Hrun)
      as (evs & Htr & Hslots & _).
    destruct (Hslots j q Hq) as (q' & Hq' & _ & Hg).
    exists q', evs. split; [exact Htr|]. split; [exact Hq'|].
    split.
    + rewrite Hg. apply gen_after_wrap. exact Hgen.
    + intros Hlt. rewrite Hg, gen_after_small by lia. lia.
Qed.

End RetirementClaim.

(** The visit of the churned slot retires it. *)
Lemma churn_visit k w :
  churn_inv k w ->
  exists w1 p1 evs,
    worker_visit (UC := sample_code) 8 0 w = Ok (tt, w1) /\
    w_trace w1 = w_trace w ++ evs /\
    gen_bumps 0 evs = 1%nat /\
    stop_returned evs = true /\
    pq_processes (w_pq w1) !! 0%nat = Some p1 /\
    p_gen p1 = wrap32 (k + 1) /\
    p_releaseLock p1 = false.
Proof.
  intros [Hcap Hcount Hpool Hpc Hrun Hrc Hslot Hmain].
  destruct (worker_visit_stop (UC := sample_code) 8 0 0 w
              (live_slot 0 (wrap32 k)) k [] 0 (Some 8%nat) 0 [] (k + 1) [])
    as (rq1 & inbox' & pool' & Hvisit & _).
  - simpl. lia.
  - exact Hrun.
  - exact Hslot.
  - reflexivity.
  - reflexivity.
  - reflexivity.
  - reflexivity.
  - reflexivity.
  - intros _. split; [|constructor].
    apply (queue_rep_init 4). lia.
  - exact Hpool.
  - rewrite Hpc. reflexivity.
  - rewrite Hpc. apply one_divides_wrap.
  - intros q u. reflexivity.
  - eexists _, (retired_slot (live_slot 0 (wrap32 k)) inbox'), _.
    split; [exact Hvisit|].
    split; [reflexivity|].
    split; [reflexivity|].
    split; [reflexivity|].
    split.
    + apply (with_proc_lookup (with_entered 0 0 (with_queue QRun rq1 w))
               0 (live_slot 0 (wrap32 k))).
      exact Hslot.
    + split; [|reflexivity]. cbn. apply wrap32_add_l.
Qed.

(** Generations wrap: on the single-slot sample runtime, after
    [2^32 - 1] retirements of slot 0 its generation is [2^32 - 1]; the next
    visit retires the process once more and leaves the generation at 0. *)
Lemma processRelease_order_and_generation_counterexample :
  exists w1 w2 p1 p2 evs,
    run_calls (UC := sample_code) 8 (churns 4294967295)
      (sample_world 1 [CSpawn main_thread (sample_parameters 0)])
      = Ok (tt, w1) /\
    pq_processes (w_pq w1) !! 0%nat = Some p1 /\
    p_gen p1 = 4294967295 /\
    worker_visit (UC := sample_code) 8 0 w1 = Ok (tt, w2) /\
    w_trace w2 = w_trace w1 ++ evs /\
    stop_returned evs = true /\
    gen_bumps 0 evs = 1%nat /\
    pq_processes (w_pq w2) !! 0%nat = Some p2 /\
    p_gen p2 = 0 /\
    p_gen p2 < p_gen p1.
Proof.
  destruct (churns_run 4294967295 0 _ churn_inv_start) as (w1 & Hrun & Hinv).
  destruct (churn_visit _ _ Hinv)
    as (w2 & p2 & evs & Hvisit & Htr & Hb & Hs & Hp2 & Hg2 & _).
  exists w1, w2, (live_slot 0 (wrap32 (0 + Z.of_N 4294967295))), p2, evs.
  split; [exact Hrun|].
  split; [exact (ci_slot _ _ Hinv)|].
  split; [reflexivity|].
  split; [exact Hvisit|].
  split; [exact Htr|].
  split; [exact Hs|].
  split; [exact Hb|].
  split; [exact Hp2|].
  split; [rewrite Hg2; reflexivity|].
  rewrite Hg2. reflexivity.
Qed.

(** On the sample runtime: the first process stops at its first dispatch;
    its slot is retired with generation 1. *)
Lemma processRelease_order_and_generation_witness :
  (exists w' p'',
     handleProcess (UC := sample_code) 8 0 (PProc 0) NULL
       (sample_world 2 [CSpawn main_thread (sample_parameters 0)])
       = Ok (false, w') /\
     pq_processes (w_pq w') !! 0%nat = Some p'' /\
     p_gen p'' = 1 /\
     p_releaseLock p'' = false) /\
  (exists w1 q',
     run_calls (UC := sample_code) 8 [CVisit 0%nat]
       (sample_world 2 [CSpawn main_thread (sample_parameters 0)])
       = Ok (tt, w1) /\
     pq_processes (w_pq w1) !! 0%nat = Some q' /\
     p_gen q' = 1).
Proof.
  destruct (processRelease_order_and_generation (UC := sample_code)
              sample_handlers_evolve) as [Hretire Hlife].
  split.
  - edestruct (Hretire 8%nat 0%nat 0%nat NULL
                 (sample_world 2 [CSpawn main_thread (sample_parameters 0)])
                 (live_slot 0 0) 0%nat
                 (entered 0 0
                    (w_pq (sample_world 2
                             [CSpawn main_thread (sample_parameters 0)])))
                 0%nat (live_slot 0 0) (Some 8%nat) 0 [] 1 [PProc 1])
      as (w' & p'' & Hrun & _ & _ & Hp & Hg & _ & Hl & _).
    + vm_compute. reflexivity.
    + reflexivity.
    + vm_compute. reflexivity.
    + vm_compute. reflexivity.
    + reflexivity.
    + reflexivity.
    + intros _. split; [|constructor]. apply (queue_rep_init 4). lia.
    + apply check_rep_sound. vm_compute. reflexivity.
    + vm_compute. reflexivity.
    + right. vm_compute. reflexivity.
    + simpl. lia.
    + exists w', p''. split; [exact Hrun|]. split; [exact Hp|].
      split; [exact Hg | exact Hl].
  - edestruct (Hlife 8%nat [CVisit 0%nat]
                 (sample_world 2 [CSpawn main_thread (sample_parameters 0)])
                 (sample_world 2 [CSpawn main_thread (sample_parameters 0);
                                  CVisit 0%nat])
                 0%nat (live_slot 0 0))
      as (q' & evs & Htr & Hq' & Hg & _).
    + vm_compute. reflexivity.
    + vm_compute. reflexivity.
    + vm_compute. split; [discriminate | reflexivity].
    + eexists _, q'. split; [vm_compute; reflexivity|].
      split; [exact Hq'|].
      rewrite Hg. vm_compute in Htr.
      injection Htr as <-. vm_compute. reflexivity.
Defined.

(** ** Retirement of a slot whose lock is held *)

Section RetirementLock.

Context {U : Type} {UC : UserCode U}.

Implicit Types (w : World U) (p : Process) (q : ProcessQueue).

(** C5 (the code at the failing input): [processRelease] called on a slot
    whose [releaseLock] is already held, for instance by the sender of a
    message that the process accepted.  [spinLock] returns at once: its
    first compare-exchange fails and stores the current value of the lock
    in [expected], so the second one succeeds.  The retirement then runs
    all its steps, in the order lock, increment of [gen] (modulo [2^32]),
    destructor of the state, drain and free of the inbox, push onto
    [procPool], unlock; it does so while the lock is held by the other
    party, and it ends by releasing that lock. *)
Theorem processRelease_passes_held_lock
    (fuel : nat) (w : World U) (i : nat) (p : Process) (fm : option nat)
    (F : Z) (msgs : list ptr) (Fp : Z) (pool : list ptr) :
  pq_processes (w_pq w) !! i = Some p ->
  p_releaseLock p = true ->
  p_processQueue p = PQ_this ->
  bq_elementRelease (p_messageQueue p) = ElementRelease_of fm ->
  (fm <> None ->
   queue_rep (p_messageQueue p) F msgs /\ Forall (fun m => m <> NULL) msgs) ->
  queue_rep (pq_procPool (w_pq w)) Fp pool ->
  Z.of_nat (length pool) < bq_cap (pq_procPool (w_pq w)) ->
  wrap_safe (bq_cap (pq_procPool (w_pq w))) (Fp + Z.of_nat (length pool) + 1) ->
  (length msgs + 2 <= fuel)%nat ->
  spinLock fuel (p_releaseLock p) = Ok true /\
  exists w' p',
    processRelease fuel (PProc i) w = Ok (tt, w') /\
    w_trace w'
      = w_trace w
        ++ [EvLock i; EvGen i (wrap32 (p_gen p + 1))]
        ++ state_events (p_releaseState p) (p_state p)
        ++ inbox_events i fm msgs
        ++ [EvFree (QInbox i); EvPush QPool (PProc i) true; EvUnlock i] /\
    w_user w' = retire_user p fm msgs (w_user w) /\
    pq_processes (w_pq w') !! i = Some p' /\
    p_gen p' = wrap32 (p_gen p + 1) /\
    bq_elements (p_messageQueue p') = None /\
    p_releaseLock p' = false /\
    queue_rep (pq_procPool (w_pq w')) Fp (pool ++ [PProc i]).
Proof.
  intros Hp Hheld Hpq Hrel Hinbox Hpool Hroom Hsafe Hfuel.
  split.
  - destruct fuel as [|[|f]]; try lia. apply spinLock_ok.
  - destruct (processRelease_enough fuel w i p fm F msgs Fp pool)
      as (inbox' & pool' & Hrun & Hpool' & _); try assumption.
    eexists _, (retired_slot p inbox').
    split; [exact Hrun|].
    split; [reflexivity|].
    split; [reflexivity|].
    split.
    { rewrite procs_add_trace, procs_with_user, procs_with_pool.
      apply (with_proc_lookup w i p). exact Hp. }
    split; [reflexivity|]. split; [reflexivity|]. split; [reflexivity|].
    exact Hpool'.
Qed.

End RetirementLock.

(** C5 (witness): the first process of the sample runtime accepts a
    message, which leaves its lock held; its retirement runs all the same,
    bumps the generation to 1 and leaves the lock free. *)
Lemma processRelease_passes_held_lock_witness :
  exists p w' p',
    pq_processes
      (w_pq (sample_world 2
               [CSpawn main_thread (sample_parameters 0);
                CSend (mkPID PQ_this 0 0) (PUser 5) MA_KEEP])) !! 0%nat
      = Some p /\
    p_releaseLock p = true /\
    processRelease (UC := sample_code) 8 (PProc 0)
      (sample_world 2
         [CSpawn main_thread (sample_parameters 0);
          CSend (mkPID PQ_this 0 0) (PUser 5) MA_KEEP])
      = Ok (tt, w') /\
    pq_processes (w_pq w') !! 0%nat = Some p' /\
    p_gen p' = 1 /\
    p_releaseLock p' = false.
Proof.
  destruct (processRelease_passes_held_lock (UC := sample_code) 8
              (sample_world 2
                 [CSpawn main_thread (sample_parameters 0);
                  CSend (mkPID PQ_this 0 0) (PUser 5) MA_KEEP])
              0
              (default Process_zero
                 (pq_processes
                    (w_pq (sample_world 2
                             [CSpawn main_thread (sample_parameters 0);
                              CSend (mkPID PQ_this 0 0) (PUser 5) MA_KEEP]))
                  !! 0%nat))
              (Some 8%nat) 0 [PUser 5] 1 [PProc 1])
    as (_ & w' & p' & Hrun & _ & _ & Hp' & Hg & _ & Hl & _).
  - vm_compute. reflexivity.
  - vm_compute. reflexivity.
  - vm_compute. reflexivity.
  - vm_compute. reflexivity.
  - intros _. split.
    + apply check_rep_sound. vm_compute. reflexivity.
    + repeat constructor. discriminate.
  - apply check_rep_sound. vm_compute. reflexivity.
  - vm_compute. reflexivity.
  - right. vm_compute. reflexivity.
  - simpl. lia.
  - eexists _, w', p'.
    split; [vm_compute; reflexivity|].
    split; [vm_compute; reflexivity|].
    split; [exact Hrun|]. split; [exact Hp'|].
    split; [rewrite Hg; vm_compute; reflexivity | exact Hl].
Defined.

(** ** Sends to a retired process *)

Section StaleSend.

Context {U : Type} {UC : UserCode U}.

Implicit Types (w : World U) (p : Process) (q : ProcessQueue).

Lemma get_proc_inv i w p w' :
  get_proc i w = Ok (p, w') -> w' = w /\ pq_processes (w_pq w) !! i = Some p.
Proof.
  unfold get_proc, bind, get_pq. cbn.
  destruct (pq_processes (w_pq w) !! i) as [p0|]; [|discriminate].
  intros H. injection H as <- <-. auto.
Qed.

(** A non-null PID returned by [ProcessQueue_spawn] carries the id and the
    generation of a slot of the table. *)
Lemma ProcessQueue_spawn_pid fuel tid parameters w pid w' :
  ProcessQueue_spawn fuel tid parameters w = Ok (pid, w') ->
  pid_pq pid = PQ_this ->
  exists i p,
    pq_processes (w_pq w') !! i = Some p /\
    pid_id pid = p_id p /\ pid_gen pid = p_gen p.
Proof.
  intros H Hthis. unfold ProcessQueue_spawn in H.
  apply bind_inv in H as (q & w1 & Hq & H).
  apply bind_inv in H as ([] & w2 & _ & H).
  destruct (pq_procCount q <? pq_processCap q).
  - apply bind_inv in H as (proc & w3 & _ & H).
    apply bind_inv in H as (parent & w4 & _ & H).
    apply bind_inv in H as (i & w5 & _ & H).
    apply bind_inv in H as ([] & w6 & _ & H).
    apply bind_inv in H as ([] & w7 & _ & H).
    apply bind_inv in H as (p & w8 & Hp & H).
    apply get_proc_inv in Hp as [-> Hp].
    injection H as <- <-. exists i, p. auto.
  - apply bind_inv in H as (q' & w3 & _ & H).
    apply bind_inv in H as ([] & w4 & _ & H).
    apply bind_inv in H as ([] & w5 & _ & H).
    injection H as <- _. discriminate.
Qed.

Lemma wrap32_shift g b :
  0 <= g < 4294967296 -> 0 < b < 4294967296 -> wrap32 (g + b) <> g.
Proof.
  intros Hg Hb. unfold wrap32.
  destruct (Z_lt_le_dec (g + b) 4294967296) as [Hlt|Hge].
  - rewrite Z.mod_small by lia. lia.
  - replace (g + b) with (g + b - 4294967296 + 1 * 4294967296) by lia.
    rewrite Z.mod_add by lia. rewrite Z.mod_small by lia. lia.
Qed.

(** C1 (amended): a send whose try-lock succeeds on a slot whose generation
    differs from the PID's returns [ACTOR_IS_DEAD] and leaves the runtime,
    lock and inbox included, as it found them.  Consequently, on a slot
    table whose ids are the indices and with handlers that leave ids and
    generations alone, a non-null PID returned by [ProcessQueue_spawn]
    whose slot has since been retired at least once and fewer than [2^32]
    times is never accepted: the send returns [ACTOR_IS_DEAD], or
    [SEND_FAIL] if the release lock of the slot is held. *)
Theorem Process_sendMessage_stale_pid :
  handlers_evolve (UC := UC) ->
  (forall fuel w dest message ma p,
     pid_pq dest = PQ_this ->
     pq_processes (w_pq w) !! Z.to_nat (pid_id dest) = Some p ->
     p_releaseLock p = false ->
     pid_gen dest <> p_gen p ->
     exists w',
       Process_sendMessage (S fuel) dest message ma w
         = Ok (ACTOR_IS_DEAD, w') /\
       w_pq w' = w_pq w /\
       w_user w' = w_user w /\
       w_trace w'
         = w_trace w ++ [EvTryLock (Z.to_nat (pid_id dest)) true;
                         EvUnlock (Z.to_nat (pid_id dest))]) /\
  (forall fuel0 fuel1 fuel2 tid parameters w0 pid w1 cs w2 evs message ma,
     ProcessQueue_spawn fuel0 tid parameters w0 = Ok (pid, w1) ->
     pid_pq pid = PQ_this ->
     slots_wf (w_pq w1) ->
     run_calls fuel1 cs w1 = Ok (tt, w2) ->
     w_trace w2 = w_trace w1 ++ evs ->
     0 < Z.of_nat (gen_bumps (Z.to_nat (pid_id pid)) evs) < 4294967296 ->
     exists r w3 (p2 : Process),
       Process_sendMessage (S fuel2) pid message ma w2 = Ok (r, w3) /\
       pq_processes (w_pq w2) !! Z.to_nat (pid_id pid) = Some p2 /\
       r = (if p_releaseLock p2 then SEND_FAIL else ACTOR_IS_DEAD) /\
       r <> SEND_SUCCESS /\
       w_pq w3 = w_pq w2 /\
       w_user w3 = w_user w2).
Proof.
  intros Hhandlers. split.
  - intros fuel w dest message ma p Hpq Hp Hlock Hgen.
    eexists. split.
    + apply Process_sendMessage_dead with (p := p); assumption.
    + repeat split.
  - intros fuel0 fuel1 fuel2 tid parameters w0 pid w1 cs w2 evs message ma
      Hspawn Hthis Hwf Hrun Htr Hbumps.
    destruct (ProcessQueue_spawn_pid _ _ _ _ _ _ Hspawn Hthis)
      as (i & p & Hp & Hid & Hgen).
    destruct (Hwf i p Hp) as [Hidx Hrange].
    assert (Hi : Z.to_nat (pid_id pid) = i) by (rewrite Hid, Hidx; lia).
    rewrite Hi in *.
    destruct (respects_run_calls Hhandlers fuel1 cs w1 tt w2 Hrun)
      as (evs' & Htr' & Hslots & _).
    assert (evs' = evs) as ->.
    { rewrite Htr in Htr'. apply app_inv_head in Htr'. congruence. }
    destruct (Hslots i p Hp) as (p2 & Hp2 & _ & Hg2).
    rewrite gen_after_wrap in Hg2 by exact Hrange.
    assert (Hne : pid_gen pid <> p_gen p2).
    { rewrite Hgen, Hg2. intros E. symmetry in E. revert E.
      apply wrap32_shift; assumption. }
    destruct (Process_sendMessage_stale fuel2 w2 pid message ma p2 Hthis)
      as (r & w3 & Hsend & Hr & Hq & Hu).
    { rewrite Hi. exact Hp2. }
    { exact Hne. }
    exists r, w3, p2. split; [exact Hsend|]. split; [exact Hp2|].
    split; [exact Hr|]. split; [|auto].
    rewrite Hr. destruct (p_releaseLock p2); discriminate.
Qed.

End StaleSend.

(** C1 (witness): the PID of the first process of the sample runtime, used
    after the process stopped, is answered [ACTOR_IS_DEAD]. *)
Lemma Process_sendMessage_stale_pid_witness :
  (exists w',
     Process_sendMessage (UC := sample_code) 1 (mkPID PQ_this 0 0) (PUser 5)
       MA_KEEP
       (sample_world 2 [CSpawn main_thread (sample_parameters 0);
                        CVisit 0%nat])
       = Ok (ACTOR_IS_DEAD, w') /\
     w_pq w'
       = w_pq (sample_world 2 [CSpawn main_thread (sample_parameters 0);
                               CVisit 0%nat])).
Proof.
  destruct (Process_sendMessage_stale_pid (UC := sample_code)
              sample_handlers_evolve) as [_ Hstale].
  destruct (Hstale 8%nat 8%nat 0%nat main_thread (sample_parameters 0)
              (sample_world 2 [])
              (mkPID PQ_this 0 0)
              (sample_world 2 [CSpawn main_thread (sample_parameters 0)])
              [CVisit 0%nat]
              (sample_world 2 [CSpawn main_thread (sample_parameters 0);
                               CVisit 0%nat])
              (drop 2 (w_trace
                 (sample_world 2 [CSpawn main_thread (sample_parameters 0);
                                  CVisit 0%nat])))
              (PUser 5) MA_KEEP)
    as (r & w3 & p2 & Hsend & Hp2 & Hr & _ & Hq & _).
  - vm_compute. reflexivity.
  - reflexivity.
  - intros [|[|i]] p H; vm_compute in H; try discriminate;
      injection H as <-; vm_compute;
      (split; [reflexivity | split; [discriminate | reflexivity]]).
  - vm_compute. reflexivity.
  - vm_compute. reflexivity.
  - vm_compute. split; reflexivity.
  - vm_compute in Hp2. injection Hp2 as <-. cbn in Hr. subst r.
    exists w3. split; [exact Hsend | exact Hq].
Defined.

(** From any state of the churn with generation 0: the process of slot 0
    stops at the next visit, its PID is then answered [ACTOR_IS_DEAD], and
    after a spawn and [2^32 - 1] more churns the same PID is accepted. *)
Lemma churned_pid_accepted w0 :
  churn_inv 0 w0 ->
  exists wr wd w1 w2 p,
    worker_visit (UC := sample_code) 8 0 w0 = Ok (tt, wr) /\
    Process_sendMessage (UC := sample_code) 8 (mkPID PQ_this 0 0) (PUser 5)
      MA_KEEP wr = Ok (ACTOR_IS_DEAD, wd) /\
    run_calls (UC := sample_code) 8
      (CSpawn main_thread (sample_parameters 0) :: churns 4294967295) wr
      = Ok (tt, w1) /\
    Process_sendMessage (UC := sample_code) 8 (mkPID PQ_this 0 0) (PUser 5)
      MA_KEEP w1 = Ok (SEND_SUCCESS, w2) /\
    pq_processes (w_pq w2) !! 0%nat = Some p /\
    queue_rep (p_messageQueue p) 0 [PUser 5].
Proof.
  intros Hinv0.
  destruct (churn_step 0 w0 Hinv0) as (w0' & Hchurn & Hinv1).
  unfold churn in Hchurn. cbn [run_calls run_call] in Hchurn.
  apply bind_inv in Hchurn as ([] & wr & Hvisit & Hrest).
  apply bind_inv in Hrest as ([] & w0'' & Hspawn & Hret).
  injection Hret as ->.
  destruct (churn_visit 0 w0 Hinv0)
    as (wr' & p1 & evs & Hvisit' & _ & _ & _ & Hp1 & Hg1 & Hl1).
  assert (wr' = wr) as -> by congruence.
  destruct (churns_run 4294967295 (0 + 1) w0' Hinv1) as (w1 & Hrun & Hinv).
  set (p := live_slot 0 (wrap32 (0 + 1 + Z.of_N 4294967295))).
  destruct (push_rep_ok 7 (p_messageQueue p) 0 [] (PUser 5))
    as (bq' & Hpush & Hrep' & _).
  { apply (queue_rep_init 4). lia. }
  { reflexivity. }
  { right. reflexivity. }
  eexists wr, _, w1, _, _.
  split; [exact Hvisit|].
  split.
  { apply (Process_sendMessage_dead 7 wr (mkPID PQ_this 0 0) _ _ p1).
    - reflexivity.
    - exact Hp1.
    - exact Hl1.
    - rewrite Hg1. discriminate. }
  split.
  { rewrite (run_calls_cons 8 (CSpawn main_thread (sample_parameters 0))
               (churns 4294967295) wr w0' Hspawn).
    exact Hrun. }
  split.
  { apply (Process_sendMessage_success 8 w1 (mkPID PQ_this 0 0) _ _ p bq').
    - reflexivity.
    - exact (ci_slot _ _ Hinv).
    - reflexivity.
    - reflexivity.
    - exact Hpush. }
  split.
  { rewrite procs_add_trace.
    apply (with_proc_lookup w1 0 p). exact (ci_slot _ _ Hinv). }
  exact Hrep'.
Qed.

(** C1 (counterexample): on the single-slot sample runtime the first
    process gets the PID (slot 0, generation 0) and stops at its first
    visit; a send to that PID is then answered [ACTOR_IS_DEAD].  After
    [2^32] retirements of the slot in all, the process then living in slot 0
    has generation 0 again, and the same send is accepted and delivered to
    it. *)
Lemma Process_sendMessage_stale_pid_counterexample :
  exists w0 wr wd w1 w2 p,
    ProcessQueue_spawn (UC := sample_code) 8 main_thread (sample_parameters 0)
      (sample_world 1 []) = Ok (mkPID PQ_this 0 0, w0) /\
    worker_visit (UC := sample_code) 8 0 w0 = Ok (tt, wr) /\
    Process_sendMessage (UC := sample_code) 8 (mkPID PQ_this 0 0) (PUser 5)
      MA_KEEP wr = Ok (ACTOR_IS_DEAD, wd) /\
    run_calls (UC := sample_code) 8
      (CSpawn main_thread (sample_parameters 0) :: churns 4294967295) wr
      = Ok (tt, w1) /\
    Process_sendMessage (UC := sample_code) 8 (mkPID PQ_this 0 0) (PUser 5)
      MA_KEEP w1 = Ok (SEND_SUCCESS, w2) /\
    pq_processes (w_pq w2) !! 0%nat = Some p /\
    queue_rep (p_messageQueue p) 0 [PUser 5].
Proof.
  destruct (churned_pid_accepted _ churn_inv_start)
    as (wr & wd & w1 & w2 & p & H).
  exists (sample_world 1 [CSpawn main_thread (sample_parameters 0)]),
    wr, wd, w1, w2, p.
  split; [vm_compute; reflexivity | exact H].
Qed.

(** ** Teardown *)

Section Teardown.

Context {U : Type} {UC : UserCode U}.

Implicit Types (w : World U) (p : Process) (q : ProcessQueue).

Lemma join_threads_ok threads : forall t w,
  Forall (fun s => s = TH_RUNNING) threads ->
  join_threads threads t w
    = Ok (replicate (length threads) TH_JOINED,
          add_trace (map EvJoin (seq t (length threads))) w).
Proof.
  induction threads as [|s threads IH]; intros t w Hall.
  - cbn. unfold ret. rewrite add_trace_nil. reflexivity.
  - inversion Hall as [|? ? Hs Hall']; subst.
    cbn [join_threads].
    erewrite bind_ok; [|apply emit_ok].
    erewrite bind_ok; [|apply IH; exact Hall'].
    unfold ret. rewrite add_trace_add_trace. reflexivity.
Qed.

(** The drain of the run queue at teardown retires every process stored in
    it, oldest first. *)
Lemma release_loop_retires fp f : forall slots n w F Fp pool,
  queue_rep (pq_runQueue (w_pq w)) F (map PProc slots) ->
  bq_elementRelease (pq_runQueue (w_pq w)) = ER_processRelease ->
  NoDup slots ->
  (forall i, i ∈ slots ->
     exists p, pq_processes (w_pq w) !! i = Some p /\ retirable fp p) ->
  queue_rep (pq_procPool (w_pq w)) Fp pool ->
  Z.of_nat (length pool) + Z.of_nat (length slots)
    <= bq_cap (pq_procPool (w_pq w)) ->
  wrap_safe (bq_cap (pq_procPool (w_pq w)))
    (Fp + Z.of_nat (length pool) + Z.of_nat (length slots)) ->
  exists w',
    release_loop (processRelease fp) (S (length slots + n)) (S f) QRun w
      = Ok (tt, w') /\
    queue_rep (pq_runQueue (w_pq w')) (F + Z.of_nat (length slots)) [] /\
    queue_rep (pq_procPool (w_pq w')) Fp (pool ++ map PProc slots) /\
    pq_state (w_pq w') = pq_state (w_pq w) /\
    pq_threads (w_pq w') = pq_threads (w_pq w) /\
    (forall j p, pq_processes (w_pq w) !! j = Some p ->
       exists p', pq_processes (w_pq w') !! j = Some p' /\
         (j ∈ slots -> exists inbox', p' = retired_slot p inbox') /\
         (j ∉ slots -> p' = p)) /\
    (exists evs, w_trace w' = w_trace w ++ evs).
Proof.
  induction slots as [|i slots IH];
    intros n w F Fp pool Hrun Hrel Hnd Hready Hpool Hroom Hsafe.
  - exists (add_trace [EvPop QRun NULL]
              (with_queue QRun (pq_runQueue (w_pq w)) w)).
    split; [|split; [|split; [|split; [|split; [|split]]]]].
    + rewrite release_loop_S.
      erewrite bind_ok;
        [|eapply pop_at_ok; [reflexivity | apply (pop_rep_empty f _ F Hrun)]].
      reflexivity.
    + replace (F + Z.of_nat (length (@nil nat))) with F by (simpl; lia).
      exact Hrun.
    + cbn [map]. rewrite app_nil_r. exact Hpool.
    + reflexivity.
    + reflexivity.
    + intros j p Hp. exists p. split; [exact Hp|]. split; [|reflexivity].
      intros Hin. inversion Hin.
    + eexists. reflexivity.
  - apply NoDup_cons in Hnd as [Hni Hnd].
    destruct (Hready i) as (p & Hp & Hthis & fm & Fi & msgs & Hfm & Hinbox & Hfuel);
      [left|].
    cbn [map] in Hrun.
    destruct (pop_rep_ok f _ F (PProc i) (map PProc slots) Hrun)
      as (rq1 & Hpop & Hrep1 & Hc1 & Hr1).
    set (wa := add_trace [EvPop QRun (PProc i)] (with_queue QRun rq1 w)).
    destruct (processRelease_enough fp wa i p fm Fi msgs Fp pool)
      as (inbox' & pool' & Hretire & Hpool' & Hpc' & _); try assumption.
    { change (Z.of_nat (length pool) < bq_cap (pq_procPool (w_pq w))).
      cbn [length] in Hroom. lia. }
    { change (wrap_safe (bq_cap (pq_procPool (w_pq w)))
                (Fp + Z.of_nat (length pool) + 1)).
      eapply wrap_safe_le; [exact Hsafe|]. cbn [length]. lia. }
    match type of Hretire with _ = Ok (tt, ?x) => set (wb := x) in * end.
    destruct (IH n wb (F + 1) Fp (pool ++ [PProc i])) as
      (w' & Hloop & Hrun' & Hpool'' & Hst & Hth & Hslots & evs & Htr).
    { exact Hrep1. }
    { rewrite <- Hrel. exact Hr1. }
    { exact Hnd. }
    { intros j Hj. destruct (Hready j) as (pj & Hpj & Hrj); [right; exact Hj|].
      exists pj. split; [|exact Hrj].
      change (<[i := retired_slot p inbox']> (pq_processes (w_pq w)) !! j
              = Some pj).
      rewrite list_lookup_insert_ne; [exact Hpj|].
      intros ->. contradiction. }
    { exact Hpool'. }
    { change (bq_cap (pq_procPool (w_pq wb))) with (bq_cap pool').
      rewrite Hpc'. change (bq_cap (pq_procPool (w_pq wa)))
        with (bq_cap (pq_procPool (w_pq w))).
      rewrite length_app. cbn [length] in *. lia. }
    { change (bq_cap (pq_procPool (w_pq wb))) with (bq_cap pool').
      rewrite Hpc'. change (bq_cap (pq_procPool (w_pq wa)))
        with (bq_cap (pq_procPool (w_pq w))).
      eapply wrap_safe_le; [exact Hsafe|].
      rewrite length_app. cbn [length]. lia. }
    exists w'. split; [|split; [|split; [|split; [|split; [|split]]]]].
    + cbn [length Nat.add]. rewrite release_loop_S.
      erewrite bind_ok; [|eapply pop_at_ok; [reflexivity | exact Hpop]].
      cbn [is_null]. fold wa.
      erewrite bind_ok; [|apply get_queue_ok; reflexivity].
      change (bq_elementRelease (pq_runQueue (w_pq wa)))
        with (bq_elementRelease rq1).
      rewrite Hr1, Hrel. cbn [call_elementRelease].
      erewrite bind_ok; [|exact Hretire].
      exact Hloop.
    + replace (F + Z.of_nat (length (i :: slots)))
        with (F + 1 + Z.of_nat (length slots)) by (cbn [length]; lia).
      exact Hrun'.
    + cbn [map]. rewrite <- app_assoc in Hpool''. exact Hpool''.
    + rewrite Hst. reflexivity.
    + rewrite Hth. reflexivity.
    + intros j pj Hpj.
      destruct (decide (j = i)) as [->|Hne].
      * assert (pj = p) as -> by congruence.
        destruct (Hslots i (retired_slot p inbox')) as (p' & Hp' & _ & Hsame).
        { apply (with_proc_lookup wa i p). exact Hp. }
        exists p'. split; [exact Hp'|]. split.
        -- intros _. exists inbox'. apply Hsame. exact Hni.
        -- intros Hout. exfalso. apply Hout. left.
      * destruct (Hslots j pj) as (p' & Hp' & Hin & Hout).
        { change (<[i := retired_slot p inbox']> (pq_processes (w_pq w)) !! j
                  = Some pj).
          rewrite list_lookup_insert_ne; [exact Hpj | congruence]. }
        exists p'. split; [exact Hp'|]. split.
        -- intros Hj. apply Hin. apply elem_of_cons in Hj as [Hj|Hj];
             [contradiction | exact Hj].
        -- intros Hj. apply Hout. intros Hj'. apply Hj. right. exact Hj'.
    + eexists. rewrite Htr. cbn. rewrite <- !app_assoc. reflexivity.
Qed.


End Teardown.



(** ** Loops that are never left *)

Section Spinning.

Context {U : Type} {UC : UserCode U}.

Implicit Types (w : World U) (p : Process) (q : ProcessQueue).






End Spinning.

(** ** The run queue at the wrap of its cursors *)

Section WaitingAtWrap.

Context {U : Type} {UC : UserCode U}.

Implicit Types (w : World U) (p : Process) (q : ProcessQueue).








End WaitingAtWrap.


Section WaitingAtWrapEnd.

Context {U : Type} {UC : UserCode U}.

Implicit Types (w : World U) (p : Process) (q : ProcessQueue).



End WaitingAtWrapEnd.


(** ** Retirement and admission, from what the queues answer *)

Section WithQueueAnswers.

Context {U : Type} {UC : UserCode U}.

Implicit Types (w : World U) (p : Process) (q : ProcessQueue).





End WithQueueAnswers.

(** ** Churning three slots up to the wrap of the pool's cursors *)











(** ** Teardown of a runtime whose run queue is at the wrap *)

Section TeardownAtWrap.

Context {U : Type} {UC : UserCode U}.

Implicit Types (w : World U) (p : Process) (q : ProcessQueue).


End TeardownAtWrap.


(** * Further properties of the library *)

(** ** The spin lock *)

(** X1: [spinLock] does not wait for the holder of the lock.  On a free lock
    it returns at its first compare-exchange; on a held lock the failed
    exchange overwrites [expected] with [true], so the second exchange
    succeeds and the function returns with the lock still held: two calls
    in a row, with no [spinUnlock] in between, both return.  Only
    [spinTryLock] tells a held lock from a free one. *)
Theorem spinLock_does_not_exclude (fuel : nat) (l : bool) :
  spinLock (S (S fuel)) l = Ok true /\
  (exists l1 l2,
     spinLock (S (S fuel)) l = Ok l1 /\ spinLock (S (S fuel)) l1 = Ok l2 /\
     l2 = true) /\
  spinLock 1 true = OutOfFuel /\
  spinLock 1 false = Ok true /\
  spinUnlock (S (S fuel)) l = Ok false /\
  spinTryLock l = (negb l, true).
Proof.
  split; [destruct l; reflexivity|].
  split; [exists true, true; destruct l; repeat split|].
  repeat split; destruct l; reflexivity.
Qed.

(** ** Queues of capacity 0 and freed queues *)

(** A queue without capacity or without elements. *)
Lemma BoundedQueue_unusable (fuel : nat) (bq : BoundedQueue)
    (x : ptr) :
  bq_cap bq = 0 \/ bq_elements bq = None ->
  BoundedQueue_push (S fuel) bq x = Fault /\
  BoundedQueue_pop (S fuel) bq = Fault.
Proof.
  intros [H0|Hnone].
  - unfold BoundedQueue_push, BoundedQueue_pop.
    cbn [BoundedQueue_push_loop BoundedQueue_pop_loop].
    rewrite H0. split; reflexivity.
  - unfold BoundedQueue_push, BoundedQueue_pop.
    cbn [BoundedQueue_push_loop BoundedQueue_pop_loop].
    unfold element_at. rewrite Hnone.
    destruct (bq_cap bq =? 0); split; reflexivity.
Qed.


(** ** [BoundedQueue_release] *)

Section ReleaseTwice.

Context {U : Type} {UC : UserCode U}.

Implicit Types (w : World U) (p : Process) (q : ProcessQueue).

Lemma w_trace_with_queue loc bq w : w_trace (with_queue loc bq w) = w_trace w.
Proof.
  destruct loc as [| |i]; try reflexivity.
  simpl. destruct (pq_processes (w_pq w) !! i); reflexivity.
Qed.

Lemma pop_at_freed fuel loc w bq :
  queue_of loc w = Some bq ->
  bq_elements bq = None ->
  pop_at (S fuel) loc w = Fault.
Proof.
  intros Hq Hnone. unfold pop_at.
  erewrite bind_ok; [|apply get_queue_ok; exact Hq].
  apply bind_fault. unfold lift.
  destruct (BoundedQueue_unusable fuel bq NULL (or_intror Hnone))
    as [_ ->].
  reflexivity.
Qed.

Lemma push_at_freed fuel loc x w bq :
  queue_of loc w = Some bq ->
  bq_elements bq = None ->
  push_at (S fuel) loc x w = Fault.
Proof.
  intros Hq Hnone. unfold push_at.
  erewrite bind_ok; [|apply get_queue_ok; exact Hq].
  apply bind_fault. unfold lift.
  destruct (BoundedQueue_unusable fuel bq x (or_intror Hnone))
    as [-> _].
  reflexivity.
Qed.

(** X2: [BoundedQueue_release] on a well-formed queue.  With a destructor,
    the stored payloads are handed to it oldest first, each once, the
    elements are freed, and a second release of the same queue faults (its
    drain pops from the freed elements), as do a push and a pop.  With no
    destructor the elements are freed at once and no stored payload is
    released; a second release then is harmless. *)
Theorem BoundedQueue_release_drains_once pr loc n w bq F msgs :
  queue_of loc w = Some bq ->
  queue_rep bq F msgs ->
  Forall (fun m => m <> NULL) msgs ->
  (forall f, bq_elementRelease bq = ER_user f ->
     exists w1 bq1,
       BoundedQueue_release pr (S (length msgs + n)) loc w = Ok (tt, w1) /\
       w_trace w1
         = w_trace w
           ++ flat_map (fun m => [EvPop loc m; EvElementRelease f m]) msgs
           ++ [EvPop loc NULL; EvFree loc] /\
       w_user w1 = fold_left (fun u m => user_release f m u) msgs (w_user w) /\
       queue_of loc w1 = Some bq1 /\
       bq_elements bq1 = None /\
       (forall fuel, BoundedQueue_release pr (S fuel) loc w1 = Fault) /\
       (forall fuel x, push_at (S fuel) loc x w1 = Fault) /\
       (forall fuel, pop_at (S fuel) loc w1 = Fault)) /\
  (bq_elementRelease bq = ER_NULL ->
   forall fuel,
     let w1 := add_trace [EvFree loc] (with_queue loc (set_elements None bq) w) in
     BoundedQueue_release pr fuel loc w = Ok (tt, w1) /\
     w_user w1 = w_user w /\
     BoundedQueue_release pr fuel loc w1
       = Ok (tt, add_trace [EvFree loc] w1)).
Proof.
  intros Hq Hrep Hnn. split.
  - intros f Hrel.
    destruct (BoundedQueue_release_user pr loc f msgs n w bq F Hq Hrel Hrep Hnn)
      as (bq' & Hrun & Hrep' & Hrel' & Hcap').
    assert (Hq1 : queue_of loc
              (add_trace (drain_events loc f msgs ++ [EvFree loc])
                 (with_user (released f msgs (w_user w))
                    (with_queue loc (set_elements None bq') w)))
            = Some (set_elements None bq')).
    { rewrite queue_of_add_trace, queue_of_with_user.
      eapply queue_of_with_queue. exact Hq. }
    eexists _, (set_elements None bq').
    split; [exact Hrun|].
    split; [cbn; rewrite w_trace_with_queue; unfold drain_events;
            rewrite <- !app_assoc; reflexivity|].
    split; [reflexivity|].
    split; [exact Hq1|].
    split; [reflexivity|].
    split; [|split].
    + intros fuel. unfold BoundedQueue_release.
      erewrite bind_ok; [|apply get_queue_ok; exact Hq1].
      cbn [bq_elementRelease set_elements]. rewrite Hrel'.
      apply bind_fault. rewrite release_loop_S. apply bind_fault.
      eapply pop_at_freed; [exact Hq1 | reflexivity].
    + intros fuel x. eapply push_at_freed; [exact Hq1 | reflexivity].
    + intros fuel. eapply pop_at_freed; [exact Hq1 | reflexivity].
  - intros Hrel fuel w1.
    split; [apply BoundedQueue_release_none; assumption|].
    split; [subst w1; cbn; apply w_user_with_queue|].
    assert (Hq1 : queue_of loc w1 = Some (set_elements None bq)).
    { subst w1. rewrite queue_of_add_trace.
      eapply queue_of_with_queue. exact Hq. }
    rewrite (BoundedQueue_release_none pr fuel loc w1 _ Hq1 Hrel).
    f_equal. f_equal. f_equal.
    subst w1. rewrite with_queue_add_trace.
    f_equal. rewrite with_queue_twice. reflexivity.
Qed.

End ReleaseTwice.

(** ** [ProcessQueue_init] *)

Lemma wrap_safe_half cap L : 1 <= cap <= 2147483648 -> L <= cap -> wrap_safe cap L.
Proof.
  intros Hcap HL.
  destruct (Z.eq_dec cap 2147483648) as [->|Hne].
  - left. exists 2. reflexivity.
  - right. lia.
Qed.

Lemma fill_pool_rep fuel : forall slots pool F l,
  queue_rep pool F l ->
  Z.of_nat (length l) + Z.of_nat (length slots) <= bq_cap pool ->
  wrap_safe (bq_cap pool) (F + Z.of_nat (length l) + Z.of_nat (length slots)) ->
  exists pool',
    fill_pool (S fuel) slots pool = Ok pool' /\
    queue_rep pool' F (l ++ map PProc slots) /\
    bq_cap pool' = bq_cap pool /\
    bq_elementRelease pool' = bq_elementRelease pool.
Proof.
  induction slots as [|s slots IH]; intros pool F l Hrep Hroom Hsafe.
  - exists pool. cbn [fill_pool map]. rewrite app_nil_r. auto.
  - cbn [length] in *.
    destruct (push_rep_ok fuel pool F l (PProc s) Hrep)
      as (pool1 & Hpush & Hrep1 & Hc1 & Hr1).
    { lia. }
    { eapply wrap_safe_le; [exact Hsafe | lia]. }
    destruct (IH pool1 F (l ++ [PProc s]) Hrep1)
      as (pool2 & Hfill & Hrep2 & Hc2 & Hr2).
    { rewrite Hc1, length_app. cbn [length]. lia. }
    { rewrite Hc1, length_app. cbn [length].
      eapply wrap_safe_le; [exact Hsafe | lia]. }
    exists pool2. split; [|split; [|split; congruence]].
    + cbn [fill_pool]. rewrite Hpush. exact Hfill.
    + cbn [map]. rewrite <- app_assoc in Hrep2. exact Hrep2.
Qed.

(** X3: for a capacity between 1 and [2^31], [ProcessQueue_init] returns a
    running runtime with no live process: the table has [procCap] slots,
    slot [i] has id [i] and generation 0, the pool stores every slot in
    index order, the run queue is empty and releases its entries with
    [processRelease], no worker has been joined and no thread has a current
    process. *)
Theorem ProcessQueue_init_well_formed (fuel : nat) (procCap threadCount : Z) :
  1 <= procCap <= 2147483648 ->
  exists q,
    ProcessQueue_init (S fuel) procCap threadCount = Ok q /\
    pq_processCap q = procCap /\
    pq_procCount q = 0 /\
    pq_state q = DQS_RUNNING /\
    pq_threads q = replicate (Z.to_nat threadCount) TH_RUNNING /\
    pq_currentProcess q = ∅ /\
    length (pq_processes q) = Z.to_nat procCap /\
    (forall i p, pq_processes q !! i = Some p ->
       p_id p = Z.of_nat i /\ p_gen p = 0 /\ p_handler p = None) /\
    slots_wf q /\
    queue_rep (pq_procPool q) 0 (map PProc (seq 0 (Z.to_nat procCap))) /\
    bq_cap (pq_procPool q) = procCap /\
    bq_elementRelease (pq_procPool q) = ER_NULL /\
    queue_rep (pq_runQueue q) 0 [] /\
    bq_cap (pq_runQueue q) = procCap /\
    bq_elementRelease (pq_runQueue q) = ER_processRelease.
Proof.
  intros Hcap.
  destruct (fill_pool_rep fuel (seq 0 (Z.to_nat procCap))
              (BoundedQueue_init procCap ER_NULL) 0 [])
    as (pool & Hfill & Hrep & Hc & Hr).
  { apply queue_rep_init. exact Hcap. }
  { rewrite length_seq. cbn. lia. }
  { apply wrap_safe_half; [exact Hcap|]. rewrite length_seq. cbn. lia. }
  assert (Hslots : forall i p,
    map (fun p : nat => set_gen 0
           (mkProcess (Z.of_nat p) 0 NULL PQ_NULL None None NULL
              PS_RUNNING 0 BoundedQueue_zero false))
        (seq 0 (Z.to_nat procCap)) !! i = Some p ->
    p_id p = Z.of_nat i /\ p_gen p = 0 /\ p_handler p = None).
  { intros i p Hp. rewrite list_lookup_fmap in Hp.
    destruct (seq 0 (Z.to_nat procCap) !! i) as [j|] eqn:Hj; [|discriminate].
    apply lookup_seq in Hj as [-> _]. injection Hp as <-. repeat split. }
  eexists. unfold ProcessQueue_init. rewrite Hfill.
  split; [reflexivity|].
  repeat (split; [reflexivity|]).
  split; [cbn; rewrite length_map, length_seq; reflexivity|].
  split; [exact Hslots|].
  split.
  { intros i p Hp. destruct (Hslots i p Hp) as (Hid & Hg & _).
    rewrite Hg. split; [exact Hid | lia]. }
  split; [exact Hrep|].
  split; [exact Hc|].
  split; [exact Hr|].
  split; [apply queue_rep_init; exact Hcap|].
  split; reflexivity.
Qed.

(** X3 (witness): the runtime of capacity 2 with one worker. *)
Lemma ProcessQueue_init_well_formed_witness :
  exists q,
    ProcessQueue_init 1 2 1 = Ok q /\
    pq_procCount q = 0 /\
    queue_rep (pq_procPool q) 0 [PProc 0; PProc 1].
Proof.
  destruct (ProcessQueue_init_well_formed 0 2 1 ltac:(lia))
    as (q & Hinit & _ & Hcount & _ & _ & _ & _ & _ & _ & Hpool & _).
  exists q. split; [exact Hinit|]. split; [exact Hcount | exact Hpool].
Defined.

(** ** Admission of processes *)

Section Admission.

Context {U : Type} {UC : UserCode U}.

Implicit Types (w : World U) (p : Process) (q : ProcessQueue).

(** X4: when [procCount] is below [processCap], [ProcessQueue_spawn] takes
    the slot that has been in the pool longest, fills it from the
    parameters (the batch bound is the smaller of [messageCap] and
    [maxMessagePerCycle], the inbox is a fresh queue of capacity
    [messageCap], the parent is the current process of the calling thread,
    or null outside a handler), leaves its id and its generation alone,
    puts it at the tail of the run queue, counts it in [procCount] and
    returns its id and generation as the PID. *)
Theorem ProcessQueue_spawn_populates_slot
    fuel tid parameters w i p Fp rest Fr l :
  pq_procCount (w_pq w) < pq_processCap (w_pq w) ->
  0 <= pq_procCount (w_pq w) < 4294967295 ->
  queue_rep (pq_procPool (w_pq w)) Fp (PProc i :: rest) ->
  pq_processes (w_pq w) !! i = Some p ->
  queue_rep (pq_runQueue (w_pq w)) Fr l ->
  Z.of_nat (length l) < bq_cap (pq_runQueue (w_pq w)) ->
  wrap_safe (bq_cap (pq_runQueue (w_pq w))) (Fr + Z.of_nat (length l) + 1) ->
  exists w' p',
    ProcessQueue_spawn (S fuel) tid parameters w
      = Ok ({| pid_pq := PQ_this; pid_id := p_id p; pid_gen := p_gen p |}, w') /\
    pq_processes (w_pq w') = <[i := p']> (pq_processes (w_pq w)) /\
    p_id p' = p_id p /\
    p_gen p' = p_gen p /\
    p_parent p' = default NULL (pq_currentProcess (w_pq w) !! tid) /\
    p_handler p' = sp_handler parameters /\
    p_state p' = sp_initialState parameters /\
    p_releaseState p' = sp_releaseState parameters /\
    p_runningState p' = PS_RUNNING /\
    p_maxMessagePerCycle p'
      = Z.min (sp_messageCap parameters) (sp_maxMessagePerCycle parameters) /\
    p_messageQueue p'
      = BoundedQueue_init (sp_messageCap parameters)
          (ElementRelease_of (sp_messageRelease parameters)) /\
    p_releaseLock p' = false /\
    pq_procCount (w_pq w') = pq_procCount (w_pq w) + 1 /\
    queue_rep (pq_procPool (w_pq w')) (Fp + 1) rest /\
    queue_rep (pq_runQueue (w_pq w')) Fr (l ++ [PProc i]) /\
    w_user w' = w_user w /\
    w_trace w' = w_trace w ++ [EvPop QPool (PProc i); EvPush QRun (PProc i) true].
Proof.
  intros Hadm Hrange Hpool Hp Hrun Hroom Hsafe.
  destruct (ProcessQueue_spawn_at fuel tid parameters w i p Fp rest Fr l
              Hadm Hpool Hp Hrun Hroom Hsafe)
    as (pool' & rq' & Hspawn & Hpool' & _ & Hrun' & _).
  eexists _, _. split; [exact Hspawn|].
  split; [reflexivity|].
  repeat (split; [reflexivity|]).
  split.
  { cbn. destruct (Z.gtb_spec (sp_messageCap parameters)
                     (sp_maxMessagePerCycle parameters)); lia. }
  repeat (split; [reflexivity|]).
  split; [cbn; apply wrap32_small; lia|].
  split; [exact Hpool'|].
  split; [exact Hrun'|].
  split; reflexivity.
Qed.

End Admission.

(** ** The capacity of the runtime *)

Section Capacity.

Context {U : Type} {UC : UserCode U}.

Implicit Types (w : World U) (p : Process) (q : ProcessQueue).

Lemma filled_init fuel procCap threadCount :
  1 <= procCap <= 2147483648 ->
  exists q, ProcessQueue_init (S fuel) procCap threadCount = Ok q /\
            filled procCap 0 q.
Proof.
  intros Hcap.
  destruct (fill_pool_rep fuel (seq 0 (Z.to_nat procCap))
              (BoundedQueue_init procCap ER_NULL) 0 [])
    as (pool & Hfill & Hrep & Hc & Hr).
  { apply queue_rep_init. exact Hcap. }
  { rewrite length_seq. cbn. lia. }
  { apply wrap_safe_half; [exact Hcap|]. rewrite length_seq. cbn. lia. }
  eexists. unfold ProcessQueue_init. rewrite Hfill.
  split; [reflexivity|].
  constructor; try reflexivity.
  - cbn [pq_procPool]. rewrite Nat.sub_0_r. exact Hrep.
  - exact Hc.
  - apply queue_rep_init. exact Hcap.
  - intros i Hi. cbn [pq_processes].
    rewrite list_lookup_fmap, lookup_seq_lt by exact Hi.
    eexists. split; [reflexivity|]. split; reflexivity.
Qed.

Lemma spawn_filled fuel tid parameters cap k w :
  1 <= cap <= 2147483648 ->
  (k < Z.to_nat cap)%nat ->
  filled cap k (w_pq w) ->
  exists w',
    ProcessQueue_spawn (S fuel) tid parameters w
      = Ok (mkPID PQ_this (Z.of_nat k) 0, w') /\
    filled cap (S k) (w_pq w').
Proof.
  intros Hcap Hk [Hc Hcount Hpool Hpc Hrun Hrc Hslots].
  destruct (Hslots k Hk) as (p & Hp & Hid & Hg).
  replace (Z.to_nat cap - k)%nat with (S (Z.to_nat cap - S k)) in Hpool by lia.
  cbn [seq map] in Hpool.
  destruct (ProcessQueue_spawn_at fuel tid parameters w k p (Z.of_nat k)
              (map PProc (seq (S k) (Z.to_nat cap - S k)))
              0 (map PProc (seq 0 k)))
    as (pool' & rq' & Hspawn & Hpool' & Hpc' & Hrun' & Hrc').
  { lia. }
  { exact Hpool. }
  { exact Hp. }
  { exact Hrun. }
  { rewrite length_map, length_seq. lia. }
  { apply wrap_safe_half; [lia|]. rewrite length_map, length_seq. lia. }
  rewrite Hid, Hg in Hspawn.
  eexists. split; [exact Hspawn|].
  constructor.
  - exact Hc.
  - cbn. rewrite Hcount. rewrite wrap32_small by lia. lia.
  - replace (Z.of_nat (S k)) with (Z.of_nat k + 1) by lia. exact Hpool'.
  - cbn. rewrite Hpc'. exact Hpc.
  - rewrite seq_S, map_app. exact Hrun'.
  - cbn. rewrite Hrc'. exact Hrc.
  - intros j Hj. cbn.
    destruct (decide (j = k)) as [->|Hne].
    + eexists. split.
      * apply list_lookup_insert_eq. eapply lookup_lt_Some. exact Hp.
      * split; assumption.
    + rewrite list_lookup_insert_ne by congruence. apply Hslots. exact Hj.
Qed.

Lemma spawn_many_fills fuel tid cap : forall ps k w,
  1 <= cap <= 2147483648 ->
  (k + length ps <= Z.to_nat cap)%nat ->
  filled cap k (w_pq w) ->
  exists w',
    spawn_many (S fuel) tid ps w
      = Ok (map (fun j : nat => mkPID PQ_this (Z.of_nat j) 0)
              (seq k (length ps)), w') /\
    filled cap (k + length ps) (w_pq w').
Proof.
  induction ps as [|parameters ps IH]; intros k w Hcap Hk Hfilled.
  - exists w. split; [reflexivity|]. rewrite Nat.add_0_r. exact Hfilled.
  - cbn [length] in Hk.
    destruct (spawn_filled fuel tid parameters cap k w Hcap ltac:(lia) Hfilled)
      as (w1 & Hspawn & Hfilled1).
    destruct (IH (S k) w1 Hcap ltac:(lia) Hfilled1) as (w2 & Hrest & Hfilled2).
    exists w2. split.
    + cbn [spawn_many length seq map].
      erewrite bind_ok; [|exact Hspawn].
      erewrite bind_ok; [|exact Hrest]. reflexivity.
    + cbn [length]. replace (k + S (length ps))%nat with (S k + length ps)%nat
        by lia.
      exact Hfilled2.
Qed.

Lemma spawn_many_refused fuel tid cap : forall ps w,
  1 <= cap <= 2147483648 ->
  filled cap (Z.to_nat cap) (w_pq w) ->
  exists w',
    spawn_many fuel tid ps w = Ok (replicate (length ps) null_PID, w') /\
    w_pq w' = w_pq w.
Proof.
  induction ps as [|parameters ps IH]; intros w Hcap Hfilled.
  - exists w. split; reflexivity.
  - pose proof (fl_cap _ _ _ Hfilled) as Hc.
    pose proof (fl_count _ _ _ Hfilled) as Hcount.
    pose proof (ProcessQueue_spawn_full fuel tid parameters w
                  ltac:(lia) ltac:(lia)) as Hspawn.
    match type of Hspawn with _ = Ok (_, ?x) => set (w1 := x) in * end.
    destruct (IH w1 Hcap Hfilled) as (w2 & Hrest & Hq).
    exists w2. split; [|exact Hq].
    cbn [spawn_many length replicate].
    erewrite bind_ok; [|exact Hspawn].
    erewrite bind_ok; [|exact Hrest]. reflexivity.
Qed.

Lemma spawn_many_app fuel tid ps1 : forall ps2 w pids1 w1,
  spawn_many fuel tid ps1 w = Ok (pids1, w1) ->
  spawn_many fuel tid (ps1 ++ ps2) w
    = bind (spawn_many fuel tid ps2) (fun pids2 => ret (pids1 ++ pids2)) w1.
Proof.
  induction ps1 as [|parameters ps1 IH]; intros ps2 w pids1 w1 H.
  - injection H as <- <-. cbn [app]. unfold bind, ret.
    destruct (spawn_many fuel tid ps2 w) as [[pids2 w2]| |]; reflexivity.
  - cbn [spawn_many app] in *.
    apply bind_inv in H as (pid & wa & Hspawn & H).
    apply bind_inv in H as (pids & wb & Hrest & H).
    injection H as <- <-.
    erewrite bind_ok; [|exact Hspawn].
    cbv beta. unfold bind at 1. rewrite (IH ps2 wa pids wb Hrest).
    unfold bind, ret.
    destruct (spawn_many fuel tid ps2 wb) as [[pids2 w2]| |]; reflexivity.
Qed.

(** X5: a runtime initialised with capacity [procCap] admits exactly
    [procCap] processes.  Of any number of spawns in a row, the first
    [procCap] return the PIDs of the slots [0], [1], ... in order, each
    with generation 0, and every further one returns the null PID. *)
Theorem ProcessQueue_spawn_capacity fuel tid procCap threadCount
    (ps : list ProcessSpawnParameters) (u : U) :
  1 <= procCap <= 2147483648 ->
  exists q w',
    ProcessQueue_init (S fuel) procCap threadCount = Ok q /\
    spawn_many (S fuel) tid ps (mkWorld q u [])
      = Ok (map (fun j : nat => mkPID PQ_this (Z.of_nat j) 0)
              (seq 0 (Nat.min (length ps) (Z.to_nat procCap)))
            ++ replicate (length ps - Z.to_nat procCap) null_PID, w') /\
    pq_procCount (w_pq w')
      = Z.of_nat (Nat.min (length ps) (Z.to_nat procCap)).
Proof.
  intros Hcap.
  destruct (filled_init fuel procCap threadCount Hcap) as (q & Hinit & Hfilled).
  exists q.
  set (n := Z.to_nat procCap).
  destruct (spawn_many_fills fuel tid procCap (take n ps) 0 (mkWorld q u [])
              Hcap)
    as (w1 & Hfirst & Hfilled1).
  { rewrite length_take. fold n. lia. }
  { exact Hfilled. }
  rewrite length_take in Hfirst, Hfilled1. cbn [Nat.add] in Hfilled1.
  rewrite (Nat.min_comm n (length ps)) in Hfirst, Hfilled1.
  destruct (Nat.le_gt_cases (length ps) n) as [Hle|Hgt].
  - rewrite take_ge in Hfirst by lia.
    exists w1.
    replace (length ps `min` n)%nat with (length ps) in * by lia.
    replace (length ps - n)%nat with 0%nat by lia.
    cbn [replicate]. rewrite app_nil_r.
    split; [exact Hinit|]. split; [exact Hfirst|].
    exact (fl_count _ _ _ Hfilled1).
  - replace (length ps `min` n)%nat with n in * by lia.
    destruct (spawn_many_refused (S fuel) tid procCap (drop n ps) w1 Hcap
                Hfilled1) as (w2 & Hrest & Hq).
    exists w2. split; [exact Hinit|]. split.
    + rewrite <- (take_drop n ps) at 1.
      rewrite (spawn_many_app _ _ _ _ _ _ _ Hfirst).
      erewrite bind_ok; [|exact Hrest].
      rewrite length_drop. reflexivity.
    + rewrite Hq. exact (fl_count _ _ _ Hfilled1).
Qed.

End Capacity.

(** The sample runtime with one process that waits and holds one message. *)
Lemma sample_inbox_one :
  let w := sample_world 2 [CSpawn main_thread (sample_parameters 1);
                           CSend (mkPID PQ_this 0 0) (PUser 5) MA_KEEP] in
  let bq := default BoundedQueue_zero (queue_of (QInbox 0) w) in
  queue_of (QInbox 0) w = Some bq /\
  queue_rep bq 0 [PUser 5] /\
  bq_elementRelease bq = ER_user 8.
Proof.
  split; [vm_compute; reflexivity|].
  split; [apply check_rep_sound; vm_compute; reflexivity|].
  vm_compute. reflexivity.
Qed.

(** X2 (witness): the inbox of the sample process holds one message; its
    release hands the message to the destructor, and a second release
    faults. *)
Lemma BoundedQueue_release_drains_once_witness :
  exists w1,
    BoundedQueue_release (UC := sample_code) (fun _ => fault) 8 (QInbox 0)
      (sample_world 2 [CSpawn main_thread (sample_parameters 1);
                       CSend (mkPID PQ_this 0 0) (PUser 5) MA_KEEP])
      = Ok (tt, w1) /\
    w_user w1 = 1%nat /\
    BoundedQueue_release (UC := sample_code) (fun _ => fault) 8 (QInbox 0) w1
      = Fault.
Proof.
  destruct sample_inbox_one as (Hq & Hrep & Hrel).
  destruct (proj1 (BoundedQueue_release_drains_once (UC := sample_code)
                     (fun _ => fault) (QInbox 0) 6 _ _ 0 [PUser 5] Hq Hrep
                     ltac:(repeat constructor; discriminate))
              8%nat Hrel)
    as (w1 & bq1 & Hrun & _ & Hu & _ & _ & Hagain & _).
  exists w1. split; [exact Hrun|]. split; [|apply Hagain].
  rewrite Hu. vm_compute. reflexivity.
Defined.

(** X4 (witness): the first spawn on the sample runtime takes slot 0. *)
Lemma ProcessQueue_spawn_populates_slot_witness :
  exists w' p',
    ProcessQueue_spawn (UC := sample_code) 1 main_thread (sample_parameters 2)
      (sample_world 2 []) = Ok (mkPID PQ_this 0 0, w') /\
    pq_processes (w_pq w') !! 0%nat = Some p' /\
    p_maxMessagePerCycle p' = 3 /\
    pq_procCount (w_pq w') = 1.
Proof.
  destruct (ProcessQueue_spawn_populates_slot (UC := sample_code) 0
              main_thread (sample_parameters 2) (sample_world 2 []) 0
              (default Process_zero
                 (pq_processes (w_pq (sample_world 2 [])) !! 0%nat))
              0 [PProc 1] 0 [])
    as (w' & p' & Hspawn & Hprocs & _ & _ & _ & _ & _ & _ & _ & Hmax & _ & _
        & Hcount & _).
  - vm_compute. reflexivity.
  - vm_compute. split; [discriminate | reflexivity].
  - apply check_rep_sound. vm_compute. reflexivity.
  - vm_compute. reflexivity.
  - apply check_rep_sound. vm_compute. reflexivity.
  - vm_compute. reflexivity.
  - right. vm_compute. reflexivity.
  - exists w', p'. split; [exact Hspawn|].
    split; [rewrite Hprocs; vm_compute; reflexivity|].
    split; [rewrite Hmax; reflexivity|].
    rewrite Hcount. vm_compute. reflexivity.
Defined.

(** X5 (witness): three spawns on a runtime of capacity 2. *)
Lemma ProcessQueue_spawn_capacity_witness :
  exists q w',
    ProcessQueue_init 1 2 1 = Ok q /\
    spawn_many (UC := sample_code) 1 main_thread
      [sample_parameters 0; sample_parameters 1; sample_parameters 2]
      (mkWorld q 0%nat [])
      = Ok ([mkPID PQ_this 0 0; mkPID PQ_this 1 0; null_PID], w').
Proof.
  destruct (ProcessQueue_spawn_capacity (UC := sample_code) 0 main_thread 2 1
              [sample_parameters 0; sample_parameters 1; sample_parameters 2]
              0%nat ltac:(lia))
    as (q & w' & Hinit & Hspawn & _).
  exists q, w'. split; [exact Hinit | exact Hspawn].
Defined.

(** ** Sending to a process and receiving in its handler *)

Section SendReceive.

Context {U : Type} {UC : UserCode U}.

Implicit Types (w : World U) (p : Process) (q : ProcessQueue).

Lemma Process_self_in_handler tid w i p :
  pq_currentProcess (w_pq w) !! tid = Some (PProc i) ->
  pq_processes (w_pq w) !! i = Some p ->
  Process_self tid w
    = Ok ({| pid_pq := PQ_this; pid_id := p_id p; pid_gen := p_gen p |}, w).
Proof.
  intros Htls Hp. unfold Process_self.
  mstep ltac:(apply tls_get_ok). rewrite Htls. cbn [default as_proc].
  mstep ltac:(apply ret_ok). step_get. reflexivity.
Qed.

Lemma Process_receiveMessage_in_handler fuel tid w i p x bq' :
  pq_currentProcess (w_pq w) !! tid = Some (PProc i) ->
  pq_processes (w_pq w) !! i = Some p ->
  BoundedQueue_pop fuel (p_messageQueue p) = Ok (x, bq') ->
  Process_receiveMessage fuel tid w
    = Ok (x, add_trace [EvPop (QInbox i) x]
               (with_proc i (set_messageQueue bq' p) w)).
Proof.
  intros Htls Hp Hpop. unfold Process_receiveMessage.
  mstep ltac:(apply tls_get_ok). rewrite Htls. cbn [default as_proc].
  mstep ltac:(apply ret_ok).
  erewrite pop_at_ok; [|apply queue_of_inbox; exact Hp | exact Hpop].
  cbn [with_queue]. rewrite Hp. reflexivity.
Qed.

(** X6: [Process_self] and [Process_receiveMessage] act on the current
    process of the calling thread.  In a handler, [Process_self] returns
    the id and the generation of the process and changes nothing, and
    [Process_receiveMessage] removes and returns the oldest message of its
    inbox, or returns null and leaves the inbox alone if it is empty.
    Called by a thread that is not running a handler (no current process),
    both dereference a null pointer. *)
Theorem Process_receiveMessage_pops_own_inbox fuel tid w :
  (forall i p F msgs,
     pq_currentProcess (w_pq w) !! tid = Some (PProc i) ->
     pq_processes (w_pq w) !! i = Some p ->
     queue_rep (p_messageQueue p) F msgs ->
     Process_self tid w
       = Ok ({| pid_pq := PQ_this; pid_id := p_id p; pid_gen := p_gen p |}, w)
     /\
     match msgs with
     | [] =>
         Process_receiveMessage (S fuel) tid w
           = Ok (NULL, add_trace [EvPop (QInbox i) NULL]
                         (with_proc i (set_messageQueue (p_messageQueue p) p) w))
     | m :: rest =>
         exists inbox',
           Process_receiveMessage (S fuel) tid w
             = Ok (m, add_trace [EvPop (QInbox i) m]
                        (with_proc i (set_messageQueue inbox' p) w)) /\
           queue_rep inbox' (F + 1) rest /\
           bq_cap inbox' = bq_cap (p_messageQueue p)
     end) /\
  (default NULL (pq_currentProcess (w_pq w) !! tid) = NULL ->
   Process_self tid w = Fault /\
   Process_receiveMessage fuel tid w = Fault).
Proof.
  split.
  - intros i p F msgs Htls Hp Hrep.
    split; [apply (Process_self_in_handler tid w i p); assumption|].
    destruct msgs as [|m rest].
    + apply Process_receiveMessage_in_handler; try assumption.
      apply (pop_rep_empty fuel _ F Hrep).
    + destruct (pop_rep_ok fuel _ F m rest Hrep) as (bq' & Hpop & Hrep' & Hc & _).
      exists bq'. split; [|split; assumption].
      apply Process_receiveMessage_in_handler; assumption.
  - intros Hnull. unfold Process_self, Process_receiveMessage.
    split; (erewrite bind_ok; [|apply tls_get_ok]); rewrite Hnull; reflexivity.
Qed.

(** X7: a message sent to a live process whose release lock is free and
    whose inbox is empty is what the process receives: the send with the
    PID [Process_self] gave the process returns [SEND_SUCCESS], the next
    [Process_receiveMessage] of the process returns that message, and the
    one after returns null. *)
Theorem send_receive_round_trip fuel tid w i p F message ma :
  pq_currentProcess (w_pq w) !! tid = Some (PProc i) ->
  pq_processes (w_pq w) !! i = Some p ->
  p_id p = Z.of_nat i ->
  p_releaseLock p = false ->
  queue_rep (p_messageQueue p) F [] ->
  wrap_safe (bq_cap (p_messageQueue p)) (F + 1) ->
  message <> NULL ->
  exists pid w1 w2 w3 p3,
    Process_self tid w = Ok (pid, w) /\
    Process_sendMessage (S fuel) pid message ma w = Ok (SEND_SUCCESS, w1) /\
    Process_receiveMessage (S fuel) tid w1 = Ok (message, w2) /\
    Process_receiveMessage (S fuel) tid w2 = Ok (NULL, w3) /\
    pq_processes (w_pq w3) !! i = Some p3 /\
    queue_rep (p_messageQueue p3) (F + 1) [].
Proof.
  intros Htls Hp Hid Hlock Hrep Hsafe Hm.
  set (pid := {| pid_pq := PQ_this; pid_id := p_id p; pid_gen := p_gen p |}).
  assert (Hi : Z.to_nat (pid_id pid) = i) by (cbn; rewrite Hid; lia).
  destruct (push_rep_ok fuel _ F [] message Hrep) as (bq1 & Hpush & Hrep1 & _).
  { pose proof (qr_cap _ _ _ Hrep). cbn. lia. }
  { eapply wrap_safe_le; [exact Hsafe | cbn; lia]. }
  destruct (pop_rep_ok fuel bq1 F message [] Hrep1) as (bq2 & Hpop & Hrep2 & _).
  pose proof (Process_sendMessage_success (S fuel) w pid message ma p bq1
                eq_refl ltac:(rewrite Hi; exact Hp) Hlock eq_refl Hpush)
    as Hsend.
  rewrite Hi in Hsend.
  set (p1 := set_messageQueue bq1 (set_releaseLock true p)) in *.
  match type of Hsend with _ = Ok (_, ?x) => set (w1 := x) in * end.
  assert (Hp1 : pq_processes (w_pq w1) !! i = Some p1)
    by (apply (with_proc_lookup w i p); exact Hp).
  pose proof (Process_receiveMessage_in_handler (S fuel) tid w1 i p1 message bq2
                Htls Hp1 Hpop) as Hrecv.
  set (p2 := set_messageQueue bq2 p1) in *.
  match type of Hrecv with _ = Ok (_, ?x) => set (w2 := x) in * end.
  assert (Hp2 : pq_processes (w_pq w2) !! i = Some p2)
    by (apply (with_proc_lookup w1 i p1); exact Hp1).
  pose proof (Process_receiveMessage_in_handler (S fuel) tid w2 i p2 NULL bq2
                Htls Hp2 (pop_rep_empty fuel bq2 (F + 1) Hrep2)) as Hrecv2.
  eexists pid, w1, w2, _, _.
  split; [apply (Process_self_in_handler tid w i p); assumption|].
  split; [exact Hsend|].
  split; [exact Hrecv|].
  split; [exact Hrecv2|].
  split.
  - rewrite procs_add_trace. apply (with_proc_lookup w2 i p2). exact Hp2.
  - exact Hrep2.
Qed.

(** X8: a process accepts one message.  After a send that returned
    [SEND_SUCCESS] the release lock of the destination stays held, so every
    later send to that slot, whatever its PID, message and action, returns
    [SEND_FAIL] and enqueues nothing, also after the process has received
    the message and its inbox is empty again. *)
Theorem Process_sendMessage_accepts_one_message fuel tid w i p F message ma :
  pq_currentProcess (w_pq w) !! tid = Some (PProc i) ->
  pq_processes (w_pq w) !! i = Some p ->
  p_id p = Z.of_nat i ->
  p_releaseLock p = false ->
  queue_rep (p_messageQueue p) F [] ->
  wrap_safe (bq_cap (p_messageQueue p)) (F + 1) ->
  message <> NULL ->
  exists w1 w2,
    Process_sendMessage (S fuel) (mkPID PQ_this (p_id p) (p_gen p)) message ma w
      = Ok (SEND_SUCCESS, w1) /\
    Process_receiveMessage (S fuel) tid w1 = Ok (message, w2) /\
    forall fuel' dest message' ma',
      pid_pq dest = PQ_this ->
      Z.to_nat (pid_id dest) = i ->
      Process_sendMessage fuel' dest message' ma' w1
        = Ok (SEND_FAIL, add_trace [EvTryLock i false] w1) /\
      Process_sendMessage fuel' dest message' ma' w2
        = Ok (SEND_FAIL, add_trace [EvTryLock i false] w2).
Proof.
  intros Htls Hp Hid Hlock Hrep Hsafe Hm.
  set (pid := {| pid_pq := PQ_this; pid_id := p_id p; pid_gen := p_gen p |}).
  assert (Hi : Z.to_nat (pid_id pid) = i) by (cbn; rewrite Hid; lia).
  destruct (push_rep_ok fuel _ F [] message Hrep) as (bq1 & Hpush & Hrep1 & _).
  { pose proof (qr_cap _ _ _ Hrep). cbn. lia. }
  { eapply wrap_safe_le; [exact Hsafe | cbn; lia]. }
  destruct (pop_rep_ok fuel bq1 F message [] Hrep1) as (bq2 & Hpop & Hrep2 & _).
  pose proof (Process_sendMessage_success (S fuel) w pid message ma p bq1
                eq_refl ltac:(rewrite Hi; exact Hp) Hlock eq_refl Hpush)
    as Hsend.
  rewrite Hi in Hsend.
  set (p1 := set_messageQueue bq1 (set_releaseLock true p)) in *.
  match type of Hsend with _ = Ok (_, ?x) => set (w1 := x) in * end.
  assert (Hp1 : pq_processes (w_pq w1) !! i = Some p1)
    by (apply (with_proc_lookup w i p); exact Hp).
  pose proof (Process_receiveMessage_in_handler (S fuel) tid w1 i p1 message bq2
                Htls Hp1 Hpop) as Hrecv.
  set (p2 := set_messageQueue bq2 p1) in *.
  match type of Hrecv with _ = Ok (_, ?x) => set (w2 := x) in * end.
  assert (Hp2 : pq_processes (w_pq w2) !! i = Some p2)
    by (apply (with_proc_lookup w1 i p1); exact Hp1).
  exists w1, w2. split; [exact Hsend|]. split; [exact Hrecv|].
  intros fuel' dest message' ma' Hthis Hdest. split.
  - rewrite <- Hdest.
    apply Process_sendMessage_locked with (p := p1);
      [exact Hthis | rewrite Hdest; exact Hp1 | reflexivity].
  - rewrite <- Hdest.
    apply Process_sendMessage_locked with (p := p2);
      [exact Hthis | rewrite Hdest; exact Hp2 | reflexivity].
Qed.

End SendReceive.

(** The sample runtime whose process 0 has been dispatched once by worker 0
    and waits for a message. *)
Lemma sample_waiting :
  let w := sample_world 2 [CSpawn main_thread (sample_parameters 1);
                           CVisit 0%nat] in
  let p := default Process_zero (pq_processes (w_pq w) !! 0%nat) in
  pq_currentProcess (w_pq w) !! 0%nat = Some (PProc 0) /\
  pq_processes (w_pq w) !! 0%nat = Some p /\
  p_id p = Z.of_nat 0 /\
  p_gen p = 0 /\
  p_releaseLock p = false /\
  queue_rep (p_messageQueue p) 0 [] /\
  wrap_safe (bq_cap (p_messageQueue p)) (0 + 1).
Proof.
  repeat (split; [vm_compute; reflexivity|]).
  split; [apply check_rep_sound; vm_compute; reflexivity|].
  right. vm_compute. reflexivity.
Qed.

(** X6 (witness): in the handler of the waiting sample process. *)
Lemma Process_receiveMessage_pops_own_inbox_witness :
  exists w',
    Process_self 0
      (sample_world 2 [CSpawn main_thread (sample_parameters 1); CVisit 0%nat])
      = Ok (mkPID PQ_this 0 0,
            sample_world 2 [CSpawn main_thread (sample_parameters 1);
                            CVisit 0%nat]) /\
    Process_receiveMessage 1 0
      (sample_world 2 [CSpawn main_thread (sample_parameters 1); CVisit 0%nat])
      = Ok (NULL, w').
Proof.
  destruct sample_waiting as (Htls & Hp & Hid & Hg & Hlock & Hrep & Hsafe).
  destruct (proj1 (Process_receiveMessage_pops_own_inbox 0 0 _) 0%nat _ 0 []
              Htls Hp Hrep) as [Hself Hrecv].
  eexists. split; [|exact Hrecv].
  rewrite Hself, Hid, Hg. reflexivity.
Defined.

(** X7 (witness): a message sent to the waiting sample process. *)
Lemma send_receive_round_trip_witness :
  exists pid w1 w2,
    Process_self 0
      (sample_world 2 [CSpawn main_thread (sample_parameters 1); CVisit 0%nat])
      = Ok (pid,
            sample_world 2 [CSpawn main_thread (sample_parameters 1);
                            CVisit 0%nat]) /\
    Process_sendMessage (UC := sample_code) 1 pid (PUser 5) MA_KEEP
      (sample_world 2 [CSpawn main_thread (sample_parameters 1); CVisit 0%nat])
      = Ok (SEND_SUCCESS, w1) /\
    Process_receiveMessage 1 0 w1 = Ok (PUser 5, w2).
Proof.
  destruct sample_waiting as (Htls & Hp & Hid & Hg & Hlock & Hrep & Hsafe).
  destruct (send_receive_round_trip (UC := sample_code) 0 0 _ 0%nat _ 0
              (PUser 5) MA_KEEP
              Htls Hp Hid Hlock Hrep Hsafe ltac:(discriminate))
    as (pid & w1 & w2 & w3 & p3 & Hself & Hsend & Hrecv & _).
  exists pid, w1, w2. split; [exact Hself|]. split; [exact Hsend | exact Hrecv].
Defined.

(** X8 (witness): the second message sent to the waiting sample process. *)
Lemma Process_sendMessage_accepts_one_message_witness :
  exists w1,
    Process_sendMessage (UC := sample_code) 1 (mkPID PQ_this 0 0) (PUser 5) MA_KEEP
      (sample_world 2 [CSpawn main_thread (sample_parameters 1); CVisit 0%nat])
      = Ok (SEND_SUCCESS, w1) /\
    Process_sendMessage (UC := sample_code) 1 (mkPID PQ_this 0 0) (PUser 6) MA_KEEP w1
      = Ok (SEND_FAIL, add_trace [EvTryLock 0 false] w1).
Proof.
  destruct sample_waiting as (Htls & Hp & Hid & Hg & Hlock & Hrep & Hsafe).
  destruct (Process_sendMessage_accepts_one_message (UC := sample_code) 0 0 _ 0%nat _ 0 (PUser 5)
              MA_KEEP Htls Hp Hid Hlock Hrep Hsafe ltac:(discriminate))
    as (w1 & w2 & Hsend & _ & Hlater).
  rewrite Hid, Hg in Hsend.
  exists w1. split; [exact Hsend|].
  exact (proj1 (Hlater 1%nat (mkPID PQ_this 0 0) (PUser 6) MA_KEEP
                  eq_refl eq_refl)).
Defined.

(** ** A send to a full inbox *)

Section FullInbox.

Context {U : Type} {UC : UserCode U}.

Implicit Types (w : World U) (p : Process) (q : ProcessQueue).

Lemma Process_sendMessage_full_remove fuel w dest message p :
  pid_pq dest = PQ_this ->
  pq_processes (w_pq w) !! Z.to_nat (pid_id dest) = Some p ->
  p_releaseLock p = false ->
  pid_gen dest = p_gen p ->
  BoundedQueue_push fuel (p_messageQueue p) message
    = Ok (false, p_messageQueue p) ->
  Process_sendMessage fuel dest message MA_REMOVE w
    = match bq_elementRelease (p_messageQueue p) with
      | ER_user f =>
          Ok (SEND_FAIL,
              add_trace [EvTryLock (Z.to_nat (pid_id dest)) true;
                         EvPush (QInbox (Z.to_nat (pid_id dest))) message false;
                         EvElementRelease f message]
                (with_user (user_release f message (w_user w))
                   (with_proc (Z.to_nat (pid_id dest))
                      (set_releaseLock true p) w)))
      | _ => Fault
      end.
Proof.
  intros Hpq Hp Hlock Hgen Hpush. unfold Process_sendMessage. rewrite Hpq.
  step_get. rewrite Hlock. cbn [spinTryLock cas Bool.eqb].
  step_modify. step_emit. step_get.
  cbn [p_gen set_releaseLock p_releaseLock].
  rewrite Hgen, Z.eqb_refl. cbn [negb].
  mstep ltac:(eapply push_at_ok;
              [apply queue_of_inbox; solve_lookup | exact Hpush]).
  cbv beta match.
  cbn [with_queue]. rewrite procs_add_trace.
  rewrite (with_proc_lookup _ _ _ _ Hp).
  rewrite with_proc_add_trace, add_trace_add_trace, with_proc_twice.
  replace (set_messageQueue (p_messageQueue p) (set_releaseLock true p))
    with (set_releaseLock true p) by (destruct p; reflexivity).
  match goal with
  | |- bind (bind (get_proc ?i) ?k) ?k' ?w0 = _ =>
      assert (Hget : get_proc i w0 = Ok (set_releaseLock true p, w0))
        by (apply get_proc_ok; rewrite procs_add_trace;
            eapply with_proc_lookup; exact Hp)
  end.
  unfold bind at 1. unfold bind at 1. rewrite Hget.
  cbn [p_messageQueue set_releaseLock].
  destruct (bq_elementRelease (p_messageQueue p)) as [| |f]; try reflexivity.
  rewrite call_elementRelease_user. unfold ret.
  rewrite with_user_add_trace, add_trace_add_trace.
  cbn [app]. reflexivity.
Qed.

(** X9: a send to a live process whose release lock is free and whose
    inbox (of capacity at least 2) is full returns [SEND_FAIL], leaves the
    inbox as it is and leaves the release lock held.  With [MA_KEEP] the
    message is not released.  With [MA_REMOVE] it is handed once to the
    message destructor of the process; if the process has none, the call
    goes through a null function pointer. *)
Theorem Process_sendMessage_full_inbox fuel w dest message p F msgs :
  pid_pq dest = PQ_this ->
  pq_processes (w_pq w) !! Z.to_nat (pid_id dest) = Some p ->
  p_releaseLock p = false ->
  pid_gen dest = p_gen p ->
  queue_rep (p_messageQueue p) F msgs ->
  2 <= bq_cap (p_messageQueue p) ->
  Z.of_nat (length msgs) = bq_cap (p_messageQueue p) ->
  Process_sendMessage (S fuel) dest message MA_KEEP w
    = Ok (SEND_FAIL,
          add_trace [EvTryLock (Z.to_nat (pid_id dest)) true;
                     EvPush (QInbox (Z.to_nat (pid_id dest))) message false]
            (with_proc (Z.to_nat (pid_id dest)) (set_releaseLock true p) w)) /\
  (forall f, bq_elementRelease (p_messageQueue p) = ER_user f ->
     Process_sendMessage (S fuel) dest message MA_REMOVE w
       = Ok (SEND_FAIL,
             add_trace [EvTryLock (Z.to_nat (pid_id dest)) true;
                        EvPush (QInbox (Z.to_nat (pid_id dest))) message false;
                        EvElementRelease f message]
               (with_user (user_release f message (w_user w))
                  (with_proc (Z.to_nat (pid_id dest))
                     (set_releaseLock true p) w)))) /\
  (bq_elementRelease (p_messageQueue p) = ER_NULL ->
   Process_sendMessage (S fuel) dest message MA_REMOVE w = Fault).
Proof.
  intros Hpq Hp Hlock Hgen Hrep Hcap Hfull.
  pose proof (push_rep_full fuel _ F msgs message Hrep Hcap Hfull) as Hpush.
  split; [apply Process_sendMessage_full_keep; assumption|].
  split.
  - intros f Hrel.
    rewrite (Process_sendMessage_full_remove (S fuel) w dest message p
               Hpq Hp Hlock Hgen Hpush), Hrel.
    reflexivity.
  - intros Hrel.
    rewrite (Process_sendMessage_full_remove (S fuel) w dest message p
               Hpq Hp Hlock Hgen Hpush), Hrel.
    reflexivity.
Qed.

End FullInbox.

Lemma sample_full_inbox_ready :
  let w := sample_full_inbox 1 in
  let p := default Process_zero (pq_processes (w_pq w) !! 0%nat) in
  pq_processes (w_pq w) !! Z.to_nat 0 = Some p /\
  p_releaseLock p = false /\
  0 = p_gen p /\
  queue_rep (p_messageQueue p) 0 [PUser 1; PUser 2; PUser 3; PUser 4] /\
  2 <= bq_cap (p_messageQueue p) /\
  Z.of_nat 4 = bq_cap (p_messageQueue p) /\
  bq_elementRelease (p_messageQueue p) = ER_user 8.
Proof.
  repeat (split; [vm_compute; reflexivity|]).
  split; [apply check_rep_sound; vm_compute; reflexivity|].
  split; [vm_compute; discriminate|].
  split; vm_compute; reflexivity.
Qed.

(** X9 (witness): a fifth message for the sample process whose inbox holds
    four. *)
Lemma Process_sendMessage_full_inbox_witness :
  exists w1 w2,
    Process_sendMessage (UC := sample_code) 1 (mkPID PQ_this 0 0) (PUser 5)
      MA_KEEP (sample_full_inbox 1) = Ok (SEND_FAIL, w1) /\
    w_user w1 = w_user (sample_full_inbox 1) /\
    Process_sendMessage (UC := sample_code) 1 (mkPID PQ_this 0 0) (PUser 5)
      MA_REMOVE (sample_full_inbox 1) = Ok (SEND_FAIL, w2) /\
    w_user w2 = S (w_user (sample_full_inbox 1)).
Proof.
  destruct sample_full_inbox_ready as (Hp & Hlock & Hgen & Hrep & Hcap & Hfull & Hrel).
  destruct (Process_sendMessage_full_inbox (UC := sample_code) 0
              (sample_full_inbox 1) (mkPID PQ_this 0 0) (PUser 5) _ 0 _
              eq_refl Hp Hlock Hgen Hrep Hcap Hfull)
    as (Hkeep & Hremove & _).
  eexists _, _. split; [exact Hkeep|]. split; [reflexivity|].
  split; [exact (Hremove _ Hrel)|]. reflexivity.
Defined.

(** ** The worker loop *)

Section WorkerLoop.

Context {U : Type} {UC : UserCode U}.

Implicit Types (w : World U) (p : Process) (q : ProcessQueue).

(** X10: a process whose batch bound is 0 (spawned with [messageCap] or
    [maxMessagePerCycle] 0) is never dispatched: the visit takes it from
    the head of the run queue and puts it back at the tail; no handler is
    called and nothing else changes, whatever the state of the process and
    of its inbox. *)
Theorem worker_visit_zero_batch fuel tid i w p Fr rest :
  queue_rep (pq_runQueue (w_pq w)) Fr (PProc i :: rest) ->
  wrap_safe (bq_cap (pq_runQueue (w_pq w))) (Fr + Z.of_nat (length rest) + 2) ->
  pq_processes (w_pq w) !! i = Some p ->
  p_maxMessagePerCycle p = 0 ->
  exists rq',
    worker_visit (S (S fuel)) tid w
      = Ok (tt, add_trace [EvPop QRun (PProc i); EvPush QRun (PProc i) true]
                  (with_queue QRun rq' w)) /\
    queue_rep rq' (Fr + 1) (rest ++ [PProc i]) /\
    pq_processes (w_pq (with_queue QRun rq' w)) = pq_processes (w_pq w).
Proof.
  intros Hrun Hsafe Hp Hmax.
  destruct (pop_rep_ok (S fuel) _ Fr (PProc i) rest Hrun)
    as (rq1 & Hpop & Hrep1 & Hc1 & _).
  assert (Hroom : Z.of_nat (length rest) < bq_cap rq1).
  { pose proof (qr_len _ _ _ Hrun) as Hl. simpl length in Hl. lia. }
  destruct (push_rep_ok (S fuel) rq1 (Fr + 1) rest (PProc i) Hrep1 Hroom)
    as (rq' & Hpush & Hrep' & _).
  { rewrite Hc1.
    replace (Fr + 1 + Z.of_nat (length rest) + 1)
      with (Fr + Z.of_nat (length rest) + 2) by lia. exact Hsafe. }
  exists rq'. split; [|split; [exact Hrep' | reflexivity]].
  unfold worker_visit.
  mstep ltac:(eapply pop_at_ok; [reflexivity | exact Hpop]).
  cbn [is_null].
  mstep ltac:(eapply (batch_loop_over (S fuel)) with (p := p);
              [exact Hp | lia]).
  cbn [push_retry].
  mstep ltac:(eapply push_at_ok; [reflexivity | exact Hpush]).
  unfold ret. rewrite !with_queue_add_trace, !add_trace_add_trace.
  rewrite with_queue_twice. reflexivity.
Qed.

Lemma worker_visit_idle fuel tid w Fr :
  queue_rep (pq_runQueue (w_pq w)) Fr [] ->
  worker_visit (S fuel) tid w
    = Ok (tt, add_trace [EvPop QRun NULL; EvYield]
                (with_queue QRun (pq_runQueue (w_pq w)) w)).
Proof.
  intros Hrun. unfold worker_visit.
  mstep ltac:(eapply pop_at_ok;
              [reflexivity | apply (pop_rep_empty fuel _ Fr Hrun)]).
  cbn [is_null]. rewrite emit_ok, add_trace_add_trace. reflexivity.
Qed.

Lemma threadWorker_idle fuel tid Fr : forall n w,
  pq_state (w_pq w) = DQS_RUNNING ->
  queue_rep (pq_runQueue (w_pq w)) Fr [] ->
  threadWorker n (S fuel) tid w = OutOfFuel.
Proof.
  induction n as [|n IH]; intros w Hstate Hrun; [reflexivity|].
  cbn [threadWorker].
  mstep ltac:(reflexivity). rewrite Hstate.
  mstep ltac:(apply (worker_visit_idle fuel tid w Fr Hrun)).
  apply IH; [exact Hstate | exact Hrun].
Qed.

Lemma threadWorker_stops n fuel tid : forall w w',
  threadWorker n fuel tid w = Ok (tt, w') ->
  pq_state (w_pq w') = DQS_STOPPED.
Proof.
  induction n as [|n IH]; intros w w' H; [discriminate|].
  cbn [threadWorker] in H.
  apply bind_inv in H as (q & w0 & Hq & H).
  injection Hq as <- <-.
  destruct (pq_state (w_pq w)) eqn:Hstate.
  - apply bind_inv in H as ([] & w1 & _ & H). eapply IH. exact H.
  - injection H as <-. exact Hstate.
Qed.

(** X11: a worker leaves its loop only when it reads the state
    [DQS_STOPPED].  Whenever [threadWorker] returns, the runtime is
    stopped; on a stopped runtime it returns at once and changes nothing;
    on a running runtime whose run queue is empty a visit only yields, and
    the worker, left alone, polls the queue for ever. *)
Theorem threadWorker_runs_until_stopped n fuel tid w :
  (forall w', threadWorker n fuel tid w = Ok (tt, w') ->
     pq_state (w_pq w') = DQS_STOPPED) /\
  (pq_state (w_pq w) = DQS_STOPPED ->
   threadWorker (S n) fuel tid w = Ok (tt, w)) /\
  (forall Fr,
     pq_state (w_pq w) = DQS_RUNNING ->
     queue_rep (pq_runQueue (w_pq w)) Fr [] ->
     worker_visit (S fuel) tid w
       = Ok (tt, add_trace [EvPop QRun NULL; EvYield]
                   (with_queue QRun (pq_runQueue (w_pq w)) w)) /\
     threadWorker n (S fuel) tid w = OutOfFuel).
Proof.
  split; [|split].
  - intros w'. apply threadWorker_stops.
  - intros Hstate. cbn [threadWorker].
    mstep ltac:(reflexivity). rewrite Hstate. reflexivity.
  - intros Fr Hstate Hrun. split.
    + apply (worker_visit_idle fuel tid w Fr Hrun).
    + apply (threadWorker_idle fuel tid Fr n w Hstate Hrun).
Qed.

(** X12: a process spawned with a null handler is admitted like any other,
    and the first dispatch of it calls through the null pointer: the visit
    of a running process with no handler, and of a waiting one whose inbox
    holds a message, faults. *)
Theorem worker_visit_null_handler fuel tid i w p Fr rest :
  queue_rep (pq_runQueue (w_pq w)) Fr (PProc i :: rest) ->
  pq_processes (w_pq w) !! i = Some p ->
  p_handler p = None ->
  0 < p_maxMessagePerCycle p ->
  (p_runningState p = PS_RUNNING \/
   exists F m msgs,
     queue_rep (p_messageQueue p) F (m :: msgs) /\ m <> NULL) ->
  worker_visit (S (S fuel)) tid w = Fault.
Proof.
  intros Hrun Hp Hnone Hmax Hcase.
  destruct (pop_rep_ok (S fuel) _ Fr (PProc i) rest Hrun)
    as (rq1 & Hpop & _).
  unfold worker_visit.
  mstep ltac:(eapply pop_at_ok; [reflexivity | exact Hpop]).
  cbn [is_null]. apply bind_fault.
  match goal with |- batch_loop _ _ _ _ _ _ ?w0 = _ => set (w1 := w0) end.
  assert (Hp1 : pq_processes (w_pq w1) !! i = Some p) by exact Hp.
  destruct (p_runningState p) eqn:Hrs.
  - rewrite (batch_loop_running (S fuel) (S (S fuel)) tid i 0 w1 p Hp1 Hmax Hrs).
    apply bind_fault. apply handleProcess_null_handler with (p := p); assumption.
  - destruct Hcase as [Hc|(F & m & msgs & Hrep & Hm)]; [discriminate|].
    destruct (batch_loop_waiting_message (S fuel) (S fuel) tid i 0 w1 p F m msgs
                Hp1 Hmax Hrs Hrep Hm) as (inbox' & _ & Hloop).
    rewrite Hloop. apply bind_fault.
    apply handleProcess_null_handler with (p := set_messageQueue inbox' p).
    + rewrite procs_add_trace. apply (with_proc_lookup w1 i p). exact Hp1.
    + exact Hnone.
Qed.

End WorkerLoop.

(** X10 (witness): a process spawned with [maxMessagePerCycle = 0]. *)
Lemma worker_visit_zero_batch_witness :
  exists rq',
    worker_visit (UC := sample_code) 2 0
      (sample_world 2 [CSpawn main_thread sample_parameters_no_batch])
      = Ok (tt, add_trace [EvPop QRun (PProc 0); EvPush QRun (PProc 0) true]
                  (with_queue QRun rq'
                     (sample_world 2
                        [CSpawn main_thread sample_parameters_no_batch]))).
Proof.
  destruct (worker_visit_zero_batch (UC := sample_code) 0 0 0
              (sample_world 2 [CSpawn main_thread sample_parameters_no_batch])
              (default Process_zero
                 (pq_processes
                    (w_pq (sample_world 2
                             [CSpawn main_thread sample_parameters_no_batch]))
                  !! 0%nat))
              0 [])
    as (rq' & Hvisit & _).
  - apply check_rep_sound. vm_compute. reflexivity.
  - right. vm_compute. reflexivity.
  - vm_compute. reflexivity.
  - vm_compute. reflexivity.
  - exists rq'. exact Hvisit.
Defined.

(** X11 (witness): the worker of the fresh sample runtime polls its empty
    run queue; once the runtime is released it returns at once. *)
Lemma threadWorker_runs_until_stopped_witness :
  threadWorker (UC := sample_code) 5 1 0 (sample_world 2 []) = OutOfFuel /\
  threadWorker (UC := sample_code) 6 1 0 (sample_world 2 [CRelease])
    = Ok (tt, sample_world 2 [CRelease]).
Proof.
  split.
  - apply (proj2 (proj2 (threadWorker_runs_until_stopped (UC := sample_code)
                           5 0 0 (sample_world 2 []))) 0).
    + vm_compute. reflexivity.
    + apply check_rep_sound. vm_compute. reflexivity.
  - apply (proj1 (proj2 (threadWorker_runs_until_stopped (UC := sample_code)
                           5 1 0 (sample_world 2 [CRelease])))).
    vm_compute. reflexivity.
Defined.

(** X12 (witness): a process spawned without a handler. *)
Lemma worker_visit_null_handler_witness :
  worker_visit (UC := sample_code) 2 0
    (sample_world 2 [CSpawn main_thread sample_parameters_no_handler])
  = Fault.
Proof.
  apply (worker_visit_null_handler (UC := sample_code) 0 0 0
           (sample_world 2 [CSpawn main_thread sample_parameters_no_handler])
           (default Process_zero
              (pq_processes
                 (w_pq (sample_world 2
                          [CSpawn main_thread sample_parameters_no_handler]))
               !! 0%nat))
           0 []).
  - apply check_rep_sound. vm_compute. reflexivity.
  - vm_compute. reflexivity.
  - vm_compute. reflexivity.
  - vm_compute. reflexivity.
  - left. vm_compute. reflexivity.
Defined.

(** ** A runtime of capacity 0 *)

Section ZeroCapacity.

Context {U : Type} {UC : UserCode U}.

Implicit Types (w : World U) (p : Process) (q : ProcessQueue).

Lemma pop_at_no_capacity fuel loc w bq :
  queue_of loc w = Some bq ->
  bq_cap bq = 0 ->
  pop_at (S fuel) loc w = Fault.
Proof.
  intros Hq H0. unfold pop_at.
  erewrite bind_ok; [|apply get_queue_ok; exact Hq].
  apply bind_fault. unfold lift.
  destruct (BoundedQueue_unusable fuel bq NULL (or_introl H0)) as [_ ->].
  reflexivity.
Qed.

(** X13: [ProcessQueue_init] accepts the capacity 0.  On the runtime it
    returns every spawn is refused with the null PID, and the run queue
    has capacity 0: the first visit of a worker and
    [ProcessQueue_release] divide by zero in [BoundedQueue_pop]. *)
Theorem ProcessQueue_zero_capacity (fuel : nat) (threadCount : Z) (u : U)
    (tr : list Event) :
  exists q,
    ProcessQueue_init fuel 0 threadCount = Ok q /\
    pq_processes q = [] /\
    (forall f tid parameters,
       exists w',
         ProcessQueue_spawn f tid parameters (mkWorld q u tr)
           = Ok (null_PID, w') /\
         w_pq w' = q) /\
    (forall f tid, worker_visit (S f) tid (mkWorld q u tr) = Fault) /\
    (forall f, ProcessQueue_release (S f) (mkWorld q u tr) = Fault).
Proof.
  eexists. split; [reflexivity|]. split; [reflexivity|].
  split; [|split].
  - intros f tid parameters. eexists. split.
    + apply ProcessQueue_spawn_full; cbn; lia.
    + reflexivity.
  - intros f tid. unfold worker_visit. apply bind_fault.
    eapply pop_at_no_capacity; reflexivity.
  - intros f. unfold ProcessQueue_release.
    mstep ltac:(reflexivity). cbn [pq_state w_pq].
    mstep ltac:(reflexivity). mstep ltac:(reflexivity).
    mstep ltac:(apply join_threads_ok;
                cbn; apply Forall_forall; intros s Hs;
                apply elem_of_replicate in Hs as [-> _]; reflexivity).
    mstep ltac:(reflexivity).
    unfold BoundedQueue_release.
    mstep ltac:(apply get_queue_ok; reflexivity).
    cbn [bq_elementRelease pq_runQueue w_pq set_threads set_state].
    apply bind_fault. rewrite release_loop_S. apply bind_fault.
    eapply pop_at_no_capacity; reflexivity.
Qed.

End ZeroCapacity.

(** ** A message accepted by a process that stops *)

Section AcceptedThenStopped.

Context {U : Type} {UC : UserCode U}.

Implicit Types (w : World U) (p : Process) (q : ProcessQueue).

(** X14: [SEND_SUCCESS] does not mean that the handler sees the message.
    If the destination is a running process, it is dispatched with the null
    message at its next visit; if its handler then returns [PCT_STOP], the
    retirement hands the accepted message to the message destructor, and
    no handler call ever carries it. *)
Theorem accepted_message_released_on_stop
    fuel tid w i p F Fr rest Fp pool f g message ma :
  queue_rep (pq_runQueue (w_pq w)) Fr (PProc i :: rest) ->
  pq_processes (w_pq w) !! i = Some p ->
  p_id p = Z.of_nat i ->
  p_releaseLock p = false ->
  p_handler p = Some f ->
  p_runningState p = PS_RUNNING ->
  0 < p_maxMessagePerCycle p ->
  p_processQueue p = PQ_this ->
  queue_rep (p_messageQueue p) F [] ->
  bq_elementRelease (p_messageQueue p) = ER_user g ->
  wrap_safe (bq_cap (p_messageQueue p)) (F + 1) ->
  message <> NULL ->
  queue_rep (pq_procPool (w_pq w)) Fp pool ->
  Z.of_nat (length pool) < bq_cap (pq_procPool (w_pq w)) ->
  wrap_safe (bq_cap (pq_procPool (w_pq w))) (Fp + Z.of_nat (length pool) + 1) ->
  (forall q u, user_handler f tid (p_state p) NULL q u = Ok (PCT_STOP, q, u)) ->
  exists w1 w2,
    Process_sendMessage (S fuel) (mkPID PQ_this (p_id p) (p_gen p)) message ma w
      = Ok (SEND_SUCCESS, w1) /\
    worker_visit (S (S (S (S fuel)))) tid w1 = Ok (tt, w2) /\
    w_trace w2
      = w_trace w1
        ++ [EvPop QRun (PProc i);
            EvHandler i f PS_RUNNING (p_state p) NULL PCT_STOP;
            EvLock i; EvGen i (wrap32 (p_gen p + 1))]
        ++ state_events (p_releaseState p) (p_state p)
        ++ [EvPop (QInbox i) message; EvElementRelease g message;
            EvPop (QInbox i) NULL; EvFree (QInbox i);
            EvPush QPool (PProc i) true; EvUnlock i] /\
    w_user w2
      = user_release g message
          match p_releaseState p with
          | Some r => user_release r (p_state p) (w_user w)
          | None => w_user w
          end.
Proof.
  intros Hrun Hp Hid Hlock Hf Hrs Hmax Hthis Hrep Hrel Hsafe Hm
    Hpool Hroom Hpsafe Hstop.
  set (pid := {| pid_pq := PQ_this; pid_id := p_id p; pid_gen := p_gen p |}).
  assert (Hi : Z.to_nat (pid_id pid) = i) by (cbn; rewrite Hid; lia).
  destruct (push_rep_ok fuel _ F [] message Hrep)
    as (bq1 & Hpush & Hrep1 & _ & Hrel1).
  { pose proof (qr_cap _ _ _ Hrep). cbn. lia. }
  { eapply wrap_safe_le; [exact Hsafe | cbn; lia]. }
  pose proof (Process_sendMessage_success (S fuel) w pid message ma p bq1
                eq_refl ltac:(rewrite Hi; exact Hp) Hlock eq_refl Hpush)
    as Hsend.
  rewrite Hi in Hsend.
  set (p1 := set_messageQueue bq1 (set_releaseLock true p)) in *.
  match type of Hsend with _ = Ok (_, ?x) => set (w1 := x) in * end.
  assert (Hp1 : pq_processes (w_pq w1) !! i = Some p1)
    by (apply (with_proc_lookup w i p); exact Hp).
  destruct (worker_visit_stop (S (S (S (S fuel)))) tid i w1 p1 Fr rest f
              (Some g) F [message] Fp pool)
    as (rq1 & inbox' & pool' & Hvisit & _); try assumption.
  { cbn. lia. }
  { cbn. rewrite Hrel1. exact Hrel. }
  { intros _. split; [exact Hrep1|]. constructor; [exact Hm | constructor]. }
  exists w1. eexists. split; [exact Hsend|]. split; [exact Hvisit|].
  split.
  - cbn. rewrite <- !app_assoc. reflexivity.
  - cbn. destruct (p_releaseState p); reflexivity.
Qed.

End AcceptedThenStopped.

(** X14 (witness): a message for the sample process that stops at its
    first dispatch; the state destructor and the message destructor have
    each run once after the visit. *)
Lemma accepted_message_released_on_stop_witness :
  exists w1 w2,
    Process_sendMessage (UC := sample_code) 1 (mkPID PQ_this 0 0) (PUser 5)
      MA_KEEP (sample_world 2 [CSpawn main_thread (sample_parameters 0)])
      = Ok (SEND_SUCCESS, w1) /\
    worker_visit (UC := sample_code) 4 0 w1 = Ok (tt, w2) /\
    w_user w2 = 2%nat.
Proof.
  destruct (accepted_message_released_on_stop (UC := sample_code) 0 0
              (sample_world 2 [CSpawn main_thread (sample_parameters 0)])
              0 (live_slot 0 0) 0 0 [] 1 [PProc 1] 0 8 (PUser 5) MA_KEEP)
    as (w1 & w2 & Hsend & Hvisit & _ & Hu).
  - apply check_rep_sound. vm_compute. reflexivity.
  - vm_compute. reflexivity.
  - reflexivity.
  - reflexivity.
  - reflexivity.
  - reflexivity.
  - reflexivity.
  - reflexivity.
  - apply (queue_rep_init 4). lia.
  - reflexivity.
  - right. reflexivity.
  - discriminate.
  - apply check_rep_sound. vm_compute. reflexivity.
  - vm_compute. reflexivity.
  - right. vm_compute. reflexivity.
  - intros q u. reflexivity.
  - exists w1, w2. split; [exact Hsend|]. split; [exact Hvisit|].
    rewrite Hu. vm_compute. reflexivity.
Defined.

(** ** After teardown *)

Section AfterTeardown.

Context {U : Type} {UC : UserCode U}.

Implicit Types (w : World U) (p : Process) (q : ProcessQueue).

Lemma ProcessQueue_release_runs fuel w slots F Fp pool :
  pq_state (w_pq w) = DQS_RUNNING ->
  Forall (fun s => s = TH_RUNNING) (pq_threads (w_pq w)) ->
  queue_rep (pq_runQueue (w_pq w)) F (map PProc slots) ->
  bq_elementRelease (pq_runQueue (w_pq w)) = ER_processRelease ->
  NoDup slots ->
  (forall i, i ∈ slots ->
     exists p, pq_processes (w_pq w) !! i = Some p /\ retirable fuel p) ->
  queue_rep (pq_procPool (w_pq w)) Fp pool ->
  Z.of_nat (length pool) + Z.of_nat (length slots)
    <= bq_cap (pq_procPool (w_pq w)) ->
  wrap_safe (bq_cap (pq_procPool (w_pq w)))
    (Fp + Z.of_nat (length pool) + Z.of_nat (length slots)) ->
  (length slots < fuel)%nat ->
  exists w1,
    ProcessQueue_release fuel w = Ok (tt, w1) /\
    pq_state (w_pq w1) = DQS_STOPPED /\
    (forall j p, pq_processes (w_pq w) !! j = Some p ->
       exists p', pq_processes (w_pq w1) !! j = Some p' /\
         (j ∈ slots -> exists inbox', p' = retired_slot p inbox') /\
         (j ∉ slots -> p' = p)).
Proof.
  intros Hstate Hthreads Hrun Hrel Hnd Hready Hpool Hroom Hsafe Hfuel.
  destruct fuel as [|f]; [lia|].
  set (joins := map EvJoin (seq 0 (length (pq_threads (w_pq w))))).
  set (joined := replicate (length (pq_threads (w_pq w))) TH_JOINED).
  set (wj := mkWorld (set_threads joined (set_state DQS_STOPPED (w_pq w)))
               (w_user w) (w_trace w ++ joins)).
  destruct (release_loop_retires (S f) f slots (f - length slots) wj F Fp pool)
    as (w' & Hloop & Hrun' & Hpool' & Hst & Hth & Hslots & evs & Htr);
    try assumption.
  replace (S (length slots + (f - length slots))) with (S f) in Hloop by lia.
  eexists. split; [|split].
  - unfold ProcessQueue_release.
    mstep ltac:(reflexivity). rewrite Hstate.
    mstep ltac:(reflexivity). mstep ltac:(reflexivity).
    mstep ltac:(apply join_threads_ok; exact Hthreads).
    mstep ltac:(reflexivity).
    unfold BoundedQueue_release.
    mstep ltac:(apply get_queue_ok; reflexivity).
    match goal with
    | |- context [bq_elementRelease ?b] =>
        change (bq_elementRelease b)
          with (bq_elementRelease (pq_runQueue (w_pq w)))
    end.
    rewrite Hrel.
    mstep ltac:(exact Hloop).
    mstep ltac:(apply get_queue_ok; reflexivity).
    mstep ltac:(eapply set_queue_ok; reflexivity).
    apply emit_ok.
  - exact Hst.
  - exact Hslots.
Qed.

(** X15: after [ProcessQueue_release] the PID of every process that was on
    the run queue is stale: the teardown has bumped the generation of its
    slot and released the lock, so a send to it returns [ACTOR_IS_DEAD] and
    touches neither the freed inbox nor the message. *)
Theorem send_after_release_is_dead fuel w slots F Fp pool :
  pq_state (w_pq w) = DQS_RUNNING ->
  Forall (fun s => s = TH_RUNNING) (pq_threads (w_pq w)) ->
  queue_rep (pq_runQueue (w_pq w)) F (map PProc slots) ->
  bq_elementRelease (pq_runQueue (w_pq w)) = ER_processRelease ->
  NoDup slots ->
  (forall i, i ∈ slots ->
     exists p, pq_processes (w_pq w) !! i = Some p /\ retirable fuel p) ->
  queue_rep (pq_procPool (w_pq w)) Fp pool ->
  Z.of_nat (length pool) + Z.of_nat (length slots)
    <= bq_cap (pq_procPool (w_pq w)) ->
  wrap_safe (bq_cap (pq_procPool (w_pq w)))
    (Fp + Z.of_nat (length pool) + Z.of_nat (length slots)) ->
  (length slots < fuel)%nat ->
  exists w1,
    ProcessQueue_release fuel w = Ok (tt, w1) /\
    forall i p message ma fuel',
      i ∈ slots ->
      pq_processes (w_pq w) !! i = Some p ->
      p_id p = Z.of_nat i ->
      0 <= p_gen p < 4294967296 ->
      Process_sendMessage (S fuel') (mkPID PQ_this (p_id p) (p_gen p))
        message ma w1
        = Ok (ACTOR_IS_DEAD, add_trace [EvTryLock i true; EvUnlock i] w1).
Proof.
  intros Hstate Hthreads Hrun Hrel Hnd Hready Hpool Hroom Hsafe Hfuel.
  destruct (ProcessQueue_release_runs fuel w slots F Fp pool)
    as (w1 & Hrelease & _ & Hslots); try assumption.
  exists w1. split; [exact Hrelease|].
  intros i p message ma fuel' Hi Hp Hid Hgen.
  destruct (Hslots i p Hp) as (p' & Hp' & Hin & _).
  destruct (Hin Hi) as (inbox' & ->).
  set (pid := {| pid_pq := PQ_this; pid_id := p_id p; pid_gen := p_gen p |}).
  assert (Hidx : Z.to_nat (pid_id pid) = i) by (cbn; rewrite Hid; lia).
  rewrite <- Hidx.
  apply Process_sendMessage_dead with (p := retired_slot p inbox').
  - reflexivity.
  - rewrite Hidx. exact Hp'.
  - reflexivity.
  - cbn. intros E. symmetry in E. revert E. apply wrap32_shift; lia.
Qed.

End AfterTeardown.

(** X15 (witness): the two processes of the sample runtime after its
    teardown. *)
Lemma send_after_release_is_dead_witness :
  exists w1 p,
    ProcessQueue_release (UC := sample_code) 8
      (sample_world 2 [CSpawn main_thread (sample_parameters 1);
                       CSpawn main_thread (sample_parameters 2)])
      = Ok (tt, w1) /\
    pq_processes
      (w_pq (sample_world 2 [CSpawn main_thread (sample_parameters 1);
                             CSpawn main_thread (sample_parameters 2)]))
      !! 1%nat = Some p /\
    Process_sendMessage (UC := sample_code) 1
      (mkPID PQ_this (p_id p) (p_gen p)) (PUser 5) MA_KEEP w1
      = Ok (ACTOR_IS_DEAD, add_trace [EvTryLock 1 true; EvUnlock 1] w1).
Proof.
  destruct (send_after_release_is_dead (UC := sample_code) 8
              (sample_world 2 [CSpawn main_thread (sample_parameters 1);
                               CSpawn main_thread (sample_parameters 2)])
              [0%nat; 1%nat] 0 2 [])
    as (w1 & Hrun & Hdead).
  - vm_compute. reflexivity.
  - vm_compute. repeat constructor.
  - apply check_rep_sound. vm_compute. reflexivity.
  - vm_compute. reflexivity.
  - apply NoDup_cons. split; [|apply NoDup_singleton].
    intros Hin. apply list_elem_of_singleton in Hin. discriminate.
  - intros i Hi.
    apply elem_of_cons in Hi as [->|Hi];
      [|apply list_elem_of_singleton in Hi as ->];
      (eexists; split; [vm_compute; reflexivity|];
       split; [reflexivity|];
       exists (Some 8%nat), 0, [];
       split; [reflexivity|];
       split; [|simpl; lia];
       intros _; split; [apply (queue_rep_init 4); lia | constructor]).
  - apply check_rep_sound. vm_compute. reflexivity.
  - vm_compute. discriminate.
  - right. vm_compute. reflexivity.
  - simpl. lia.
  - exists w1,
      (default Process_zero
         (pq_processes
            (w_pq (sample_world 2 [CSpawn main_thread (sample_parameters 1);
                                   CSpawn main_thread (sample_parameters 2)]))
          !! 1%nat)).
    split; [exact Hrun|].
    split; [vm_compute; reflexivity|].
    apply (Hdead 1%nat).
    + apply elem_of_cons. right. apply list_elem_of_singleton. reflexivity.
    + vm_compute. reflexivity.
    + vm_compute. reflexivity.
    + vm_compute. split; [discriminate | reflexivity].
Defined.

(** ** The PID of a spawned process *)

Section SpawnedPid.

Context {U : Type} {UC : UserCode U}.

Implicit Types (w : World U) (p : Process) (q : ProcessQueue).

(** X16: the PID [ProcessQueue_spawn] returns to the caller is the PID
    [Process_self] returns to the new process: once a worker has made the
    new slot its current process (as [handleProcess] does before it calls
    the handler), [Process_self] on that thread yields the same id and
    generation. *)
Theorem Process_self_is_spawned_pid fuel tid parameters w i p Fp rest Fr l :
  pq_procCount (w_pq w) < pq_processCap (w_pq w) ->
  queue_rep (pq_procPool (w_pq w)) Fp (PProc i :: rest) ->
  pq_processes (w_pq w) !! i = Some p ->
  queue_rep (pq_runQueue (w_pq w)) Fr l ->
  Z.of_nat (length l) < bq_cap (pq_runQueue (w_pq w)) ->
  wrap_safe (bq_cap (pq_runQueue (w_pq w))) (Fr + Z.of_nat (length l) + 1) ->
  exists pid w1,
    ProcessQueue_spawn (S fuel) tid parameters w = Ok (pid, w1) /\
    pid = mkPID PQ_this (p_id p) (p_gen p) /\
    forall worker,
      Process_self worker (with_entered worker i w1)
        = Ok (pid, with_entered worker i w1).
Proof.
  intros Hadm Hpool Hp Hrun Hroom Hsafe.
  destruct (ProcessQueue_spawn_at fuel tid parameters w i p Fp rest Fr l
              Hadm Hpool Hp Hrun Hroom Hsafe)
    as (pool' & rq' & Hspawn & _).
  eexists _, _. split; [exact Hspawn|]. split; [reflexivity|].
  intros worker.
  apply (Process_self_in_handler worker _ i
           (spawned_slot (default NULL (pq_currentProcess (w_pq w) !! tid))
              parameters p)).
  - cbn. apply lookup_insert_eq.
  - cbn. apply list_lookup_insert_eq. eapply lookup_lt_Some. exact Hp.
Qed.

End SpawnedPid.

(** X16 (witness): the first process of the sample runtime. *)
Lemma Process_self_is_spawned_pid_witness :
  exists pid w1,
    ProcessQueue_spawn (UC := sample_code) 1 main_thread (sample_parameters 2)
      (sample_world 2 []) = Ok (pid, w1) /\
    Process_self 0 (with_entered 0 0 w1) = Ok (pid, with_entered 0 0 w1).
Proof.
  destruct (Process_self_is_spawned_pid (UC := sample_code) 0
              main_thread (sample_parameters 2) (sample_world 2 []) 0
              (default Process_zero
                 (pq_processes (w_pq (sample_world 2 [])) !! 0%nat))
              0 [PProc 1] 0 [])
    as (pid & w1 & Hspawn & _ & Hself).
  - vm_compute. reflexivity.
  - apply check_rep_sound. vm_compute. reflexivity.
  - vm_compute. reflexivity.
  - apply check_rep_sound. vm_compute. reflexivity.
  - vm_compute. reflexivity.
  - right. vm_compute. reflexivity.
  - exists pid, w1. split; [exact Hspawn | apply Hself].
Defined.

(** ** An inbox of capacity 0 *)

Section ZeroInbox.

Context {U : Type} {UC : UserCode U}.

Implicit Types (w : World U) (p : Process) (q : ProcessQueue).

Lemma push_at_no_capacity fuel loc x w bq :
  queue_of loc w = Some bq ->
  bq_cap bq = 0 ->
  push_at (S fuel) loc x w = Fault.
Proof.
  intros Hq H0. unfold push_at.
  erewrite bind_ok; [|apply get_queue_ok; exact Hq].
  apply bind_fault. unfold lift.
  destruct (BoundedQueue_unusable fuel bq x (or_introl H0)) as [-> _].
  reflexivity.
Qed.

(** X17: [messageCap = 0] is accepted by [ProcessQueue_spawn] and gives the
    process an inbox of capacity 0.  A send to such a process, once past
    the try-lock and the generation check, divides by zero in
    [BoundedQueue_push]; and its retirement, if the process has a message
    destructor, divides by zero in the drain of the inbox. *)
Theorem Process_sendMessage_zero_inbox fuel w dest message ma p :
  pid_pq dest = PQ_this ->
  pq_processes (w_pq w) !! Z.to_nat (pid_id dest) = Some p ->
  p_releaseLock p = false ->
  pid_gen dest = p_gen p ->
  bq_cap (p_messageQueue p) = 0 ->
  Process_sendMessage (S fuel) dest message ma w = Fault /\
  (forall f, bq_elementRelease (p_messageQueue p) = ER_user f ->
     processRelease (S (S fuel)) (PProc (Z.to_nat (pid_id dest))) w = Fault).
Proof.
  intros Hpq Hp Hlock Hgen Hcap. split.
  - unfold Process_sendMessage. rewrite Hpq.
    step_get. rewrite Hlock. cbn [spinTryLock cas Bool.eqb].
    step_modify. step_emit. step_get.
    cbn [p_gen set_releaseLock p_releaseLock].
    rewrite Hgen, Z.eqb_refl. cbn [negb].
    apply bind_fault.
    eapply push_at_no_capacity; [apply queue_of_inbox; solve_lookup|].
    exact Hcap.
  - intros f Hrel. unfold processRelease. cbn [as_proc].
    mstep ltac:(apply ret_ok). step_get.
    mstep ltac:(unfold lift; rewrite spinLock_ok; reflexivity).
    step_modify. step_emit.
    mstep ltac:(unfold fetch_add_gen; step_get; step_modify; apply emit_ok).
    step_get.
    match goal with
    | |- bind ?m _ ?w0 = Fault =>
        assert (Hstate : exists w1, m w0 = Ok (tt, w1) /\
                  pq_processes (w_pq w1) = pq_processes (w_pq w0))
    end.
    { cbn [p_releaseState set_gen set_releaseLock].
      destruct (p_releaseState p) as [r|].
      - eexists. split; [reflexivity|]. reflexivity.
      - eexists. split; [reflexivity|]. reflexivity. }
    destruct Hstate as (w1 & Hstate & Hprocs).
    erewrite bind_ok; [|exact Hstate].
    apply bind_fault. unfold BoundedQueue_release.
    assert (Hq1 : queue_of (QInbox (Z.to_nat (pid_id dest))) w1
                  = Some (p_messageQueue p)).
    { cbn [queue_of]. rewrite Hprocs. rewrite !procs_add_trace.
      erewrite with_proc_lookup; [reflexivity|].
      rewrite procs_add_trace. eapply with_proc_lookup. exact Hp. }
    erewrite bind_ok; [|apply get_queue_ok; exact Hq1].
    rewrite Hrel. apply bind_fault. rewrite release_loop_S. apply bind_fault.
    eapply pop_at_no_capacity; [exact Hq1 | exact Hcap].
Qed.

End ZeroInbox.

(** X17 (witness): a process spawned with [messageCap = 0]. *)
Lemma Process_sendMessage_zero_inbox_witness :
  Process_sendMessage (UC := sample_code) 1 (mkPID PQ_this 0 0) (PUser 5)
    MA_KEEP (sample_world 2 [CSpawn main_thread sample_parameters_no_inbox])
  = Fault.
Proof.
  destruct (Process_sendMessage_zero_inbox (UC := sample_code) 0
              (sample_world 2 [CSpawn main_thread sample_parameters_no_inbox])
              (mkPID PQ_this 0 0) (PUser 5) MA_KEEP
              (default Process_zero
                 (pq_processes
                    (w_pq (sample_world 2
                             [CSpawn main_thread sample_parameters_no_inbox]))
                  !! 0%nat)))
    as [Hsend _].
  - reflexivity.
  - vm_compute. reflexivity.
  - vm_compute. reflexivity.
  - vm_compute. reflexivity.
  - vm_compute. reflexivity.
  - exact Hsend.
Defined.
